(** * DuckNo: a key/value store on top of DuckDB (src/duckno.py)

    The development embeds the Python class [DuckNo] together with the parts
    of its collaborators that the class relies on:

    - [float]    : Python's floats, which are IEEE 754 doubles, with the
                   conversions from and to decimal text;
    - [json]     : the standard module's [dumps] (with the arguments the store
                   passes: [ensure_ascii=False], [separators=(",", ":")]) and
                   [loads].  The limits of the interpreter (the depth of
                   recursion, the digits of an int it converts) are not part
                   of the model: [dumps] and [loads] are what the module
                   computes when they are not reached;
    - [pathlib]  : [PurePosixPath] parsing, [str], [name], [suffix], [parent],
                   and the file-system queries [exists], [is_dir], [mkdir];
    - [duckdb]   : one connection holding the store's table, with the
                   statements the class executes and explicit transactions;
    - [DuckNo]   : the class itself, method by method;
    - [lifetime] : [close] and the context manager of the class;
    - [example]  : the program [main] of src/example.py. *)

From Stdlib Require Import List String Ascii ZArith NArith Bool Lia.
From Stdlib Require Import Decimal DecimalPos.
From Stdlib Require DecimalN.
From Stdlib Require Import Eqdep_dec.
From Stdlib Require Import Sorting.Sorted Sorting.Permutation.
Import ListNotations.

Local Open Scope string_scope.
Set Warnings "-register-all".

(* ------------------------------------------------------------------------- *)
(** ** Python floats *)

(** The digits of a decimal numeral, as text. *)
Fixpoint string_of_uint (d : uint) : string :=
  match d with
  | Nil => ""
  | D0 d => String "0" (string_of_uint d)
  | D1 d => String "1" (string_of_uint d)
  | D2 d => String "2" (string_of_uint d)
  | D3 d => String "3" (string_of_uint d)
  | D4 d => String "4" (string_of_uint d)
  | D5 d => String "5" (string_of_uint d)
  | D6 d => String "6" (string_of_uint d)
  | D7 d => String "7" (string_of_uint d)
  | D8 d => String "8" (string_of_uint d)
  | D9 d => String "9" (string_of_uint d)
  end.

(** A Python [float] is an IEEE 754 binary64.  The module has the two
    conversions the json module needs: [float(text)] on the text of a JSON
    number, which gives the double nearest to the decimal (ties to even), and
    [float.__repr__], which writes the shortest decimal that reads back as
    the double. *)
Module float.
Local Open Scope Z_scope.

(** A finite double other than zero is [(-1)^neg * m * 2^e]. *)
Inductive binary64 : Type :=
| NaN
| Inf (neg : bool)
| Zero (neg : bool)
| Finite (neg : bool) (m : positive) (e : Z).

(** Normal numbers have a mantissa of 53 bits and an exponent from -1074 to
    971; subnormal numbers have a shorter mantissa and the exponent -1074. *)
Definition is_binary64 (x : binary64) : bool :=
  match x with
  | Finite _ m e =>
      ((2 ^ 52 <=? Zpos m) && (Zpos m <? 2 ^ 53) && (-1074 <=? e) && (e <=? 971))
      || ((Zpos m <? 2 ^ 52) && (e =? -1074))
  | _ => true
  end.

Record t : Type := mk { data : binary64; valid : is_binary64 data = true }.

Definition nan : t := mk NaN eq_refl.
Definition inf (neg : bool) : t := mk (Inf neg) eq_refl.
Definition zero (neg : bool) : t := mk (Zero neg) eq_refl.

Definition make (x : binary64) : t :=
  (if is_binary64 x as b return is_binary64 x = b -> t
   then fun H => mk x H
   else fun _ => nan) eq_refl.

Definition eqb (x y : binary64) : bool :=
  match x, y with
  | NaN, NaN => true
  | Inf a, Inf b => Bool.eqb a b
  | Zero a, Zero b => Bool.eqb a b
  | Finite a m e, Finite b m' e' => Bool.eqb a b && (m =? m')%positive && (e =? e')
  | _, _ => false
  end.

(** *** From decimal to binary *)

(** The integer nearest to [a / b], the even one of two that are as near. *)
Definition round_half_even (a b : Z) : Z :=
  let (q, r) := Z.div_eucl a b in
  match 2 * r ?= b with
  | Lt => q
  | Gt => q + 1
  | Eq => if Z.even q then q else q + 1
  end.

(** The double nearest to [p / q], for [0 <= p] and [0 < q].  The quotient is
    taken in units of [2^-1074], the smallest double; [sh] is the exponent
    the quotient needs to fit in 53 bits. *)
Definition of_ratio (neg : bool) (p q : Z) : binary64 :=
  let x := Z.shiftl p 1074 in
  let sh := Z.max 0 (Z.log2 (x / q) - 52) in
  let m := round_half_even x (Z.shiftl q sh) in
  let m' := if m =? 2 ^ 53 then 2 ^ 52 else m in
  let sh' := if m =? 2 ^ 53 then sh + 1 else sh in
  if m' =? 0 then Zero neg
  else if 2045 <? sh' then Inf neg
  else Finite neg (Z.to_pos m') (sh' - 1074).

(** The double nearest to [c * 10^k]. *)
Definition of_decimal (neg : bool) (c k : Z) : binary64 :=
  if 0 <=? k then of_ratio neg (c * 10 ^ k) 1 else of_ratio neg c (10 ^ (- k)).

(** [float(text)] on the text of a JSON number: the integer part [n], the
    digits [frac] after the point and the exponent [exp]. *)
Definition of_literal (neg : bool) (n : N) (frac : option uint) (exp : option Z) : t :=
  let f := match frac with Some d => d | None => Nil end in
  let w := Z.of_nat (nb_digits f) in
  let x := match exp with Some x => x | None => 0 end in
  make (of_decimal neg (Z.of_N n * 10 ^ w + Z.of_N (N.of_uint f)) (x - w)).

(** *** From binary to decimal *)

Definition ndigits (n : Z) : Z := Z.of_nat (nb_digits (N.to_uint (Z.to_N n))).

Fixpoint lead (fuel : nat) (a b : Z) : Z :=
  match fuel with
  | O => 0
  | S f => if b <=? a * 10 then 1 else 1 + lead f (a * 10) b
  end.

(** The position of the decimal point: [10^(point-1) <= a/b < 10^point]. *)
Definition point (a b : Z) : Z :=
  if b <=? a then ndigits (a / b) else 1 - lead 400 a b.

(** The two multiples of [10^k] next to [a / b], the nearer one first. *)
Definition neighbours (a b : Z) (k : Z) : Z * Z :=
  let (lo, r) := Z.div_eucl (a * 10 ^ Z.max (- k) 0) (b * 10 ^ Z.max k 0) in
  match 2 * r ?= b * 10 ^ Z.max k 0 with
  | Lt => (lo, lo + 1)
  | Gt => (lo + 1, lo)
  | Eq => if Z.even lo then (lo, lo + 1) else (lo + 1, lo)
  end.

Definition reads_back (x : binary64) (neg : bool) (c k : Z) : bool :=
  (0 <? c) && eqb (of_decimal neg c k) x.

(** The first decimal of [n], [n + 1], ... digits that reads back as [x],
    where [a / b] is the magnitude of [x] and [pt] its decimal point. *)
Fixpoint find_digits (fuel : nat) (n : Z) (x : binary64) (neg : bool) (a b pt : Z)
  : option (Z * Z) :=
  match fuel with
  | O => None
  | S f =>
      let k := pt - n in
      let (c1, c2) := neighbours a b k in
      if reads_back x neg c1 k then Some (c1, k)
      else if reads_back x neg c2 k then Some (c2, k)
      else find_digits f (n + 1) x neg a b pt
  end.

(** Zeros at the end of the digits go into the exponent. *)
Fixpoint strip (fuel : nat) (c k : Z) : Z * Z :=
  match fuel with
  | O => (c, k)
  | S f => if c mod 10 =? 0 then strip f (c / 10) (k + 1) else (c, k)
  end.

(** The digits [c] and the exponent [k] of the shortest decimal [c * 10^k]
    that reads back as the double [m * 2^e].  Seventeen digits are enough
    for every double; the decimal expansion of the double itself, which the
    find_digits would come to, stands for the digits beyond. *)
Definition shortest (neg : bool) (m : positive) (e : Z) : Z * Z :=
  let a := Zpos m * 2 ^ Z.max e 0 in
  let b := 2 ^ Z.max (- e) 0 in
  let (c, k) :=
    match find_digits 17 1 (Finite neg m e) neg a b (point a b) with
    | Some ck => ck
    | None => if 0 <=? e then (Zpos m * 2 ^ e, 0) else (Zpos m * 5 ^ (- e), e)
    end in
  strip 800 c k.

Definition digit_cons (d : Z) (u : uint) : uint :=
  match d with
  | 0 => D0 u | 1 => D1 u | 2 => D2 u | 3 => D3 u | 4 => D4 u
  | 5 => D5 u | 6 => D6 u | 7 => D7 u | 8 => D8 u | _ => D9 u
  end.

(** The [w] digits of [r], zeros in front. *)
Fixpoint digits_w (w : nat) (r : Z) : uint :=
  match w with
  | O => Nil
  | S w' => digit_cons (r / 10 ^ Z.of_nat w') (digits_w w' (r mod 10 ^ Z.of_nat w'))
  end.

(** The text of a number: integer part, digits after the point, exponent
    with its sign. *)
Definition literal : Type := N * option uint * option (bool * uint).

Definition literal_text (neg : bool) (l : literal) : string :=
  let '(n, frac, exp) := l in
  ((if neg then "-" else "")
   ++ string_of_uint (N.to_uint n)
   ++ match frac with Some d => String "." (string_of_uint d) | None => "" end
   ++ match exp with
      | Some (s, u) => String "e" (String (if s then "-"%char else "+"%char) (string_of_uint u))
      | None => ""
      end)%string.

(** The exponent a text denotes. *)
Definition exp_value (exp : option (bool * uint)) : option Z :=
  match exp with
  | Some (s, u) => Some (if s then - Z.of_N (N.of_uint u) else Z.of_N (N.of_uint u))
  | None => None
  end.

(** [format_float_short] with the format code [r] on the digits [c] and the
    exponent [k]: the exponent is written when the decimal point is more
    than 16 places to the right of the first digit or more than 3 to the
    left, and has at least two digits; a number without digits after the
    point gets [.0]. *)
Definition format (c k : Z) : literal :=
  let len := ndigits c in
  let decpt := len + k in
  if (decpt <=? -4) || (16 <? decpt) then
    let w := len - 1 in
    let x := Z.to_N (Z.abs (decpt - 1)) in
    (Z.to_N (c / 10 ^ w),
     if w =? 0 then None else Some (digits_w (Z.to_nat w) (c mod 10 ^ w)),
     Some (decpt - 1 <? 0, if (x <? 10)%N then D0 (N.to_uint x) else N.to_uint x))
  else if k <? 0 then
    (Z.to_N (c / 10 ^ (- k)), Some (digits_w (Z.to_nat (- k)) (c mod 10 ^ (- k))), None)
  else (Z.to_N (c * 10 ^ k), Some (D0 Nil), None).

(** [float.__repr__] *)
Definition repr (x : t) : string :=
  match data x with
  | NaN => "nan"
  | Inf false => "inf"
  | Inf true => "-inf"
  | Zero false => "0.0"
  | Zero true => "-0.0"
  | Finite neg m e => let (c, k) := shortest neg m e in literal_text neg (format c k)
  end.

End float.

(* ------------------------------------------------------------------------- *)
(** ** Python values *)

(** The values a caller can hand to the store.  [PyBytes] stands for the
    objects [json.dumps] refuses (bytes, sets, instances of user classes,
    ...). *)
Inductive value : Type :=
| PyNone
| PyBool (b : bool)
| PyInt (n : Z)
| PyFloat (x : float.t)
| PyStr (s : string)
| PyList (l : list value)
| PyTuple (l : list value)
| PyDict (items : list (value * value))
| PyBytes (b : string).

(** Python exceptions raised by the class or passing through it. *)
Inductive exn : Type :=
| ValueError (msg : string)
| TypeError (msg : string)
| JSONDecodeError
| OSError
| DuckDBError.

Inductive result (A : Type) : Type :=
| Ok (a : A)
| Raise (e : exn).
Arguments Ok {A} a.
Arguments Raise {A} e.

(** The double quote and a few control characters, by code. *)
Definition dquote : ascii := "034"%char.
Definition backslash : ascii := "\"%char.
Definition chr (n : N) : ascii := ascii_of_N n.
Definition ord (c : ascii) : N := N_of_ascii c.

(* ------------------------------------------------------------------------- *)
(** ** The json module *)

Module json.

(** [str(n)] for a Python int. *)
Definition str_int (n : Z) : string :=
  match n with
  | Z0 => "0"
  | Zpos p => string_of_uint (Pos.to_uint p)
  | Zneg p => String "-" (string_of_uint (Pos.to_uint p))
  end.

(** *** Encoder: [json.dumps(value, ensure_ascii=False, separators=(",", ":"))] *)

Definition hexdigit (n : N) : ascii :=
  if (n <? 10)%N then chr (48 + n) else chr (87 + n).

(** [ESCAPE_DCT]: backslash, quote and the control characters below 0x20;
    every other character is copied. *)
Definition escape (c : ascii) : string :=
  if (c =? backslash)%char then "\\"
  else if (c =? dquote)%char then String backslash (String dquote "")
  else if (ord c =? 8)%N then "\b"
  else if (ord c =? 12)%N then "\f"
  else if (ord c =? 10)%N then "\n"
  else if (ord c =? 13)%N then "\r"
  else if (ord c =? 9)%N then "\t"
  else if (ord c <? 32)%N
       then "\u00" ++ String (hexdigit (ord c / 16)) (String (hexdigit (ord c mod 16)) "")
  else String c "".

Fixpoint escape_all (s : string) : string :=
  match s with
  | "" => ""
  | String c r => escape c ++ escape_all r
  end.

Definition encode_basestring (s : string) : string :=
  String dquote (escape_all s ++ String dquote "").

(** [floatstr]: [float.__repr__], and with [allow_nan], which is the default,
    the names of the values that are no numbers. *)
Definition floatstr (x : float.t) : string :=
  match float.data x with
  | float.NaN => "NaN"
  | float.Inf false => "Infinity"
  | float.Inf true => "-Infinity"
  | _ => float.repr x
  end.

(** Dictionary keys: strings are kept, [True], [False], [None], ints and
    floats are turned into strings, any other key raises [TypeError]. *)
Definition key_str (k : value) : option string :=
  match k with
  | PyStr s => Some s
  | PyBool true => Some "true"
  | PyBool false => Some "false"
  | PyNone => Some "null"
  | PyInt n => Some (str_int n)
  | PyFloat x => Some (floatstr x)
  | _ => None
  end.

Definition cat (a b : option string) : option string :=
  match a, b with
  | Some x, Some y => Some (x ++ y)
  | _, _ => None
  end.

(** The elements of an array and its closing bracket, [enc] being the
    encoder of one value. *)
Definition dump_elems (enc : value -> option string) : list value -> option string :=
  fix elems (l : list value) : option string :=
    match l with
    | [] => Some "]"
    | v :: vs =>
        cat (enc v)
            (match vs with
             | [] => Some "]"
             | _ :: _ => cat (Some ",") (elems vs)
             end)
    end.

(** The members of an object and its closing brace. *)
Definition dump_members (enc : value -> option string)
  : list (value * value) -> option string :=
  fix members (l : list (value * value)) : option string :=
    match l with
    | [] => Some "}"
    | kv :: kvs =>
        cat (option_map encode_basestring (key_str (fst kv)))
          (cat (Some ":")
            (cat (enc (snd kv))
              (match kvs with
               | [] => Some "}"
               | _ :: _ => cat (Some ",") (members kvs)
               end)))
    end.

(** [dumps v] is [None] when the encoder raises [TypeError].  Lists and tuples
    are both written as arrays.  The encoder also raises on an int of more
    than 4300 digits ([ValueError]) and on nesting beyond the recursion limit
    of the interpreter ([RecursionError]); these limits are not modelled. *)
Fixpoint dumps (v : value) : option string :=
  match v with
  | PyNone => Some "null"
  | PyBool true => Some "true"
  | PyBool false => Some "false"
  | PyInt n => Some (str_int n)
  | PyFloat x => Some (floatstr x)
  | PyStr s => Some (encode_basestring s)
  | PyList l | PyTuple l => cat (Some "[") (dump_elems dumps l)
  | PyDict items => cat (Some "{") (dump_members dumps items)
  | PyBytes _ => None
  end.

(** *** Decoder: [json.loads] *)

Definition is_ws (c : ascii) : bool :=
  ((c =? " ") || (ord c =? 9)%N || (ord c =? 10)%N || (ord c =? 13)%N)%char.

(** [WHITESPACE.match(s, idx).end()] *)
Fixpoint skip_ws (s : string) : string :=
  match s with
  | String c r => if is_ws c then skip_ws r else s
  | "" => ""
  end.

Fixpoint strip_prefix (p s : string) : option string :=
  match p, s with
  | "", _ => Some s
  | String a p', String b s' => if (a =? b)%char then strip_prefix p' s' else None
  | String _ _, "" => None
  end.

Definition is_digit (c : ascii) : bool := ((48 <=? ord c) && (ord c <=? 57))%N.

Definition digit (c : ascii) (d : uint) : uint :=
  match (ord c - 48)%N with
  | 0 => D0 d | 1 => D1 d | 2 => D2 d | 3 => D3 d | 4 => D4 d
  | 5 => D5 d | 6 => D6 d | 7 => D7 d | 8 => D8 d | _ => D9 d
  end%N.

(** The longest run of digits at the head of [s], and what follows it. *)
Fixpoint scan_digits (s : string) : uint * string :=
  match s with
  | String c r =>
      if is_digit c then let (d, r') := scan_digits r in (digit c d, r')
      else (Nil, s)
  | "" => (Nil, "")
  end.

(** The integer part of [NUMBER_RE]: [0] or a digit run that does not start
    with [0]. *)
Definition scan_natural (s : string) : option (N * string) :=
  match s with
  | String c r =>
      if (c =? "0")%char then Some (0%N, r)
      else if is_digit c then let (d, r') := scan_digits s in Some (Pos.of_uint d, r')
      else None
  | "" => None
  end.

(** Does the text start like a fraction or an exponent? *)
Definition float_follows (s : string) : bool :=
  match s with
  | String c _ => ((c =? ".") || (c =? "e") || (c =? "E"))%char
  | "" => false
  end.

(** The fraction of [NUMBER_RE]: a point and at least one digit. *)
Definition scan_frac (s : string) : option (uint * string) :=
  match s with
  | String c r =>
      if (c =? ".")%char then
        match scan_digits r with
        | (Nil, _) => None
        | (d, r') => Some (d, r')
        end
      else None
  | "" => None
  end.

(** The exponent of [NUMBER_RE]: [e] or [E], a sign or none, and at least
    one digit. *)
Definition scan_exp (s : string) : option (Z * string) :=
  match s with
  | String c r =>
      if ((c =? "e") || (c =? "E"))%char then
        let (neg, r1) :=
          match r with
          | String c' r' =>
              if (c' =? "-")%char then (true, r')
              else if (c' =? "+")%char then (false, r')
              else (false, r)
          | "" => (false, r)
          end in
        match scan_digits r1 with
        | (Nil, _) => None
        | (d, r2) =>
            Some (if neg then Z.opp (Z.of_N (N.of_uint d)) else Z.of_N (N.of_uint d), r2)
        end
      else None
  | "" => None
  end.

(** The value of a number: [int(integer)] when the text has neither fraction
    nor exponent, [float(integer + frac + exp)] otherwise. *)
Definition number (neg : bool) (n : N) (frac : option uint) (exp : option Z) : value :=
  match frac, exp with
  | None, None => PyInt (if neg then Z.opp (Z.of_N n) else Z.of_N n)
  | _, _ => PyFloat (float.of_literal neg n frac exp)
  end.

(** [match_number]: the longest text [NUMBER_RE] matches and its value;
    [None] when the text does not start with a number. *)
Definition match_number (s : string) : option (value * string) :=
  let (neg, s1) :=
    match s with
    | String c r => if (c =? "-")%char then (true, r) else (false, s)
    | "" => (false, s)
    end in
  match scan_natural s1 with
  | None => None
  | Some (n, r1) =>
      let (frac, r2) :=
        match scan_frac r1 with
        | Some (d, r) => (Some d, r)
        | None => (None, r1)
        end in
      let (exp, r3) :=
        match scan_exp r2 with
        | Some (x, r) => (Some x, r)
        | None => (None, r2)
        end in
      Some (number neg n frac exp, r3)
  end.

Definition hexval (c : ascii) : option N :=
  let n := ord c in
  if ((48 <=? n) && (n <=? 57))%N then Some (n - 48)%N
  else if ((97 <=? n) && (n <=? 102))%N then Some (n - 87)%N
  else if ((65 <=? n) && (n <=? 70))%N then Some (n - 55)%N
  else None.

(** [_decode_uXXXX] on the four characters after [\u]. *)
Definition hex4 (a b c d : ascii) : option N :=
  match hexval a, hexval b, hexval c, hexval d with
  | Some x, Some y, Some z, Some w => Some (4096 * x + 256 * y + 16 * z + w)%N
  | _, _, _, _ => None
  end.

(** Strings are kept as UTF-8 bytes, so the character [chr(uni)] of an escape
    is appended in its encoded form. *)
Definition utf8 (n : N) : string :=
  if (n <? 128)%N then String (chr n) ""
  else if (n <? 2048)%N then
    String (chr (192 + n / 64)) (String (chr (128 + n mod 64)) "")
  else if (n <? 65536)%N then
    String (chr (224 + n / 4096))
      (String (chr (128 + (n / 64) mod 64)) (String (chr (128 + n mod 64)) ""))
  else
    String (chr (240 + n / 262144))
      (String (chr (128 + (n / 4096) mod 64))
        (String (chr (128 + (n / 64) mod 64)) (String (chr (128 + n mod 64)) ""))).

(** [BACKSLASH]: the one-character escapes. *)
Definition unescape (e : ascii) : option ascii :=
  if (e =? dquote)%char then Some dquote
  else if (e =? backslash)%char then Some backslash
  else if (e =? "/")%char then Some "/"%char
  else if (e =? "b")%char then Some (chr 8)
  else if (e =? "f")%char then Some (chr 12)
  else if (e =? "n")%char then Some (chr 10)
  else if (e =? "r")%char then Some (chr 13)
  else if (e =? "t")%char then Some (chr 9)
  else None.

Definition is_high_surrogate (n : N) : bool := ((55296 <=? n) && (n <=? 56319))%N.
Definition is_low_surrogate (n : N) : bool := ((56320 <=? n) && (n <=? 57343))%N.

Definition push (pre : string) (r : option (string * string)) : option (string * string) :=
  match r with
  | Some (t, rest) => Some (pre ++ t, rest)
  | None => None
  end.

(** [scanstring(s, end, strict=True)], entered after the opening quote:
    the decoded string and the text after the closing quote. *)
Fixpoint scanstring (s : string) : option (string * string) :=
  match s with
  | "" => None
  | String c r =>
      if (c =? dquote)%char then Some ("", r)
      else if (c =? backslash)%char then
        match r with
        | "" => None
        | String e r1 =>
            if (e =? "u")%char then
              match r1 with
              | String a (String b (String c' (String d r2))) =>
                  match hex4 a b c' d with
                  | None => None
                  | Some uni =>
                      if is_high_surrogate uni then
                        match r2 with
                        | String b1 (String u1 r2') =>
                            if (b1 =? backslash)%char && (u1 =? "u")%char then
                              match r2' with
                              | String a2 (String b2 (String c2 (String d2 r3))) =>
                                  match hex4 a2 b2 c2 d2 with
                                  | None => None
                                  | Some uni2 =>
                                      if is_low_surrogate uni2 then
                                        push (utf8 (65536 + ((uni - 55296) * 1024
                                                             + (uni2 - 56320)))%N)
                                             (scanstring r3)
                                      else push (utf8 uni) (scanstring r2)
                                  end
                              | _ => None
                              end
                            else push (utf8 uni) (scanstring r2)
                        | _ => push (utf8 uni) (scanstring r2)
                        end
                      else push (utf8 uni) (scanstring r2)
                  end
              | _ => None
              end
            else
              match unescape e with
              | Some c' => push (String c' "") (scanstring r1)
              | None => None
              end
        end
      else if (ord c <? 32)%N then None
      else push (String c "") (scanstring r)
  end.

(** [dict.__setitem__] and [dict(pairs)]: a repeated key keeps its first
    position and takes the last value. *)
Fixpoint dict_setitem (d : list (string * value)) (k : string) (v : value)
  : list (string * value) :=
  match d with
  | [] => [(k, v)]
  | (k', v') :: d' =>
      if (k' =? k)%string then (k', v) :: d' else (k', v') :: dict_setitem d' k v
  end.

Definition dict (pairs : list (string * value)) : list (value * value) :=
  map (fun kv => (PyStr (fst kv), snd kv))
      (fold_left (fun d kv => dict_setitem d (fst kv) (snd kv)) pairs []).

(** The names [NaN], [Infinity] and [-Infinity], which [scan_once] tries
    where no number starts. *)
Definition constant (s : string) : option (value * string) :=
  match strip_prefix "NaN" s, strip_prefix "Infinity" s, strip_prefix "-Infinity" s with
  | Some r, _, _ => Some (PyFloat float.nan, r)
  | _, Some r, _ => Some (PyFloat (float.inf false), r)
  | _, _, Some r => Some (PyFloat (float.inf true), r)
  | None, None, None => None
  end.

(** [scan_once], [JSONArray] and [JSONObject].  [fuel] bounds the nesting of
    calls; [loads] supplies the length of the text. *)
Fixpoint scan_once (fuel : nat) (s : string) : option (value * string) :=
  match fuel with
  | O => None
  | S fuel =>
      match s with
      | "" => None
      | String c r =>
          if (c =? dquote)%char then
            match scanstring r with
            | Some (t, r') => Some (PyStr t, r')
            | None => None
            end
          else if (c =? "{")%char then
            match skip_ws r with
            | String c' r' =>
                if (c' =? "}")%char then Some (PyDict [], r')
                else
                  match members fuel (skip_ws r) with
                  | Some (pairs, r'') => Some (PyDict (dict pairs), r'')
                  | None => None
                  end
            | "" => None
            end
          else if (c =? "[")%char then
            match skip_ws r with
            | String c' r' =>
                if (c' =? "]")%char then Some (PyList [], r')
                else
                  match elements fuel (skip_ws r) with
                  | Some (vs, r'') => Some (PyList vs, r'')
                  | None => None
                  end
            | "" => None
            end
          else
            match strip_prefix "null" s, strip_prefix "true" s, strip_prefix "false" s with
            | Some r', _, _ => Some (PyNone, r')
            | _, Some r', _ => Some (PyBool true, r')
            | _, _, Some r' => Some (PyBool false, r')
            | None, None, None =>
                match match_number s with
                | Some (v, r') => Some (v, r')
                | None => constant s
                end
            end
      end
  end

with elements (fuel : nat) (s : string) : option (list value * string) :=
  match fuel with
  | O => None
  | S fuel =>
      match scan_once fuel s with
      | None => None
      | Some (v, r) =>
          match skip_ws r with
          | String c r' =>
              if (c =? "]")%char then Some ([v], r')
              else if (c =? ",")%char then
                match elements fuel (skip_ws r') with
                | Some (vs, r'') => Some (v :: vs, r'')
                | None => None
                end
              else None
          | "" => None
          end
      end
  end

with members (fuel : nat) (s : string) : option (list (string * value) * string) :=
  match fuel with
  | O => None
  | S fuel =>
      match s with
      | String q r =>
          if (q =? dquote)%char then
            match scanstring r with
            | None => None
            | Some (k, r1) =>
                match skip_ws r1 with
                | String c r2 =>
                    if (c =? ":")%char then
                      match scan_once fuel (skip_ws r2) with
                      | None => None
                      | Some (v, r3) =>
                          match skip_ws r3 with
                          | String c' r4 =>
                              if (c' =? "}")%char then Some ([(k, v)], r4)
                              else if (c' =? ",")%char then
                                match members fuel (skip_ws r4) with
                                | Some (kvs, r5) => Some ((k, v) :: kvs, r5)
                                | None => None
                                end
                              else None
                          | "" => None
                          end
                      end
                    else None
                | "" => None
                end
            end
          else None
      | "" => None
      end
  end.

(** [json.loads(s)]: one value, surrounded by optional white space, and
    nothing else.  [None] stands for [JSONDecodeError]. *)
Definition loads (s : string) : option value :=
  match scan_once (String.length s) (skip_ws s) with
  | Some (v, r) => match skip_ws r with "" => Some v | String _ _ => None end
  | None => None
  end.

End json.

(* ------------------------------------------------------------------------- *)
(** ** pathlib and the file system *)

Module pathlib.

(** A parsed [PurePosixPath]: the root ([""], ["/"] or ["//"]) and the
    components after it. *)
Record Path : Type := mkPath { root : string; tail : list string }.

(** [s.split("/")] *)
Fixpoint split (s : string) : list string :=
  match s with
  | "" => [""]
  | String c r =>
      if (c =? "/")%char then "" :: split r
      else match split r with
           | x :: xs => String c x :: xs
           | [] => [String c ""]
           end
  end.

(** ["/".join(l)] *)
Fixpoint join (l : list string) : string :=
  match l with
  | [] => ""
  | [x] => x
  | x :: xs => x ++ String "/" (join xs)
  end.

(** [posixpath.splitroot]: exactly two leading slashes are kept as a root of
    their own, any other number of them is the root ["/"]. *)
Definition splitroot (s : string) : string * string :=
  match s with
  | String a r =>
      if (a =? "/")%char then
        match r with
        | String b r' =>
            if (b =? "/")%char then
              match r' with
              | String c _ => if (c =? "/")%char then ("/", r) else ("//", r')
              | "" => ("//", r')
              end
            else ("/", r)
        | "" => ("/", r)
        end
      else ("", s)
  | "" => ("", s)
  end.

Definition is_part (x : string) : bool := negb (x =? "") && negb (x =? ".").

(** [Path(s)]: empty components and ["."] components are dropped. *)
Definition parse (s : string) : Path :=
  let (r, rel) := splitroot s in mkPath r (filter is_part (split rel)).

(** [str(p)] *)
Definition str (p : Path) : string :=
  let t := root p ++ join (tail p) in
  if (t =? "") then "." else t.

(** [p.name] *)
Definition name (p : Path) : string := last (tail p) "".

(** [name.rfind(".")] *)
Fixpoint rfind (c : ascii) (s : string) : option nat :=
  match s with
  | "" => None
  | String a r =>
      match rfind c r with
      | Some i => Some (S i)
      | None => if (a =? c)%char then Some 0 else None
      end
  end.

(** [p.suffix] (CPython 3.8 to 3.13): the text from the last dot of the name
    on, when that dot is neither the first nor the last character of the
    name. *)
Definition suffix (p : Path) : string :=
  let n := name p in
  match rfind "." n with
  | Some i =>
      if Nat.ltb 0 i && Nat.ltb i (String.length n - 1)
      then substring i (String.length n - i) n
      else ""
  | None => ""
  end.

(** [p.parent] *)
Definition parent (p : Path) : Path :=
  match tail p with
  | [] => p
  | _ :: _ => mkPath (root p) (removelast (tail p))
  end.

(** [p / s] *)
Definition truediv (p : Path) (s : string) : Path :=
  let q := parse s in
  if (root q =? "") then mkPath (root p) (tail p ++ tail q) else q.

Definition eqb (p q : Path) : bool :=
  (root p =? root q) && (if list_eq_dec string_dec (tail p) (tail q) then true else false).

(** What a path names in the file system, if anything. *)
Inductive kind : Type := File | Dir.
Definition filesystem : Type := Path -> option kind.

Definition exists_ (fs : filesystem) (p : Path) : bool :=
  match fs p with Some _ => true | None => false end.

Definition is_dir (fs : filesystem) (p : Path) : bool :=
  match fs p with Some Dir => true | _ => false end.

Definition create (fs : filesystem) (p : Path) (k : kind) : filesystem :=
  fun q => if eqb q p then Some k else fs q.

(** [os.mkdir(p)]: [inl] carries the new file system, [inr true] stands for
    [FileNotFoundError] (the parent is missing) and [inr false] for any other
    [OSError] (the path exists, or its parent is a file). *)
Definition os_mkdir (fs : filesystem) (p : Path) : filesystem + bool :=
  match fs p with
  | Some _ => inr false
  | None =>
      match tail p with
      | [] => inr true
      | _ :: _ =>
          match fs (parent p) with
          | Some Dir => inl (create fs p Dir)
          | Some File => inr false
          | None => inr true
          end
      end
  end.

(** [p.mkdir(parents=True, exist_ok=True)], by recursion on the components
    of [p] from the last one: [rtail] is [tail p] reversed.  On
    [FileNotFoundError] the parent is made first and [os.mkdir(p)] is tried
    once more; on another [OSError] the call returns if [p] is a directory. *)
Fixpoint mkdir_rev (fs : filesystem) (r : string) (rtail : list string)
  : option filesystem :=
  let p := mkPath r (List.rev rtail) in
  match os_mkdir fs p with
  | inl fs' => Some fs'
  | inr true =>
      match rtail with
      | [] => None
      | _ :: up =>
          match mkdir_rev fs r up with
          | Some fs1 =>
              match os_mkdir fs1 p with
              | inl fs2 => Some fs2
              | inr true => None
              | inr false => if is_dir fs1 p then Some fs1 else None
              end
          | None => None
          end
      end
  | inr false => if is_dir fs p then Some fs else None
  end.

Definition mkdir (fs : filesystem) (p : Path) : option filesystem :=
  mkdir_rev fs (root p) (List.rev (tail p)).

End pathlib.

(* ------------------------------------------------------------------------- *)
(** ** The DuckDB connection *)

Module duckdb.

(** A row [(k, v)] of the store's table. *)
Definition row : Type := (string * string)%type.

(** The statements the class executes.  All of them name the table
    [self._table]; the connection below is modelled by that table alone. *)
Inductive statement : Type :=
| CREATE_TABLE_IF_NOT_EXISTS
| BEGIN_TRANSACTION
| DELETE_WHERE_k (k : string)
| INSERT_VALUES (k v : string)
| COMMIT
| ROLLBACK
| SELECT_v_WHERE_k (k : string)
| SELECT_k_ORDER_BY_k.

(** [database] is the location the connection was opened on, [committed] are
    the rows of the table, [pending] the working copy of the open transaction
    if there is one, [executed] the statements sent to the engine so far,
    latest first. *)
Record connection : Type := mkConn {
  database : string;
  committed : list row;
  pending : option (list row);
  executed : list statement
}.

(** The rows the connection sees. *)
Definition view (c : connection) : list row :=
  match pending c with
  | Some w => w
  | None => committed c
  end.

(** A change of the table: inside a transaction it goes to the working copy,
    outside it is committed at once. *)
Definition write (c : connection) (rows : list row) : connection :=
  match pending c with
  | Some _ => mkConn (database c) (committed c) (Some rows) (executed c)
  | None => mkConn (database c) rows None (executed c)
  end.

Definition has_key (k : string) (rows : list row) : bool :=
  existsb (fun r => fst r =? k) rows.

(** [ORDER BY k]: insertion sort under the byte-wise order of strings. *)
Fixpoint insert (x : string) (l : list string) : list string :=
  match l with
  | [] => [x]
  | y :: l' => if String.leb x y then x :: l else y :: insert x l'
  end.

Fixpoint sort (l : list string) : list string :=
  match l with
  | [] => []
  | x :: l' => insert x (sort l')
  end.

Definition log (st : statement) (c : connection) : connection :=
  mkConn (database c) (committed c) (pending c) (st :: executed c).

(** What a statement does when the engine carries it out.  The primary key
    on [k] makes [INSERT] fail when the key is there already. *)
Definition run (st : statement) (c : connection) : result (list string) * connection :=
  match st with
  | CREATE_TABLE_IF_NOT_EXISTS => (Ok [], c)
  | BEGIN_TRANSACTION =>
      match pending c with
      | Some _ => (Raise DuckDBError, c)
      | None => (Ok [], mkConn (database c) (committed c) (Some (committed c)) (executed c))
      end
  | DELETE_WHERE_k k =>
      (Ok [], write c (filter (fun r => negb (fst r =? k)) (view c)))
  | INSERT_VALUES k v =>
      if has_key k (view c) then (Raise DuckDBError, c)
      else (Ok [], write c (view c ++ [(k, v)]))
  | COMMIT =>
      match pending c with
      | Some w => (Ok [], mkConn (database c) w None (executed c))
      | None => (Raise DuckDBError, c)
      end
  | ROLLBACK =>
      match pending c with
      | Some _ => (Ok [], mkConn (database c) (committed c) None (executed c))
      | None => (Raise DuckDBError, c)
      end
  | SELECT_v_WHERE_k k =>
      (Ok (map snd (filter (fun r => fst r =? k) (view c))), c)
  | SELECT_k_ORDER_BY_k =>
      (Ok (sort (map fst (view c))), c)
  end.

(** [conn.execute(st)].  [fault] says that the engine fails on this statement
    for a reason of its own (I/O error, closed connection, ...); the statement
    then has no effect. *)
Definition execute (fault : bool) (st : statement) (c : connection)
  : result (list string) * connection :=
  if fault then (Raise DuckDBError, log st c) else run st (log st c).

(** [duckdb.connect(database, read_only=False)]; [stored] are the rows the
    table holds at that location when the connection is opened. *)
Definition connect (fault : bool) (database : string) (stored : list row)
  : result connection :=
  if fault then Raise DuckDBError else Ok (mkConn database stored None []).

End duckdb.

(* ------------------------------------------------------------------------- *)
(** ** The class DuckNo *)

Module DuckNo.

Import pathlib duckdb.

(** What the constructor finds around it: the file system, the current
    working directory ([os.getcwd()]) and, per database location and table
    name, the rows stored there ([[]] where there is no such table yet). *)
Record world : Type := mkWorld {
  fs : filesystem;
  cwd : string;
  disk : string -> string -> list row
}.

(** The attributes of an instance. *)
Record t : Type := mk {
  _table : string;
  _db_file : option Path;
  _conn : connection
}.

Definition with_conn (self : t) (c : connection) : t :=
  mk (_table self) (_db_file self) c.

(** Statements run one after the other on the connection; an exception ends
    the sequence. *)
Definition M (A : Type) : Type := connection -> result A * connection.

Definition ret {A} (a : A) : M A := fun c => (Ok a, c).
Definition raise {A} (e : exn) : M A := fun c => (Raise e, c).
Definition bind {A B} (m : M A) (f : A -> M B) : M B :=
  fun c => match m c with
           | (Ok a, c') => f a c'
           | (Raise e, c') => (Raise e, c')
           end.
Definition try_except {A} (m : M A) (handler : exn -> M A) : M A :=
  fun c => match m c with
           | (Ok a, c') => (Ok a, c')
           | (Raise e, c') => handler e c'
           end.

Notation "m1 ;; m2" := (bind m1 (fun _ => m2)) (at level 61, right associativity).

(** [_validate_key(key)]; on success the key is handed back as the string
    the callers go on to use it as. *)
Definition _validate_key (key : value) : result string :=
  match key with
  | PyStr k => if (k =? "") then Raise (ValueError "key must be a non-empty string") else Ok k
  | _ => Raise (ValueError "key must be a non-empty string")
  end.

Definition _ensure_schema (fault : bool) : M (list string) :=
  execute fault CREATE_TABLE_IF_NOT_EXISTS.

(** [if not p.parent.exists(): p.parent.mkdir(parents=True, exist_ok=True)] *)
Definition make_parent (f : filesystem) (p : Path) : option filesystem :=
  if negb (exists_ f (parent p)) then mkdir f (parent p) else Some f.

(** Where the database file goes (lines 61-84), together with the
    directories made on the way; [None] when [mkdir] raises. *)
Definition resolve (w : world) (db_path : option string) : option (Path * filesystem) :=
  match db_path with
  | None => Some (truediv (parse (cwd w)) "duckno.db", fs w)
  | Some s =>
      let p := parse s in
      if (suffix p =? "") then
        if exists_ (fs w) p && is_dir (fs w) p then
          match mkdir (fs w) p with
          | Some f => Some (truediv p "duckno.db", f)
          | None => None
          end
        else
          match make_parent (fs w) p with
          | Some f =>
              Some (if (suffix p =? ".db") || (suffix p =? ".duckdb")
                    then p else parse (str p ++ ".db"), f)
          | None => None
          end
      else
        match make_parent (fs w) p with
        | Some f => Some (p, f)
        | None => None
        end
  end.

(** [DuckNo(db_path, memory=..., table_name=...)].  [fails 0] and [fails 1]
    say whether the engine fails on [connect] and on the [CREATE TABLE].
    A successful [connect] on a file leaves that file in the file system. *)
Definition __init__ (fails : nat -> bool) (w : world)
    (db_path : option string) (memory : bool) (table_name : string)
  : result t * world :=
  if memory || match db_path with Some s => s =? ":memory:" | None => false end then
    match connect (fails 0) ":memory:" [] with
    | Raise e => (Raise e, w)
    | Ok c =>
        match _ensure_schema (fails 1) c with
        | (Ok _, c') => (Ok (mk table_name None c'), w)
        | (Raise e, _) => (Raise e, w)
        end
    end
  else
    match resolve w db_path with
    | None => (Raise OSError, w)
    | Some (db_file, f) =>
        match connect (fails 0) (str db_file) (disk w (str db_file) table_name) with
        | Raise e => (Raise e, mkWorld f (cwd w) (disk w))
        | Ok c =>
            let w2 := mkWorld (if exists_ f db_file then f else create f db_file File)
                              (cwd w) (disk w) in
            match _ensure_schema (fails 1) c with
            | (Ok _, c') => (Ok (mk table_name (Some db_file) c'), w2)
            | (Raise e, _) => (Raise e, w2)
            end
        end
  end.

(** [DuckNo.in_memory(table_name)] *)
Definition in_memory (fails : nat -> bool) (w : world) (table_name : string)
  : result t * world :=
  __init__ fails w (Some ":memory:") true table_name.

(** [database_path] *)
Definition database_path (self : t) : option string :=
  match _db_file self with
  | Some f => Some (str f)
  | None => None
  end.

(** [set(key, value)].  [fails 0] to [fails 3] say whether the engine fails
    on [BEGIN], [DELETE], [INSERT] and [COMMIT].  The engine is taken to
    abandon an open transaction whenever it is asked to: [ROLLBACK] fails
    only when no transaction is open, as after a failed [BEGIN]. *)
Definition set (fails : nat -> bool) (self : t) (key value : value)
  : result unit * t :=
  match _validate_key key with
  | Raise e => (Raise e, self)
  | Ok k =>
      match json.dumps value with
      | None =>
          (Raise (TypeError
             "Value must be JSON-serializable. Consider converting to basic types."),
           self)
      | Some payload =>
          let (r, c) :=
            try_except
              (execute (fails 0) BEGIN_TRANSACTION ;;
               execute (fails 1) (DELETE_WHERE_k k) ;;
               execute (fails 2) (INSERT_VALUES k payload) ;;
               execute (fails 3) COMMIT ;;
               ret tt)
              (fun e =>
                 try_except (execute false ROLLBACK ;; ret tt) (fun _ => ret tt) ;;
                 raise e)
              (_conn self) in
          (r, with_conn self c)
      end
  end.

(** [get(key, default)]; [fails 0] says whether the engine fails on the
    [SELECT]. *)
Definition get (fails : nat -> bool) (self : t) (key default : value)
  : result value * t :=
  match _validate_key key with
  | Raise e => (Raise e, self)
  | Ok k =>
      match execute (fails 0) (SELECT_v_WHERE_k k) (_conn self) with
      | (Raise e, c) => (Raise e, with_conn self c)
      | (Ok [], c) => (Ok default, with_conn self c)
      | (Ok (v :: _), c) =>
          match json.loads v with
          | Some x => (Ok x, with_conn self c)
          | None => (Raise JSONDecodeError, with_conn self c)
          end
      end
  end.

(** [keys()] *)
Definition keys (fails : nat -> bool) (self : t) : result (list string) * t :=
  match execute (fails 0) SELECT_k_ORDER_BY_k (_conn self) with
  | (Raise e, c) => (Raise e, with_conn self c)
  | (Ok rows, c) => (Ok rows, with_conn self c)
  end.

End DuckNo.

(* ------------------------------------------------------------------------- *)
(** ** Notions used in the statements *)

(** *** Values and their JSON text *)

Definition key_text (k : value) : string :=
  match json.key_str k with Some s => s | None => "" end.

(** What [json.loads] makes of the text [json.dumps] wrote for a value:
    tuples come back as lists and dictionary keys as strings. *)
Fixpoint decoded (v : value) : value :=
  match v with
  | PyList l | PyTuple l => PyList (map decoded l)
  | PyDict items =>
      PyDict (json.dict (map (fun kv => (key_text (fst kv), decoded (snd kv))) items))
  | _ => v
  end.

Definition is_str (v : value) : bool :=
  match v with PyStr _ => true | _ => false end.

Fixpoint distinct (l : list string) : bool :=
  match l with
  | [] => true
  | x :: r => negb (existsb (String.eqb x) r) && distinct r
  end.

(** The values of JSON's own data model: [None], booleans, ints, floats,
    strings, lists of such values, and dictionaries from distinct strings to
    such values. *)
Fixpoint plain (v : value) : bool :=
  match v with
  | PyNone | PyBool _ | PyInt _ | PyFloat _ | PyStr _ => true
  | PyList l => forallb plain l
  | PyDict items =>
      forallb (fun kv => is_str (fst kv) && plain (snd kv)) items
      && distinct (map (fun kv => key_text (fst kv)) items)
  | PyTuple _ | PyBytes _ => false
  end.

(** Nesting measure of a value: the calls of the decoder it takes. *)
Fixpoint need (v : value) : nat :=
  match v with
  | PyList l | PyTuple l => S (fold_right (fun x n => S (need x + n)) 0 l)
  | PyDict items => S (fold_right (fun kv n => S (need (snd kv) + n)) 0 items)
  | _ => 1
  end.

(** Text that ends a run of digits. *)
Definition stops (rest : string) : Prop :=
  match rest with
  | "" => True
  | String c _ => json.is_digit c = false
  end.

(** Text that can follow a value: nothing, or a character that is no digit
    and opens no fraction or exponent. *)
Definition closes (rest : string) : Prop :=
  match rest with
  | "" => True
  | String c _ => json.is_digit c = false /\ json.float_follows rest = false
  end.

(** The first character of an encoded value is no white space and closes
    neither an array nor an object. *)
Definition opens (txt : string) : Prop :=
  exists c r, txt = String c r /\ json.is_ws c = false
              /\ (c =? "]")%char = false /\ (c =? "}")%char = false.

(** One value: the encoder's text, followed by anything that ends a value,
    is read back as the decoded image. *)
Definition scans (v : value) : Prop :=
  forall txt, json.dumps v = Some txt ->
  forall fuel rest, closes rest -> need v <= fuel ->
    json.scan_once fuel (txt ++ rest) = Some (decoded v, rest).

(** *** Order of keys *)

(** Lexicographic order on strings, character codes compared as numbers:
    a string is below another when it is a prefix of it or is smaller at the
    first position where they differ. *)
Inductive lex_le : string -> string -> Prop :=
| lex_empty (t : string) : lex_le "" t
| lex_less (a b : ascii) (s t : string) :
    (ord a < ord b)%N -> lex_le (String a s) (String b t)
| lex_same (a : ascii) (s t : string) :
    lex_le s t -> lex_le (String a s) (String a t).

(** *** Paths *)

(** The component has no separator in it. *)
Fixpoint no_slash (s : string) : bool :=
  match s with
  | "" => true
  | String c r => negb (c =? "/")%char && no_slash r
  end.

(** A path as [pathlib.parse] builds it. *)
Definition well_formed (p : pathlib.Path) : Prop :=
  (pathlib.root p = "" \/ pathlib.root p = "/" \/ pathlib.root p = "//")
  /\ Forall (fun x => pathlib.is_part x = true /\ no_slash x = true) (pathlib.tail p).

(** [s.endswith(suf)] *)
Definition endswith (s suf : string) : bool :=
  substring (String.length s - String.length suf) (String.length suf) s =? suf.

(** *** Stores and histories of calls *)

(** The rows after the key has been deleted and inserted again. *)
Definition upsert (k p : string) (rows : list duckdb.row) : list duckdb.row :=
  (filter (fun r => negb (fst r =? k)) rows ++ [(k, p)])%list.

(** No transaction is open on the store's connection. *)
Definition idle (s : DuckNo.t) : Prop := duckdb.pending (DuckNo._conn s) = None.

(** The records the store's connection sees under a key. *)
Definition records (k : string) (s : DuckNo.t) : list duckdb.row :=
  filter (fun r => fst r =? k) (duckdb.view (DuckNo._conn s)).

(** Two instances that differ at most in the log of executed statements. *)
Definition same_store (s s' : DuckNo.t) : Prop :=
  DuckNo._table s' = DuckNo._table s /\ DuckNo._db_file s' = DuckNo._db_file s /\
  duckdb.database (DuckNo._conn s') = duckdb.database (DuckNo._conn s) /\
  duckdb.committed (DuckNo._conn s') = duckdb.committed (DuckNo._conn s) /\
  duckdb.pending (DuckNo._conn s') = duckdb.pending (DuckNo._conn s).

(** The state of a store between two calls: no transaction is open and the
    primary key holds. *)
Definition inv (s : DuckNo.t) : Prop :=
  idle s /\ NoDup (map fst (duckdb.committed (DuckNo._conn s))).

(** A store whose table has just been created: no rows, no transaction. *)
Definition fresh (s : DuckNo.t) : Prop :=
  duckdb.committed (DuckNo._conn s) = [] /\ duckdb.pending (DuckNo._conn s) = None.

(** A call of the public API, with the engine faults that occur during it. *)
Inductive call : Type :=
| CallSet (fails : nat -> bool) (key v : value)
| CallGet (fails : nat -> bool) (key default : value)
| CallKeys (fails : nat -> bool).

Definition step (s : DuckNo.t) (c : call) : DuckNo.t :=
  match c with
  | CallSet f key v => snd (DuckNo.set f s key v)
  | CallGet f key d => snd (DuckNo.get f s key d)
  | CallKeys f => snd (DuckNo.keys f s)
  end.

Definition run_calls (s : DuckNo.t) (calls : list call) : DuckNo.t :=
  fold_left step calls s.

(** The keys that calls of [set] have stored in the course of [calls], that
    is, the keys of the calls that returned without raising. *)
Fixpoint keys_set (s : DuckNo.t) (calls : list call) : list string :=
  match calls with
  | [] => []
  | c :: cs =>
      match c with
      | CallSet f (PyStr k) v =>
          match fst (DuckNo.set f s (PyStr k) v) with
          | Ok _ => k :: keys_set (step s c) cs
          | Raise _ => keys_set (step s c) cs
          end
      | _ => keys_set (step s c) cs
      end
  end.

(** The tables found on disk respect their primary key. *)
Definition disk_ok (w : DuckNo.world) : Prop :=
  forall d tb, NoDup (map fst (DuckNo.disk w d tb)).

(** The states a store goes through: the constructor returns it, and then
    the public methods are called on it. *)
Inductive reachable : DuckNo.t -> Prop :=
| reach_init fails w db_path memory table_name s w' :
    disk_ok w ->
    DuckNo.__init__ fails w db_path memory table_name = (Ok s, w') ->
    reachable s
| reach_step s c : reachable s -> reachable (step s c).

Definition is_sentinel (db_path : option string) : bool :=
  match db_path with Some s => s =? ":memory:" | None => false end.

(** *** Concrete stores and worlds for the examples *)

Definition no_faults : nat -> bool := fun _ => false.

(** An in-memory store with an empty table, as the constructor returns it. *)
Definition empty_store : DuckNo.t :=
  DuckNo.mk "duckno_kv" None
    (duckdb.mkConn ":memory:" [] None [duckdb.CREATE_TABLE_IF_NOT_EXISTS]).

(** A world in which only the current directory exists. *)
Definition bare_world : DuckNo.world :=
  DuckNo.mkWorld
    (fun p => if pathlib.eqb p (pathlib.parse ".") then Some pathlib.Dir else None)
    "/home/user" (fun _ _ => []).

(** The store of the examples after [set("a", 1)]. *)
Definition store_a : DuckNo.t :=
  snd (DuckNo.set no_faults empty_store (PyStr "a") (PyInt 1)).

(** The floats [0.1] and [1.5]. *)
Definition tenth : float.t :=
  float.mk (float.Finite false 7205759403792794 (-56)) eq_refl.
Definition one_and_a_half : float.t :=
  float.mk (float.Finite false 6755399441055744 (-52)) eq_refl.

(** The value [{"name": "Ada", "score": 0.1, "scale": [1.5, nan]}]. *)
Definition ada_scores : value :=
  PyDict [(PyStr "name", PyStr "Ada"); (PyStr "score", PyFloat tenth);
          (PyStr "scale", PyList [PyFloat one_and_a_half; PyFloat float.nan])].

(** The value [{"name": "Ada", "roles": ["admin"]}] of example.py. *)
Definition ada : value :=
  PyDict [(PyStr "name", PyStr "Ada"); (PyStr "roles", PyList [PyStr "admin"])].

(** A world with a database file [kv.db] whose table holds one record. *)
Definition used_world : DuckNo.world :=
  DuckNo.mkWorld
    (fun p => if pathlib.eqb p (pathlib.parse ".") then Some pathlib.Dir
              else if pathlib.eqb p (pathlib.parse "kv.db") then Some pathlib.File
              else None)
    "/home/user"
    (fun d tb => if (d =? "kv.db") && (tb =? "duckno_kv") then [("a", "1")] else []).

(** The store the constructor returns for [kv.db] in that world. *)
Definition reopened_store : DuckNo.t :=
  DuckNo.mk "duckno_kv" (Some (pathlib.parse "kv.db"))
    (duckdb.mkConn "kv.db" [("a", "1")] None [duckdb.CREATE_TABLE_IF_NOT_EXISTS]).

(** *** Induction on values, through the lists inside them *)

Section value_induction.
Variable P : value -> Prop.
Hypothesis HNone : P PyNone.
Hypothesis HBool : forall b, P (PyBool b).
Hypothesis HInt : forall n, P (PyInt n).
Hypothesis HFloat : forall x, P (PyFloat x).
Hypothesis HStr : forall s, P (PyStr s).
Hypothesis HList : forall l, Forall P l -> P (PyList l).
Hypothesis HTuple : forall l, Forall P l -> P (PyTuple l).
Hypothesis HDict : forall items, Forall (fun kv => P (snd kv)) items -> P (PyDict items).
Hypothesis HBytes : forall b, P (PyBytes b).

Fixpoint value_nested_ind (v : value) : P v :=
  match v with
  | PyNone => HNone
  | PyBool b => HBool b
  | PyInt n => HInt n
  | PyFloat x => HFloat x
  | PyStr s => HStr s
  | PyList l =>
      HList l ((fix go (l : list value) : Forall P l :=
                  match l with
                  | [] => Forall_nil P
                  | x :: r => Forall_cons x (value_nested_ind x) (go r)
                  end) l)
  | PyTuple l =>
      HTuple l ((fix go (l : list value) : Forall P l :=
                   match l with
                   | [] => Forall_nil P
                   | x :: r => Forall_cons x (value_nested_ind x) (go r)
                   end) l)
  | PyDict items =>
      HDict items
        ((fix go (l : list (value * value)) : Forall (fun kv => P (snd kv)) l :=
            match l with
            | [] => Forall_nil _
            | kv :: r => Forall_cons kv (value_nested_ind (snd kv)) (go r)
            end) items)
  | PyBytes b => HBytes b
  end.
End value_induction.

(* ------------------------------------------------------------------------- *)
(** ** Further notions: the statements of [set], what the encoder accepts *)

(** The statements of the transaction of [set], latest first, from which a
    failed call went on to [ROLLBACK]. *)
Definition transaction_prefixes (k p : string) : list (list duckdb.statement) :=
  [ [duckdb.BEGIN_TRANSACTION];
    [duckdb.DELETE_WHERE_k k; duckdb.BEGIN_TRANSACTION];
    [duckdb.INSERT_VALUES k p; duckdb.DELETE_WHERE_k k; duckdb.BEGIN_TRANSACTION];
    [duckdb.COMMIT; duckdb.INSERT_VALUES k p; duckdb.DELETE_WHERE_k k; duckdb.BEGIN_TRANSACTION] ].

(** A key the encoder accepts in a dictionary. *)
Definition key_ok (k : value) : bool :=
  match k with
  | PyStr _ | PyBool _ | PyNone | PyInt _ | PyFloat _ => true
  | _ => false
  end.

(** The value holds no object the encoder refuses and no dictionary key
    other than a string, a boolean, [None], an int or a float. *)
Fixpoint serializable (v : value) : bool :=
  match v with
  | PyNone | PyBool _ | PyInt _ | PyFloat _ | PyStr _ => true
  | PyList l | PyTuple l => forallb serializable l
  | PyDict items => forallb (fun kv => key_ok (fst kv) && serializable (snd kv)) items
  | PyBytes _ => false
  end.

(** No character of the text is a control character. *)
Fixpoint printable (s : string) : bool :=
  match s with
  | "" => true
  | String c r => (32 <=? ord c)%N && printable r
  end.

(** [serializable] says what the encoder does with a value. *)
Definition agrees (v : value) : Prop :=
  match json.dumps v with
  | Some _ => serializable v = true
  | None => serializable v = false
  end.

(** The engine fails on the [INSERT] of a [set]. *)
Definition insert_fails : nat -> bool := fun n => Nat.eqb n 2.

(** The engine never fails while [main] runs. *)
Definition main_no_faults : nat -> nat -> nat -> bool := fun _ _ _ => false.


(* ------------------------------------------------------------------------- *)
(** ** Closing a store ([close], [__enter__], [__exit__], lines 91-101) *)

Module lifetime.
Import duckdb DuckNo.

(** [conn.close()] of the engine: an open transaction is abandoned. *)
Definition conn_close (fault : bool) (c : connection) : result unit * connection :=
  if fault then (Raise DuckDBError, c)
  else (Ok tt, mkConn (database c) (committed c) None (executed c)).

(** [close()]: whatever [self._conn.close()] raises is dropped. *)
Definition close (fault : bool) (self : DuckNo.t) : unit * DuckNo.t :=
  match conn_close fault (_conn self) with
  | (Ok _, c) => (tt, with_conn self c)
  | (Raise _, c) => (tt, with_conn self c)
  end.

(** [__enter__] *)
Definition __enter__ (self : DuckNo.t) : DuckNo.t := self.

(** [__exit__(exc_type, exc, tb)]: closes and returns [None], so that an
    exception of the body is raised again after it. *)
Definition __exit__ (fault : bool) (self : DuckNo.t) : unit * DuckNo.t :=
  close fault self.

(** [with store as s: body]. *)
Definition with_ {A} (fault : bool) (store : DuckNo.t)
    (body : DuckNo.t -> result A * DuckNo.t) : result A * DuckNo.t :=
  let (r, s) := body (__enter__ store) in
  (r, snd (__exit__ fault s)).

End lifetime.


(* ------------------------------------------------------------------------- *)
(** ** The example program (src/example.py) *)

Module example.
Import pathlib duckdb DuckNo lifetime.

(** What [print] is given. *)
Inductive printed : Type :=
| Shown (label : string) (v : value)
| ShownKeys (l : list string)
| ShownPath (p : option string).

(** The three blocks of [main] do the same with a store:
    [s.set(k, v)], [print(k, "=>", s.get(k))], [print("keys =>", s.keys())],
    [print("database_path =>", s.database_path)]. *)
Definition use (fails : nat -> nat -> bool) (s : DuckNo.t) (k : string) (v : value)
  : result (list printed) * DuckNo.t :=
  match set (fails 0) s (PyStr k) v with
  | (Raise e, s1) => (Raise e, s1)
  | (Ok _, s1) =>
      match get (fails 1) s1 (PyStr k) PyNone with
      | (Raise e, s2) => (Raise e, s2)
      | (Ok x, s2) =>
          match keys (fails 2) s2 with
          | (Raise e, s3) => (Raise e, s3)
          | (Ok l, s3) =>
              (Ok [Shown k x; ShownKeys l; ShownPath (database_path s3)], s3)
          end
      end
  end.

(** [main()].  [fails i] are the engine faults of the [i]-th store:
    [fails i 0] for its construction, [fails i 1], [fails i 2], [fails i 3]
    for [set], [get] and [keys], [fails i 4 0] for [close]. *)
Definition main (fails : nat -> nat -> nat -> bool) (w : world)
  : result (list printed) * world :=
  match __init__ (fails 0 0) w None false "duckno_kv" with
  | (Raise e, w1) => (Raise e, w1)
  | (Ok kv, w1) =>
      match use (fun n => fails 0 (S n)) kv "user:1" ada with
      | (Raise e, _) => (Raise e, w1)
      | (Ok out1, kv') =>
          let _ := close (fails 0 4 0) kv' in
          match __init__ (fails 1 0) w1 None true "duckno_kv" with
          | (Raise e, w2) => (Raise e, w2)
          | (Ok mem, w2) =>
              match with_ (fails 1 4 0) mem
                      (fun mem => use (fun n => fails 1 (S n)) mem "tmp" (PyInt 123)) with
              | (Raise e, _) => (Raise e, w2)
              | (Ok out2, _) =>
                  match __init__ (fails 2 0) w2 (Some "data/mydata.duckdb") false
                          "duckno_kv" with
                  | (Raise e, w3) => (Raise e, w3)
                  | (Ok kv2, w3) =>
                      match use (fun n => fails 2 (S n)) kv2 "a"
                              (PyList [PyInt 1; PyInt 2; PyInt 3]) with
                      | (Raise e, _) => (Raise e, w3)
                      | (Ok out3, kv2') =>
                          let _ := close (fails 2 4 0) kv2' in
                          (Ok (out1 ++ out2 ++ out3)%list, w3)
                      end
                  end
              end
          end
      end
  end.

End example.


(* ------------------------------------------------------------------------- *)
(** ** Facts about strings *)


Lemma append_assoc (a b c : string) : (a ++ b) ++ c = a ++ (b ++ c).
Proof. induction a as [|x a IH]; simpl; [reflexivity | now rewrite IH]. Qed.

Lemma append_nil_r (a : string) : a ++ "" = a.
Proof. induction a as [|x a IH]; simpl; [reflexivity | now rewrite IH]. Qed.

Lemma length_append (a b : string) :
  String.length (a ++ b) = String.length a + String.length b.
Proof. induction a as [|x a IH]; simpl; [reflexivity | now rewrite IH]. Qed.


(* ------------------------------------------------------------------------- *)
(** ** Doubles and their decimal text *)

Module float_facts.
Import float.
Local Open Scope Z_scope.

Lemma div_eucl_eq (a b : Z) : Z.div_eucl a b = (a / b, a mod b).
Proof. unfold Z.div, Z.modulo. now destruct (Z.div_eucl a b). Qed.

Lemma round_scale (a b c : Z) : 0 < b -> 0 < c ->
  round_half_even (a * c) (b * c) = round_half_even a b.
Proof.
  intros Hb Hc. unfold round_half_even. rewrite !div_eucl_eq.
  rewrite Z.div_mul_cancel_r by lia.
  rewrite Z.mul_mod_distr_r by lia.
  assert (C : (2 * (a mod b * c) ?= b * c) = (2 * (a mod b) ?= b)).
  { destruct (Z.compare_spec (2 * (a mod b)) b) as [H|H|H].
    - apply Z.compare_eq_iff. nia.
    - apply Z.compare_lt_iff. nia.
    - apply Z.compare_gt_iff. nia. }
  now rewrite C.
Qed.

(** [of_ratio] with the shifts written as products. *)
Lemma of_ratio_eq (neg : bool) (p q : Z) :
  of_ratio neg p q =
  let x := p * 2 ^ 1074 in
  let sh := Z.max 0 (Z.log2 (x / q) - 52) in
  let m := round_half_even x (q * 2 ^ sh) in
  let m' := if m =? 2 ^ 53 then 2 ^ 52 else m in
  let sh' := if m =? 2 ^ 53 then sh + 1 else sh in
  if m' =? 0 then Zero neg
  else if 2045 <? sh' then Inf neg
  else Finite neg (Z.to_pos m') (sh' - 1074).
Proof.
  unfold of_ratio. rewrite !Z.shiftl_mul_pow2 by lia. reflexivity.
Qed.

Lemma of_ratio_scale (neg : bool) (p q c : Z) : 0 < q -> 0 < c ->
  of_ratio neg (p * c) (q * c) = of_ratio neg p q.
Proof.
  intros Hq Hc. rewrite !of_ratio_eq. cbv zeta.
  replace (p * c * 2 ^ 1074) with (p * 2 ^ 1074 * c) by ring.
  rewrite Z.div_mul_cancel_r by lia.
  set (sh := Z.max 0 (Z.log2 (p * 2 ^ 1074 / q) - 52)).
  replace (q * c * 2 ^ sh) with (q * 2 ^ sh * c) by ring.
  rewrite round_scale; [reflexivity | | lia].
  apply Z.mul_pos_pos; [lia|]. apply Z.pow_pos_nonneg; lia.
Qed.

(** The double depends on the quotient only. *)
Lemma of_ratio_ext (neg : bool) (p q p' q' : Z) :
  0 < q -> 0 < q' -> p * q' = p' * q -> of_ratio neg p q = of_ratio neg p' q'.
Proof.
  intros Hq Hq' E.
  rewrite <- (of_ratio_scale neg p q q') by lia.
  rewrite <- (of_ratio_scale neg p' q' q) by lia.
  rewrite E. f_equal. ring.
Qed.

Lemma is_binary64_finite (neg : bool) (m : positive) (e : Z) :
  is_binary64 (Finite neg m e) = true ->
  0 <= e + 1074 /\ e <= 971
  /\ ((2 ^ 52 <= Zpos m < 2 ^ 53) \/ (Zpos m < 2 ^ 52 /\ e = -1074)).
Proof.
  cbn [is_binary64]. intros Hv. apply orb_true_iff in Hv as [Hv|Hv].
  - repeat (apply andb_true_iff in Hv as [Hv ?]). lia.
  - apply andb_true_iff in Hv as [? ?]. lia.
Qed.

(** A quotient that is a double is its own nearest double. *)
Lemma of_ratio_exact (neg : bool) (m : positive) (e p q : Z) :
  is_binary64 (Finite neg m e) = true -> 0 < q ->
  p * 2 ^ 1074 = Zpos m * 2 ^ (e + 1074) * q ->
  of_ratio neg p q = Finite neg m e.
Proof.
  intros Hv Hq E. rewrite of_ratio_eq. cbv zeta. rewrite E.
  apply is_binary64_finite in Hv as (He0 & He1 & Hm).
  set (s := e + 1074) in *.
  assert (Hp : 0 < 2 ^ s) by (apply Z.pow_pos_nonneg; lia).
  rewrite Z.div_mul by lia.
  assert (Hlog : Z.max 0 (Z.log2 (Zpos m * 2 ^ s) - 52) = s).
  { rewrite Z.log2_mul_pow2 by lia.
    destruct Hm as [[H1 H2] | [H1 H2]].
    - assert (Z.log2 (Zpos m) = 52); [|lia].
      apply Z.log2_unique; [lia|]. change (2 ^ Z.succ 52) with (2 ^ 53). lia.
    - assert (Z.log2 (Zpos m) < 52) by (apply Z.log2_lt_pow2; lia).
      unfold s. lia. }
  rewrite Hlog.
  assert (Hr : round_half_even (Zpos m * 2 ^ s * q) (q * 2 ^ s) = Zpos m).
  { unfold round_half_even. rewrite div_eucl_eq.
    replace (Zpos m * 2 ^ s * q) with (Zpos m * (q * 2 ^ s)) by ring.
    rewrite Z.div_mul by lia. rewrite Z.mod_mul by lia.
    assert (0 < q * 2 ^ s) by lia.
    destruct (2 * 0 ?= q * 2 ^ s) eqn:C; try reflexivity.
    - apply Z.compare_eq in C. lia.
    - apply Z.compare_gt_iff in C. lia. }
  rewrite Hr.
  assert (Hm53 : (Zpos m =? 2 ^ 53) = false) by (apply Z.eqb_neq; lia).
  rewrite Hm53. replace (Zpos m =? 0) with false by (symmetry; apply Z.eqb_neq; lia).
  replace (2045 <? s) with false by (symmetry; apply Z.ltb_ge; unfold s; lia).
  f_equal. unfold s. lia.
Qed.

Lemma pow10_pos (j : Z) : 0 <= j -> 0 < 10 ^ j.
Proof. intros H. apply Z.pow_pos_nonneg; lia. Qed.

(** Digits can be moved into the exponent. *)
Lemma of_decimal_shift (neg : bool) (c k j : Z) : 0 <= j ->
  of_decimal neg (c * 10 ^ j) k = of_decimal neg c (k + j).
Proof.
  intros Hj. unfold of_decimal.
  pose proof (pow10_pos j Hj) as Pj.
  destruct (Z.leb_spec 0 k) as [Hk|Hk]; destruct (Z.leb_spec 0 (k + j)) as [Hkj|Hkj];
    try lia.
  - f_equal. rewrite Z.pow_add_r by lia. ring.
  - pose proof (pow10_pos (- k) ltac:(lia)).
    apply of_ratio_ext; [lia | lia |].
    replace (10 ^ j) with (10 ^ (k + j) * 10 ^ (- k)); [ring|].
    rewrite <- Z.pow_add_r by lia. f_equal. lia.
  - pose proof (pow10_pos (- k) ltac:(lia)). pose proof (pow10_pos (- (k + j)) ltac:(lia)).
    apply of_ratio_ext; [lia | lia |].
    replace (10 ^ (- k)) with (10 ^ j * 10 ^ (- (k + j))); [ring|].
    rewrite <- Z.pow_add_r by lia. f_equal. lia.
Qed.

Lemma eqb_eq (x y : binary64) : eqb x y = true -> x = y.
Proof.
  destruct x as [|a|a|a m e], y as [|b|b|b m' e']; cbn; try discriminate; try reflexivity.
  - intros H. apply Bool.eqb_prop in H. now subst.
  - intros H. apply Bool.eqb_prop in H. now subst.
  - intros H. apply andb_true_iff in H as [H He]. apply andb_true_iff in H as [Hs Hm].
    apply Bool.eqb_prop in Hs. apply Pos.eqb_eq in Hm. apply Z.eqb_eq in He. now subst.
Qed.

Lemma strip_ok (neg : bool) (fuel : nat) (c k c' k' : Z) :
  0 < c -> strip fuel c k = (c', k') ->
  0 < c' /\ of_decimal neg c' k' = of_decimal neg c k.
Proof.
  revert c k. induction fuel as [|f IH]; intros c k Hc; cbn [strip].
  - intros [= <- <-]. now split.
  - destruct (Z.eqb_spec (c mod 10) 0) as [E|_]; [|intros [= <- <-]; now split].
    intros H. pose proof (Z.div_mod c 10 ltac:(lia)) as Hd.
    apply IH in H as [H1 H2]; [|lia]. split; [exact H1|].
    rewrite H2. rewrite <- (of_decimal_shift neg (c / 10) k 1) by lia.
    f_equal. lia.
Qed.

Lemma find_digits_ok (fuel : nat) (n : Z) (x : binary64) (neg : bool) (a b pt c k : Z) :
  find_digits fuel n x neg a b pt = Some (c, k) ->
  0 < c /\ of_decimal neg c k = x.
Proof.
  revert n. induction fuel as [|f IH]; intros n; cbn [find_digits]; [discriminate|].
  destruct (neighbours a b (pt - n)) as [c1 c2].
  destruct (reads_back x neg c1 (pt - n)) eqn:E1.
  - intros [= <- <-]. apply andb_true_iff in E1 as [H1 H2].
    split; [now apply Z.ltb_lt | now apply eqb_eq].
  - destruct (reads_back x neg c2 (pt - n)) eqn:E2.
    + intros [= <- <-]. apply andb_true_iff in E2 as [H1 H2].
      split; [now apply Z.ltb_lt | now apply eqb_eq].
    + apply IH.
Qed.

(** The digits [repr] writes denote a decimal whose nearest double is the
    double written. *)
Lemma shortest_ok (neg : bool) (m : positive) (e c k : Z) :
  is_binary64 (Finite neg m e) = true ->
  shortest neg m e = (c, k) ->
  0 < c /\ of_decimal neg c k = Finite neg m e.
Proof.
  intros Hv. unfold shortest.
  destruct (match find_digits 17 1 (Finite neg m e) neg _ _ _ with
            | Some ck => ck
            | None => _
            end) as [c0 k0] eqn:E0.
  assert (H0 : 0 < c0 /\ of_decimal neg c0 k0 = Finite neg m e).
  { destruct (find_digits 17 1 (Finite neg m e) neg _ _ _) as [[c1 k1]|] eqn:Es.
    - injection E0 as <- <-. now apply find_digits_ok in Es.
    - pose proof (is_binary64_finite _ _ _ Hv) as (He0 & He1 & _).
      destruct (Z.leb_spec 0 e) as [He|He]; apply pair_equal_spec in E0 as [<- <-].
      + assert (0 < 2 ^ e) by (apply Z.pow_pos_nonneg; lia).
        split; [apply Z.mul_pos_pos; lia|]. unfold of_decimal. cbn [Z.leb Z.compare].
        apply of_ratio_exact; [exact Hv | lia |].
        rewrite Z.pow_add_r by lia. change (10 ^ 0) with 1. ring.
      + assert (0 < 5 ^ (- e)) by (apply Z.pow_pos_nonneg; lia).
        split; [apply Z.mul_pos_pos; lia|]. unfold of_decimal.
        destruct (Z.leb_spec 0 e); [lia|].
        apply of_ratio_exact; [exact Hv | apply pow10_pos; lia |].
        change 10 with (2 * 5). rewrite Z.pow_mul_l.
        replace (2 ^ 1074) with (2 ^ (e + 1074) * 2 ^ (- e)); [ring|].
        rewrite <- Z.pow_add_r by lia. f_equal. lia. }
  destruct H0 as [Hc0 Hd0]. intros Hs.
  apply (strip_ok neg) in Hs as [H1 H2]; [|exact Hc0]. split; [exact H1 | congruence].
Qed.

(** *** The record of a double *)

Lemma t_eq (x y : t) : data x = data y -> x = y.
Proof.
  destruct x as [dx vx], y as [dy vy]. cbn. intros ->. f_equal.
  apply UIP_dec, Bool.bool_dec.
Qed.

Lemma make_valid (x : binary64) : is_binary64 x = true -> data (make x) = x.
Proof.
  intros H. unfold make.
  generalize (@eq_refl bool (is_binary64 x)).
  generalize (is_binary64 x) at 2 3. intros b. destruct b.
  - reflexivity.
  - intros E. congruence.
Qed.

Lemma make_data (x : t) : make (data x) = x.
Proof. apply t_eq. apply make_valid. apply valid. Qed.

End float_facts.

Module digit_facts.
Import float float_facts.
Local Open Scope Z_scope.

Lemma of_uint_acc_spec (d : uint) (acc : positive) :
  Zpos (Pos.of_uint_acc d acc)
  = Zpos acc * 10 ^ Z.of_nat (nb_digits d) + Z.of_N (Pos.of_uint d).
Proof.
  revert acc. induction d; intros acc; cbn [Pos.of_uint_acc Pos.of_uint nb_digits];
    rewrite ?Nat2Z.inj_succ, ?Z.pow_succ_r by lia;
    try (rewrite IHd; cbn [Z.of_N]; rewrite ?(IHd 1%positive), ?(IHd 2%positive),
           ?(IHd 3%positive), ?(IHd 4%positive), ?(IHd 5%positive), ?(IHd 6%positive),
           ?(IHd 7%positive), ?(IHd 8%positive), ?(IHd 9%positive); lia).
  cbn. lia.
Qed.

Lemma nb_digits_cons (d : Z) (u : uint) : nb_digits (digit_cons d u) = S (nb_digits u).
Proof.
  destruct d as [|p|p]; try reflexivity.
  do 4 (try destruct p as [p|p|]); reflexivity.
Qed.

Lemma digit_cons_value (d : Z) (u : uint) :
  0 <= d < 10 ->
  Z.of_N (N.of_uint (digit_cons d u))
  = d * 10 ^ Z.of_nat (nb_digits u) + Z.of_N (N.of_uint u).
Proof.
  intros Hd. unfold N.of_uint.
  destruct d as [|p|p]; try lia.
  - cbn. lia.
  - do 4 (try destruct p as [p|p|]); try lia;
      cbn [digit_cons Pos.of_uint Z.of_N]; rewrite of_uint_acc_spec; lia.
Qed.

Lemma digit_cons_nonnil (d : Z) (u : uint) : digit_cons d u <> Nil.
Proof.
  destruct d as [|p|p]; try discriminate.
  do 4 (try destruct p as [p|p|]); discriminate.
Qed.

Lemma nb_digits_w (w : nat) (r : Z) : nb_digits (digits_w w r) = w.
Proof.
  revert r. induction w as [|w IH]; intros r; cbn [digits_w]; [reflexivity|].
  now rewrite nb_digits_cons, IH.
Qed.

Lemma digits_w_value (w : nat) (r : Z) :
  0 <= r < 10 ^ Z.of_nat w -> Z.of_N (N.of_uint (digits_w w r)) = r.
Proof.
  revert r. induction w as [|w IH]; intros r Hr.
  - cbn in *. lia.
  - rewrite Nat2Z.inj_succ, Z.pow_succ_r in Hr by lia.
    assert (Hp : 0 < 10 ^ Z.of_nat w) by (apply Z.pow_pos_nonneg; lia).
    pose proof (Z.div_mod r (10 ^ Z.of_nat w) ltac:(lia)) as Hd.
    pose proof (Z.mod_pos_bound r (10 ^ Z.of_nat w) Hp) as Hm.
    assert (Hq : 0 <= r / 10 ^ Z.of_nat w < 10).
    { split; [apply Z.div_pos; lia|]. apply Z.div_lt_upper_bound; lia. }
    cbn [digits_w]. rewrite digit_cons_value by exact Hq.
    rewrite nb_digits_w, IH by exact Hm. lia.
Qed.

Lemma digits_w_S (w : nat) (r : Z) : digits_w (S w) r <> Nil.
Proof. cbn [digits_w]. apply digit_cons_nonnil. Qed.

Lemma ndigits_pos (c : Z) : 0 < c -> 1 <= ndigits c.
Proof.
  intros Hc. unfold ndigits. destruct c as [|p|p]; try lia. cbn [Z.to_N N.to_uint].
  pose proof (Unsigned.to_uint_nonnil p) as H.
  destruct (Pos.to_uint p); [congruence | | | | | | | | | |]; cbn [nb_digits]; lia.
Qed.

Lemma of_to_N (n : N) : N.of_uint (N.to_uint n) = n.
Proof. apply DecimalN.Unsigned.of_to. Qed.

(** What [format] writes denotes the decimal it was given. *)
Lemma of_literal_format (neg : bool) (c k : Z) :
  0 < c ->
  of_literal neg (fst (fst (format c k))) (snd (fst (format c k)))
    (exp_value (snd (format c k)))
  = make (of_decimal neg c k).
Proof.
  intros Hc. pose proof (ndigits_pos c Hc) as Hl. unfold format.
  set (len := ndigits c) in *.
  destruct ((len + k <=? -4) || (16 <? len + k)) eqn:Ee.
  - (* with an exponent *)
    assert (Hp : 0 < 10 ^ (len - 1)) by (apply Z.pow_pos_nonneg; lia).
    pose proof (Z.div_mod c (10 ^ (len - 1)) ltac:(lia)) as Hd.
    pose proof (Z.mod_pos_bound c (10 ^ (len - 1)) Hp) as Hm.
    assert (Hq : 0 <= c / 10 ^ (len - 1)) by (apply Z.div_pos; lia).
    cbn [fst snd exp_value]. unfold of_literal.
    assert (Hx : (if len + k - 1 <? 0
                  then - Z.of_N (N.of_uint
                           (if (Z.to_N (Z.abs (len + k - 1)) <? 10)%N
                            then D0 (N.to_uint (Z.to_N (Z.abs (len + k - 1))))
                            else N.to_uint (Z.to_N (Z.abs (len + k - 1)))))
                  else Z.of_N (N.of_uint
                           (if (Z.to_N (Z.abs (len + k - 1)) <? 10)%N
                            then D0 (N.to_uint (Z.to_N (Z.abs (len + k - 1))))
                            else N.to_uint (Z.to_N (Z.abs (len + k - 1))))))
                 = len + k - 1).
    { assert (Hu : forall n, N.of_uint (if (n <? 10)%N then D0 (N.to_uint n) else N.to_uint n)
                             = n).
      { intros n. destruct (n <? 10)%N; [change (N.of_uint (D0 (N.to_uint n)))
                                           with (N.of_uint (N.to_uint n))|];
          apply of_to_N. }
      rewrite Hu. rewrite Z2N.id by lia.
      destruct (Z.ltb_spec (len + k - 1) 0); lia. }
    rewrite Hx. f_equal.
    destruct (Z.eqb_spec (len - 1) 0) as [E0|E0].
    + cbn [nb_digits N.of_uint Pos.of_uint Z.of_N Z.of_nat].
      rewrite Z2N.id by lia. rewrite E0 in *. change (10 ^ 0) with 1 in *.
      rewrite Z.div_1_r. f_equal; lia.
    + rewrite nb_digits_w, Z2Nat.id by lia.
      rewrite digits_w_value by (rewrite Z2Nat.id by lia; exact Hm).
      rewrite Z2N.id by lia. f_equal; lia.
  - destruct (Z.ltb_spec k 0) as [Hk|Hk].
    + (* digits after the point *)
      assert (Hp : 0 < 10 ^ (- k)) by (apply Z.pow_pos_nonneg; lia).
      pose proof (Z.div_mod c (10 ^ (- k)) ltac:(lia)) as Hd.
      pose proof (Z.mod_pos_bound c (10 ^ (- k)) Hp) as Hm.
      assert (Hq : 0 <= c / 10 ^ (- k)) by (apply Z.div_pos; lia).
      cbn [fst snd exp_value]. unfold of_literal. f_equal.
      rewrite nb_digits_w, Z2Nat.id by lia.
      rewrite digits_w_value by (rewrite Z2Nat.id by lia; exact Hm).
      rewrite Z2N.id by lia. f_equal; lia.
    + (* an integer, written with [.0] *)
      assert (Hp : 0 < 10 ^ k) by (apply Z.pow_pos_nonneg; lia).
      cbn [fst snd exp_value]. unfold of_literal. f_equal.
      cbn [nb_digits N.of_uint Pos.of_uint Z.of_N Z.of_nat Pos.of_succ_nat].
      rewrite Z2N.id by (apply Z.mul_nonneg_nonneg; lia).
      replace (c * 10 ^ k * 10 ^ 1 + 0) with (c * 10 ^ (k + 1))
        by (rewrite Z.pow_add_r by lia; ring).
      rewrite of_decimal_shift by lia. f_equal. lia.
Qed.

(** The parts [format] writes are never empty, and there is a fraction or an
    exponent. *)
Lemma format_parts (c k : Z) :
  0 < c ->
  snd (fst (format c k)) <> Some Nil
  /\ (forall s u, snd (format c k) = Some (s, u) -> u <> Nil)
  /\ (snd (fst (format c k)) <> None \/ snd (format c k) <> None).
Proof.
  intros Hc. pose proof (ndigits_pos c Hc) as Hl. unfold format.
  set (len := ndigits c) in *.
  destruct ((len + k <=? -4) || (16 <? len + k)).
  - cbn [fst snd]. split; [|split; [|right; discriminate]].
    + destruct (Z.eqb_spec (len - 1) 0) as [E0|E0]; [discriminate|].
      destruct (Z.to_nat (len - 1)) as [|w] eqn:Ew; [lia|].
      intros [= H]. now apply digits_w_S in H.
    + intros s u [= _ <-].
      destruct (_ <? 10)%N; [discriminate|].
      destruct (Z.to_N _) as [|p]; [discriminate|]. apply Unsigned.to_uint_nonnil.
  - destruct (k <? 0) eqn:Hk; cbn [fst snd];
      (split; [|split; [discriminate | left; discriminate]]).
    + apply Z.ltb_lt in Hk. destruct (Z.to_nat (- k)) as [|w] eqn:Ew; [lia|].
      intros [= H]. now apply digits_w_S in H.
    + discriminate.
Qed.

End digit_facts.

(* ------------------------------------------------------------------------- *)
(** ** The decoder reads what the encoder wrote *)


Module json_facts.
Import json.

Lemma scanstring_escape (c : ascii) (r : string) :
  scanstring (escape c ++ r) = push (String c "") (scanstring r).
Proof.
  destruct c as [[] [] [] [] [] [] [] []]; reflexivity.
Qed.

Lemma scanstring_escape_all (s rest : string) :
  scanstring (escape_all s ++ String dquote rest) = Some (s, rest).
Proof.
  induction s as [|c s IH]; simpl.
  - reflexivity.
  - rewrite append_assoc, scanstring_escape, IH. reflexivity.
Qed.

Lemma closes_stops (rest : string) : closes rest -> stops rest.
Proof. destruct rest; [easy | intros [H _]; exact H]. Qed.

Lemma scan_digits_uint (d : uint) (rest : string) :
  stops rest -> scan_digits (string_of_uint d ++ rest) = (d, rest).
Proof.
  intros Hr. induction d; simpl; try (rewrite IHd; reflexivity).
  destruct rest as [|c r]; simpl; [reflexivity|].
  cbn in Hr. now rewrite Hr.
Qed.

Lemma nzhead_not_D0 (d u : uint) : nzhead d <> D0 u.
Proof. induction d; simpl; try discriminate. exact IHd. Qed.

Lemma to_uint_head (p : positive) :
  exists c r, string_of_uint (Pos.to_uint p) = String c r
              /\ is_digit c = true /\ (c =? "0")%char = false.
Proof.
  assert (Hn : Pos.to_uint p = unorm (Pos.to_uint p)).
  { rewrite <- (Unsigned.to_of (Pos.to_uint p)), Unsigned.of_to. reflexivity. }
  pose proof (Unsigned.to_uint_nonzero p) as Hz.
  destruct (Pos.to_uint p) as [|d|d|d|d|d|d|d|d|d|d] eqn:E;
    try (simpl; do 2 eexists; split; [reflexivity | split; reflexivity]).
  - exfalso. simpl in Hn. discriminate Hn.
  - exfalso. unfold unorm in Hn. simpl in Hn.
    destruct (nzhead d) eqn:Ed; try discriminate Hn.
    + injection Hn as Hn. apply Hz. now rewrite Hn.
    + exfalso. exact (nzhead_not_D0 _ _ Ed).
Qed.

Lemma scan_natural_pos (p : positive) (rest : string) :
  stops rest ->
  scan_natural (string_of_uint (Pos.to_uint p) ++ rest) = Some (Npos p, rest).
Proof.
  intros Hr. destruct (to_uint_head p) as (c & r & E & Hd & H0).
  pose proof (scan_digits_uint (Pos.to_uint p) rest Hr) as Hs.
  rewrite E in *. simpl in *. rewrite H0, Hd in *.
  destruct (scan_digits (r ++ rest)) as [d r'].
  injection Hs as Hs1 Hs2. subst r'. rewrite Hs1, Unsigned.of_to. reflexivity.
Qed.

Lemma closes_float (rest : string) : closes rest -> float_follows rest = false.
Proof. destruct rest; simpl; [reflexivity | intros [_ H]; exact H]. Qed.

Lemma scan_natural_N (n : N) (rest : string) :
  stops rest -> scan_natural (string_of_uint (N.to_uint n) ++ rest) = Some (n, rest).
Proof.
  intros Hr. destruct n as [|p]; [reflexivity|]. now apply scan_natural_pos.
Qed.

Lemma to_uint_N_head (n : N) :
  exists c r, string_of_uint (N.to_uint n) = String c r /\ is_digit c = true.
Proof.
  destruct n as [|p].
  - exists "0"%char, "". split; reflexivity.
  - destruct (to_uint_head p) as (c & r & E & Hd & _). eauto.
Qed.

Lemma scan_frac_text (d : uint) (rest : string) :
  d <> Nil -> stops rest ->
  scan_frac (String "." (string_of_uint d ++ rest)) = Some (d, rest).
Proof.
  intros Hd Hr. cbn [scan_frac]. change ("." =? ".")%char with true. cbv iota.
  rewrite scan_digits_uint by exact Hr. now destruct d.
Qed.

Lemma scan_frac_none (rest : string) :
  match rest with String c _ => (c =? ".")%char = false | "" => True end ->
  scan_frac rest = None.
Proof. destruct rest as [|c r]; [reflexivity|]. cbn. now intros ->. Qed.

Lemma scan_exp_text (s : bool) (u : uint) (rest : string) :
  u <> Nil -> stops rest ->
  scan_exp (String "e" (String (if s then "-" else "+")%char (string_of_uint u ++ rest)))
  = Some (if s then Z.opp (Z.of_N (N.of_uint u)) else Z.of_N (N.of_uint u), rest).
Proof.
  intros Hu Hr. cbn [scan_exp]. change (("e" =? "e") || ("e" =? "E"))%char with true.
  cbv iota. destruct s.
  - change ("-" =? "-")%char with true. cbv iota.
    rewrite scan_digits_uint by exact Hr. now destruct u.
  - change ("+" =? "-")%char with false. change ("+" =? "+")%char with true. cbv iota.
    rewrite scan_digits_uint by exact Hr. now destruct u.
Qed.

Lemma scan_exp_none (rest : string) :
  match rest with
  | String c _ => ((c =? "e") || (c =? "E"))%char = false
  | "" => True
  end ->
  scan_exp rest = None.
Proof. destruct rest as [|c r]; [reflexivity|]. cbn. now intros ->. Qed.

Lemma closes_no_point (rest : string) :
  closes rest -> match rest with String c _ => (c =? ".")%char = false | "" => True end.
Proof.
  destruct rest as [|c r]; [easy|]. intros [_ H]. cbn in H.
  now destruct (c =? ".")%char.
Qed.

Lemma closes_no_exp (rest : string) :
  closes rest ->
  match rest with
  | String c _ => ((c =? "e") || (c =? "E"))%char = false
  | "" => True
  end.
Proof.
  destruct rest as [|c r]; [easy|]. intros [_ H]. cbn in H.
  destruct (c =? ".")%char; [discriminate H | exact H].
Qed.

(** The text of the exponent and what follows it. *)
Lemma scan_exp_part (exp : option (bool * uint)) (rest : string) :
  (forall s u, exp = Some (s, u) -> u <> Nil) -> closes rest ->
  match scan_exp
          (match exp with
           | Some (s, u) =>
               String "e" (String (if s then "-" else "+")%char (string_of_uint u))
           | None => ""
           end ++ rest) with
  | Some (x, r) => (Some x, r)
  | None => (None,
             match exp with
             | Some (s, u) =>
                 String "e" (String (if s then "-" else "+")%char (string_of_uint u))
             | None => ""
             end ++ rest)
  end = (float.exp_value exp, rest).
Proof.
  intros Hu Hr. destruct exp as [[s u]|].
  - cbn [append float.exp_value].
    rewrite scan_exp_text; [reflexivity | now apply (Hu s) | now apply closes_stops].
  - cbn [append]. rewrite scan_exp_none by (now apply closes_no_exp). reflexivity.
Qed.

Lemma match_number_unsigned (s : string) (c : ascii) (r : string) :
  s = String c r -> (c =? "-")%char = false ->
  match_number s
  = match scan_natural s with
    | None => None
    | Some (n, r1) =>
        let (frac, r2) :=
          match scan_frac r1 with
          | Some (d, r) => (Some d, r)
          | None => (None, r1)
          end in
        let (exp, r3) :=
          match scan_exp r2 with
          | Some (x, r) => (Some x, r)
          | None => (None, r2)
          end in
        Some (number false n frac exp, r3)
    end.
Proof. intros -> H. unfold match_number. now rewrite H. Qed.

(** The decoder reads the text of a number, part by part. *)
Lemma match_number_literal (neg : bool) (n : N) (frac : option uint)
    (exp : option (bool * uint)) (rest : string) :
  frac <> Some Nil -> (forall s u, exp = Some (s, u) -> u <> Nil) -> closes rest ->
  match_number (float.literal_text neg (n, frac, exp) ++ rest)
  = Some (number neg n frac (float.exp_value exp), rest).
Proof.
  intros Hf Hu Hr. unfold float.literal_text.
  set (et := match exp with
             | Some (s, u) =>
                 String "e" (String (if s then "-" else "+")%char (string_of_uint u))
             | None => ""
             end).
  set (ft := match frac with Some d => String "." (string_of_uint d) | None => "" end).
  assert (Het : stops (et ++ rest)
                /\ match et ++ rest with
                   | String c _ => (c =? ".")%char = false
                   | "" => True
                   end).
  { unfold et. destruct exp as [[s u]|]; cbn [append].
    - split; reflexivity.
    - split; [now apply closes_stops | now apply closes_no_point]. }
  destruct Het as [Hs1 Hs2].
  assert (Hft : stops (ft ++ et ++ rest)).
  { unfold ft. destruct frac; [reflexivity | exact Hs1]. }
  assert (Hbody : forall s1,
            s1 = string_of_uint (N.to_uint n) ++ ft ++ et ++ rest ->
            match scan_natural s1 with
            | None => None
            | Some (n0, r1) =>
                let (frac0, r2) :=
                  match scan_frac r1 with
                  | Some (d, r) => (Some d, r)
                  | None => (None, r1)
                  end in
                let (exp0, r3) :=
                  match scan_exp r2 with
                  | Some (x, r) => (Some x, r)
                  | None => (None, r2)
                  end in
                Some (number neg n0 frac0 exp0, r3)
            end = Some (number neg n frac (float.exp_value exp), rest)).
  { intros s1 ->. rewrite scan_natural_N by exact Hft.
    unfold ft. destruct frac as [d|].
    - cbn [append]. rewrite scan_frac_text; [|congruence | exact Hs1].
      unfold et. now rewrite scan_exp_part.
    - cbn [append]. rewrite scan_frac_none by exact Hs2.
      unfold et. now rewrite scan_exp_part. }
  rewrite !append_assoc. destruct neg.
  - cbn [append]. unfold match_number. change ("-" =? "-")%char with true. cbv iota.
    now apply Hbody.
  - cbn [append]. destruct (to_uint_N_head n) as (c & r & E & Hd).
    assert (Hc : (c =? "-")%char = false).
    { apply Ascii.eqb_neq. intros ->. discriminate Hd. }
    rewrite (match_number_unsigned _ c (r ++ ft ++ et ++ rest));
      [now apply Hbody | now rewrite E | exact Hc].
Qed.

Lemma match_number_str_int (n : Z) (rest : string) :
  closes rest -> match_number (str_int n ++ rest) = Some (PyInt n, rest).
Proof.
  intros Hr.
  pose proof (match_number_literal (n <? 0)%Z (Z.abs_N n) None None rest
                ltac:(discriminate) ltac:(discriminate) Hr) as H.
  unfold float.literal_text in H. rewrite !append_nil_r in H.
  destruct n as [|p|p]; cbn in H |- *; exact H.
Qed.

Lemma literal_head (neg : bool) (l : float.literal) :
  exists c r, float.literal_text neg l = String c r
              /\ (is_digit c = true \/ c = "-"%char).
Proof.
  destruct l as [[n frac] exp]. unfold float.literal_text. destruct neg.
  - eexists _, _. split; [reflexivity | now right].
  - destruct (to_uint_N_head n) as (c & r & E & Hd). rewrite E.
    eexists _, _. split; [reflexivity | now left].
Qed.

(** The first character of the text of a float. *)
Lemma floatstr_head (x : float.t) :
  exists c r, floatstr x = String c r
              /\ (is_digit c = true \/ c = "-" \/ c = "N" \/ c = "I")%char.
Proof.
  unfold floatstr, float.repr.
  destruct (float.data x) as [|[]|[]|neg m e];
    try (eexists _, _; split; [reflexivity | tauto]).
  destruct (float.shortest neg m e) as [c k].
  destruct (literal_head neg (float.format c k)) as (a & r & E & H).
  exists a, r. split; [exact E | tauto].
Qed.

Lemma closes_intro (c : ascii) (r : string) :
  is_digit c = false -> ((c =? ".") || (c =? "e") || (c =? "E"))%char = false ->
  closes (String c r).
Proof. intros H1 H2. split; assumption. Qed.

Lemma cat_Some (a b : option string) (t : string) :
  cat a b = Some t -> exists x y, a = Some x /\ b = Some y /\ t = x ++ y.
Proof.
  destruct a as [x|], b as [y|]; simpl; try discriminate.
  intros [= <-]. eauto.
Qed.

Lemma str_int_opens (n : Z) : opens (str_int n).
Proof.
  destruct n as [|p|p]; simpl.
  - exists "0"%char, "". repeat split.
  - destruct (to_uint_head p) as (c & r & E & Hd & H0). rewrite E.
    exists c, r. split; [reflexivity|].
    destruct c as [[] [] [] [] [] [] [] []]; try discriminate Hd; repeat split.
  - eexists _, _. repeat split.
Qed.

Lemma floatstr_opens (x : float.t) : opens (floatstr x).
Proof.
  destruct (floatstr_head x) as (c & r & E & H). exists c, r. split; [exact E|].
  destruct H as [H | [-> | [-> | ->]]]; [|repeat split..].
  destruct c as [[] [] [] [] [] [] [] []]; try discriminate H; repeat split.
Qed.

Lemma dumps_opens (v : value) (txt : string) : dumps v = Some txt -> opens txt.
Proof.
  destruct v as [|[]|n|x|s|l|l|items|b]; cbn [dumps]; intros H;
    try (apply cat_Some in H as (x0 & y & [= <-] & _ & ->));
    try (injection H as <-); try discriminate H;
    try (eexists _, _; repeat split; fail).
  - apply str_int_opens.
  - apply floatstr_opens.
Qed.

Lemma skip_ws_opens (txt rest : string) : opens txt -> skip_ws (txt ++ rest) = txt ++ rest.
Proof. intros (c & r & -> & Hw & _). simpl. now rewrite Hw. Qed.

Lemma opens_append (a b : string) : opens a -> opens (a ++ b).
Proof. intros (c & r & -> & H). exists c, (r ++ b). split; [reflexivity | exact H]. Qed.

Lemma dump_elems_cons (v : value) (vs : list value) (txt : string) :
  dump_elems dumps (v :: vs) = Some txt ->
  exists tv y, dumps v = Some tv /\ txt = tv ++ y /\
    match vs with
    | [] => y = "]"
    | _ :: _ => exists y', dump_elems dumps vs = Some y' /\ y = String "," y'
    end.
Proof.
  cbn [dump_elems]. intros H. apply cat_Some in H as (tv & y & Hv & Hy & ->).
  exists tv, y. repeat split; try assumption.
  destruct vs as [|v' vs'].
  - now injection Hy as <-.
  - apply cat_Some in Hy as (a & y' & [= <-] & Hy' & ->). eauto.
Qed.

Lemma dump_elems_opens (v : value) (vs : list value) (txt : string) :
  dump_elems dumps (v :: vs) = Some txt -> opens txt.
Proof.
  intros H. apply dump_elems_cons in H as (tv & y & Hv & -> & _).
  apply opens_append. now apply dumps_opens with v.
Qed.

Lemma elements_dump (l : list value) :
  Forall scans l -> l <> [] ->
  forall txt, dump_elems dumps l = Some txt ->
  forall fuel rest, fold_right (fun x n => S (need x + n)) 0 l <= fuel ->
    elements fuel (txt ++ rest) = Some (map decoded l, rest).
Proof.
  induction 1 as [|v vs Hv Hvs IH]; [congruence|].
  intros _ txt Ht fuel rest Hf.
  apply dump_elems_cons in Ht as (tv & y & Hdv & -> & Hy).
  cbn [fold_right] in Hf. destruct fuel as [|f]; [lia|].
  cbn [elements]. rewrite append_assoc.
  destruct vs as [|v' vs'].
  - subst y. rewrite (Hv tv Hdv f _); [| now split | lia]. reflexivity.
  - destruct Hy as (y' & Hy' & ->).
    rewrite (Hv tv Hdv f _); [| now split | lia].
    cbn [append skip_ws]. change (is_ws ",") with false. cbv iota.
    change ("," =? "]")%char with false. change ("," =? ",")%char with true. cbv iota.
    rewrite skip_ws_opens by (now apply dump_elems_opens with v' vs').
    rewrite (IH ltac:(discriminate) y' Hy' f rest); [reflexivity|].
    cbn [fold_right] in *. lia.
Qed.

Lemma encode_basestring_append (k x : string) :
  encode_basestring k ++ x = String dquote (escape_all k ++ String dquote x).
Proof. unfold encode_basestring. cbn [append]. now rewrite append_assoc. Qed.

Lemma dump_members_cons (kv : value * value) (kvs : list (value * value)) (txt : string) :
  dump_members dumps (kv :: kvs) = Some txt ->
  exists ks tv y,
    key_str (fst kv) = Some ks /\ dumps (snd kv) = Some tv /\
    txt = encode_basestring ks ++ String ":" (tv ++ y) /\
    match kvs with
    | [] => y = "}"
    | _ :: _ => exists y', dump_members dumps kvs = Some y' /\ y = String "," y'
    end.
Proof.
  cbn [dump_members]. intros H.
  apply cat_Some in H as (q & x1 & Hk & H & ->).
  apply cat_Some in H as (c & x2 & [= <-] & H & ->).
  apply cat_Some in H as (tv & y & Hv & Hy & ->).
  destruct (key_str (fst kv)) as [ks|]; [|discriminate Hk]. injection Hk as <-.
  exists ks, tv, y. repeat split; try assumption.
  destruct kvs as [|kv' kvs'].
  - now injection Hy as <-.
  - apply cat_Some in Hy as (a & y' & [= <-] & Hy' & ->). eauto.
Qed.

Lemma dump_members_head (kv : value * value) (kvs : list (value * value)) (txt : string) :
  dump_members dumps (kv :: kvs) = Some txt -> exists r, txt = String dquote r.
Proof.
  intros H. apply dump_members_cons in H as (ks & tv & y & _ & _ & -> & _).
  rewrite encode_basestring_append. eauto.
Qed.

Lemma members_dump (items : list (value * value)) :
  Forall (fun kv => scans (snd kv)) items -> items <> [] ->
  forall txt, dump_members dumps items = Some txt ->
  forall fuel rest, fold_right (fun kv n => S (need (snd kv) + n)) 0 items <= fuel ->
    members fuel (txt ++ rest)
    = Some (map (fun kv => (key_text (fst kv), decoded (snd kv))) items, rest).
Proof.
  induction 1 as [|kv kvs Hv Hvs IH]; [congruence|].
  intros _ txt Ht fuel rest Hf.
  apply dump_members_cons in Ht as (ks & tv & y & Hk & Hdv & -> & Hy).
  cbn [fold_right] in Hf. destruct fuel as [|f]; [lia|].
  rewrite append_assoc, encode_basestring_append.
  cbn [members]. change (dquote =? dquote)%char with true. cbv iota.
  rewrite scanstring_escape_all.
  cbn [append skip_ws]. change (is_ws ":") with false. cbv iota.
  change (":" =? ":")%char with true. cbv iota.
  rewrite append_assoc.
  rewrite skip_ws_opens by (eapply dumps_opens; eassumption).
  assert (Hkt : key_text (fst kv) = ks) by (unfold key_text; now rewrite Hk).
  destruct kvs as [|kv' kvs'].
  - subst y. rewrite (Hv tv Hdv f _); [| now split | lia].
    cbn [map]. rewrite Hkt. reflexivity.
  - destruct Hy as (y' & Hy' & ->).
    rewrite (Hv tv Hdv f _); [| now split | lia].
    cbn [append skip_ws]. change (is_ws ",") with false. cbv iota.
    change ("," =? "}")%char with false. change ("," =? ",")%char with true. cbv iota.
    destruct (dump_members_head _ _ _ Hy') as (r & Hr).
    assert (Hs : skip_ws (y' ++ rest) = y' ++ rest) by (rewrite Hr; reflexivity).
    rewrite Hs.
    rewrite (IH ltac:(discriminate) y' Hy' f rest).
    + cbn [map]. rewrite Hkt. reflexivity.
    + cbn [fold_right] in *. lia.
Qed.

Lemma str_int_head (n : Z) :
  exists c r, str_int n = String c r /\ (is_digit c = true \/ c = "-"%char).
Proof.
  destruct n as [|p|p]; simpl.
  - exists "0"%char, "". split; [reflexivity | now left].
  - destruct (to_uint_head p) as (c & r & E & Hd & _). rewrite E. eauto.
  - eexists _, _. split; [reflexivity | now right].
Qed.

Lemma scan_once_number (c : ascii) (r : string) (f : nat) :
  is_digit c = true \/ c = "-"%char ->
  scan_once (S f) (String c r)
  = match match_number (String c r) with
    | Some (v, r') => Some (v, r')
    | None => constant (String c r)
    end.
Proof.
  intros [H | ->]; [|reflexivity].
  destruct c as [[] [] [] [] [] [] [] []]; try discriminate H; reflexivity.
Qed.

(** The decoder reads the text of a float as the float. *)
Lemma scan_once_float (x : float.t) (f : nat) (rest : string) :
  closes rest -> scan_once (S f) (floatstr x ++ rest) = Some (PyFloat x, rest).
Proof.
  intros Hr. unfold floatstr, float.repr.
  destruct (float.data x) as [|[]|[]|neg m e] eqn:Ex.
  - cbn. do 2 f_equal. f_equal. now apply float_facts.t_eq.
  - cbn. do 2 f_equal. f_equal. now apply float_facts.t_eq.
  - cbn. do 2 f_equal. f_equal. now apply float_facts.t_eq.
  - change "-0.0" with (float.literal_text true (0%N, Some (D0 Nil), None)).
    destruct (literal_head true (0%N, Some (D0 Nil), None)) as (c & r & E & Hc).
    rewrite E. cbn [append]. rewrite scan_once_number by exact Hc.
    change (String c (r ++ rest)) with (String c r ++ rest). rewrite <- E.
    rewrite match_number_literal; [|discriminate | discriminate | exact Hr].
    do 2 f_equal. cbn [number]. f_equal. apply float_facts.t_eq. now rewrite Ex.
  - change "0.0" with (float.literal_text false (0%N, Some (D0 Nil), None)).
    destruct (literal_head false (0%N, Some (D0 Nil), None)) as (c & r & E & Hc).
    rewrite E. cbn [append]. rewrite scan_once_number by exact Hc.
    change (String c (r ++ rest)) with (String c r ++ rest). rewrite <- E.
    rewrite match_number_literal; [|discriminate | discriminate | exact Hr].
    do 2 f_equal. cbn [number]. f_equal. apply float_facts.t_eq. now rewrite Ex.
  - destruct (float.shortest neg m e) as [c k] eqn:Es.
    pose proof (float.valid x) as Hv. rewrite Ex in Hv.
    destruct (float_facts.shortest_ok neg m e c k Hv Es) as [Hc Hd].
    destruct (digit_facts.format_parts c k Hc) as (Hfrac & Hexp & Hsome).
    pose proof (digit_facts.of_literal_format neg c k Hc) as Hl.
    destruct (float.format c k) as [[n frac] exp] eqn:Ef. cbn [fst snd] in *.
    destruct (literal_head neg (n, frac, exp)) as (a & r & E & Ha).
    rewrite E. cbn [append]. rewrite scan_once_number by exact Ha.
    change (String a (r ++ rest)) with (String a r ++ rest). rewrite <- E.
    rewrite match_number_literal; [|exact Hfrac | exact Hexp | exact Hr].
    do 2 f_equal.
    assert (Hn : number neg n frac (float.exp_value exp)
                 = PyFloat (float.of_literal neg n frac (float.exp_value exp))).
    { unfold number. destruct frac; [reflexivity|].
      destruct exp as [[s u]|]; [reflexivity|]. now destruct Hsome. }
    rewrite Hn, Hl, Hd, <- Ex. f_equal. apply float_facts.make_data.
Qed.

Lemma scan_once_array (f : nat) (y : string) :
  opens y ->
  scan_once (S f) (String "[" y)
  = match elements f y with
    | Some (vs, r) => Some (PyList vs, r)
    | None => None
    end.
Proof.
  intros (c & r & -> & Hw & Hb & _). cbn [scan_once].
  change ("[" =? dquote)%char with false. change ("[" =? "{")%char with false.
  change ("[" =? "[")%char with true. cbv iota.
  cbn [skip_ws]. rewrite Hw, Hb. reflexivity.
Qed.

Lemma scan_once_object (f : nat) (y : string) :
  opens y ->
  scan_once (S f) (String "{" y)
  = match members f y with
    | Some (pairs, r) => Some (PyDict (dict pairs), r)
    | None => None
    end.
Proof.
  intros (c & r & -> & Hw & _ & Hb). cbn [scan_once].
  change ("{" =? dquote)%char with false. change ("{" =? "{")%char with true.
  cbv iota. cbn [skip_ws]. rewrite Hw, Hb. reflexivity.
Qed.

Lemma scan_once_list_like (l : list value) (txt : string) :
  Forall scans l ->
  cat (Some "[") (dump_elems dumps l) = Some txt ->
  forall fuel rest, S (fold_right (fun x n => S (need x + n)) 0 l) <= fuel ->
    scan_once fuel (txt ++ rest) = Some (PyList (map decoded l), rest).
Proof.
  intros IH Ht fuel rest Hf. destruct fuel as [|f]; [lia|].
  apply cat_Some in Ht as (x & y & [= <-] & Hy & ->).
  destruct l as [|v vs].
  - injection Hy as <-. reflexivity.
  - cbn [append]. rewrite scan_once_array
      by (apply opens_append; now apply dump_elems_opens with v vs).
    rewrite (elements_dump (v :: vs) IH ltac:(discriminate) y Hy f rest) by lia.
    reflexivity.
Qed.

Theorem scan_once_dumps (v : value) : scans v.
Proof.
  induction v as [| b | n | x | s | l IH | l IH | items IH | b] using value_nested_ind;
    intros txt Ht fuel rest Hr Hf; cbn [need] in Hf.
  - destruct fuel as [|f]; [lia|]. injection Ht as <-. reflexivity.
  - destruct fuel as [|f]; [lia|]. destruct b; injection Ht as <-; reflexivity.
  - destruct fuel as [|f]; [lia|]. cbn [dumps] in Ht. injection Ht as <-.
    pose proof (match_number_str_int n rest Hr) as Hm.
    destruct (str_int_head n) as (c & r & E & Hc).
    rewrite E in *. cbn [append] in *.
    rewrite scan_once_number by assumption. rewrite Hm. reflexivity.
  - destruct fuel as [|f]; [lia|]. cbn [dumps] in Ht. injection Ht as <-.
    now apply scan_once_float.
  - destruct fuel as [|f]; [lia|]. cbn [dumps] in Ht. injection Ht as <-.
    rewrite encode_basestring_append. cbn [scan_once].
    change (dquote =? dquote)%char with true. cbv iota.
    rewrite scanstring_escape_all. reflexivity.
  - now apply scan_once_list_like.
  - now apply scan_once_list_like.
  - destruct fuel as [|f]; [lia|]. cbn [dumps] in Ht.
    apply cat_Some in Ht as (x & y & [= <-] & Hy & ->).
    destruct items as [|kv kvs].
    + injection Hy as <-. reflexivity.
    + cbn [append]. destruct (dump_members_head _ _ _ Hy) as (r0 & Hr0).
      rewrite scan_once_object.
      * rewrite (members_dump (kv :: kvs) IH ltac:(discriminate) y Hy f rest) by lia.
        reflexivity.
      * rewrite Hr0. eexists _, _. repeat split.
  - discriminate Ht.
Qed.

Lemma dump_elems_length (l : list value) :
  Forall (fun v => forall txt, dumps v = Some txt -> need v <= String.length txt) l ->
  forall y, dump_elems dumps l = Some y ->
    fold_right (fun x n => S (need x + n)) 0 l <= String.length y.
Proof.
  induction 1 as [|v vs Hv Hvs IH]; intros y Hy.
  - cbn. lia.
  - apply dump_elems_cons in Hy as (tv & z & Hdv & -> & Hz).
    rewrite length_append. specialize (Hv tv Hdv). cbn [fold_right].
    destruct vs as [|v' vs'].
    + subst z. cbn. lia.
    + destruct Hz as (y' & Hy' & ->). specialize (IH y' Hy').
      cbn [fold_right String.length] in *. lia.
Qed.

Lemma dump_members_length (items : list (value * value)) :
  Forall (fun kv => forall txt, dumps (snd kv) = Some txt
                                -> need (snd kv) <= String.length txt) items ->
  forall y, dump_members dumps items = Some y ->
    fold_right (fun kv n => S (need (snd kv) + n)) 0 items <= String.length y.
Proof.
  induction 1 as [|kv kvs Hv Hvs IH]; intros y Hy.
  - cbn. lia.
  - apply dump_members_cons in Hy as (ks & tv & z & _ & Hdv & -> & Hz).
    rewrite length_append. cbn [String.length]. rewrite length_append.
    specialize (Hv tv Hdv). cbn [fold_right].
    destruct kvs as [|kv' kvs'].
    + subst z. cbn. lia.
    + destruct Hz as (y' & Hy' & ->). specialize (IH y' Hy').
      cbn [fold_right String.length] in *. lia.
Qed.

Lemma dumps_length (v : value) (txt : string) :
  dumps v = Some txt -> need v <= String.length txt.
Proof.
  revert txt.
  induction v as [| b | n | x | s | l IH | l IH | items IH | b] using value_nested_ind;
    intros txt Ht; cbn [need dumps] in *.
  - injection Ht as <-. cbn. lia.
  - destruct b; injection Ht as <-; cbn; lia.
  - injection Ht as <-. destruct (str_int_head n) as (c & r & -> & _). cbn. lia.
  - injection Ht as <-. destruct (floatstr_head x) as (c & r & -> & _). cbn. lia.
  - injection Ht as <-. cbn. lia.
  - apply cat_Some in Ht as (x & y & [= <-] & Hy & ->).
    pose proof (dump_elems_length l IH y Hy). cbn [append String.length]. lia.
  - apply cat_Some in Ht as (x & y & [= <-] & Hy & ->).
    pose proof (dump_elems_length l IH y Hy). cbn [append String.length]. lia.
  - apply cat_Some in Ht as (x & y & [= <-] & Hy & ->).
    pose proof (dump_members_length items IH y Hy). cbn [append String.length]. lia.
  - discriminate Ht.
Qed.

(** Whatever [dumps] writes, [loads] reads, and the value read is the decoded
    image of the value written. *)
Theorem loads_dumps (v : value) (txt : string) :
  dumps v = Some txt -> loads txt = Some (decoded v).
Proof.
  intros Ht. unfold loads.
  rewrite <- (append_nil_r txt) at 2.
  rewrite skip_ws_opens by (now apply dumps_opens with v).
  rewrite (scan_once_dumps v txt Ht); [reflexivity | exact I | now apply dumps_length].
Qed.

Lemma distinct_NoDup (l : list string) : distinct l = true <-> NoDup l.
Proof.
  induction l as [|x r IH]; cbn [distinct].
  - split; [constructor | reflexivity].
  - rewrite andb_true_iff, negb_true_iff, IH. split.
    + intros [Hx Hr]. constructor; [|exact Hr].
      intros Hin. assert (existsb (String.eqb x) r = true) as E; [|congruence].
      apply existsb_exists. exists x. split; [exact Hin | apply String.eqb_refl].
    + intros H. inversion H as [|? ? Hx Hr]; subst. split; [|exact Hr].
      destruct (existsb (String.eqb x) r) eqn:E; [|reflexivity].
      apply existsb_exists in E as (y & Hy & Exy).
      apply String.eqb_eq in Exy. subst y. contradiction.
Qed.

Lemma dict_setitem_fresh (d : list (string * value)) (k : string) (v : value) :
  ~ In k (map fst d) -> dict_setitem d k v = (d ++ [(k, v)])%list.
Proof.
  induction d as [|[k' v'] d IH]; cbn; intros Hn; [reflexivity|].
  destruct (String.eqb_spec k' k) as [->|_].
  - exfalso. apply Hn. now left.
  - rewrite IH; [reflexivity | tauto].
Qed.

Lemma fold_setitem_distinct (pairs acc : list (string * value)) :
  NoDup (map fst (acc ++ pairs)%list) ->
  fold_left (fun d kv => dict_setitem d (fst kv) (snd kv)) pairs acc
  = (acc ++ pairs)%list.
Proof.
  revert acc. induction pairs as [|[k v] pairs IH]; intros acc Hn; cbn [fold_left].
  - now rewrite app_nil_r.
  - cbn [fst snd]. rewrite dict_setitem_fresh.
    + rewrite IH; rewrite <- app_assoc; [reflexivity | exact Hn].
    + rewrite map_app in Hn. cbn in Hn. apply NoDup_remove_2 in Hn.
      intros Hin. apply Hn. apply in_or_app. now left.
Qed.

Lemma dict_distinct (items : list (value * value)) :
  forallb (fun kv => is_str (fst kv)) items = true ->
  distinct (map (fun kv => key_text (fst kv)) items) = true ->
  dict (map (fun kv => (key_text (fst kv), snd kv)) items) = items.
Proof.
  intros Hs Hd. unfold dict.
  rewrite fold_setitem_distinct.
  - cbn [List.app]. rewrite map_map. cbn [fst snd].
    induction items as [|[k v] items IH]; [reflexivity|].
    cbn in Hs, Hd |- *. apply andb_true_iff in Hs as [Hk Hs].
    apply andb_true_iff in Hd as [_ Hd].
    rewrite IH by assumption. destruct k; try discriminate Hk. reflexivity.
  - cbn [List.app]. rewrite map_map. cbn [fst]. now apply distinct_NoDup.
Qed.

Theorem decoded_plain (v : value) : plain v = true -> decoded v = v.
Proof.
  induction v as [| b | n | x | s | l IH | l IH | items IH | b] using value_nested_ind;
    cbn [plain decoded]; intros Hp; try reflexivity; try discriminate Hp.
  - f_equal. induction IH as [|x r Hx Hr IHr]; [reflexivity|].
    cbn in Hp |- *. apply andb_true_iff in Hp as [Hpx Hpr].
    now rewrite Hx, IHr.
  - apply andb_true_iff in Hp as [Hall Hd]. f_equal.
    assert (Hm : map (fun kv => (key_text (fst kv), decoded (snd kv))) items
                 = map (fun kv => (key_text (fst kv), snd kv)) items).
    { clear Hd. induction IH as [|kv r Hx Hr IHr]; [reflexivity|].
      cbn in Hall |- *. apply andb_true_iff in Hall as [Hkv Hall].
      apply andb_true_iff in Hkv as [_ Hpv]. now rewrite Hx, IHr. }
    rewrite Hm. apply dict_distinct; [|exact Hd].
    clear -Hall. induction items as [|kv r IHr]; [reflexivity|].
    cbn in Hall |- *. apply andb_true_iff in Hall as [Hkv Hall].
    apply andb_true_iff in Hkv as [Hk _]. now rewrite Hk, IHr.
Qed.

Lemma dump_elems_eq (v : value) (vs : list value) :
  dump_elems dumps (v :: vs)
  = cat (dumps v) (match vs with
                   | [] => Some "]"
                   | _ :: _ => cat (Some ",") (dump_elems dumps vs)
                   end).
Proof. reflexivity. Qed.

Lemma dump_members_eq (kv : value * value) (kvs : list (value * value)) :
  dump_members dumps (kv :: kvs)
  = cat (option_map encode_basestring (key_str (fst kv)))
      (cat (Some ":")
        (cat (dumps (snd kv))
           (match kvs with
            | [] => Some "}"
            | _ :: _ => cat (Some ",") (dump_members dumps kvs)
            end))).
Proof. reflexivity. Qed.

(** Plain values are serializable. *)
Theorem plain_dumps (v : value) : plain v = true -> exists txt, dumps v = Some txt.
Proof.
  induction v as [| b | n | x | s | l IH | l IH | items IH | b] using value_nested_ind;
    cbn [plain dumps]; intros Hp; try discriminate Hp; try (eexists; reflexivity).
  - destruct b; eexists; reflexivity.
  - assert (exists y, dump_elems dumps l = Some y) as (y & ->); [|eexists; reflexivity].
    induction IH as [|x r Hx Hr IHr]; [eexists; reflexivity|].
    cbn in Hp. apply andb_true_iff in Hp as [Hpx Hpr].
    destruct (Hx Hpx) as (tx & Etx). destruct (IHr Hpr) as (y & Ey).
    rewrite dump_elems_eq, Etx. destruct r; [eexists; reflexivity|].
    rewrite Ey. eexists; reflexivity.
  - apply andb_true_iff in Hp as [Hall _].
    assert (exists y, dump_members dumps items = Some y) as (y & ->);
      [|eexists; reflexivity].
    induction IH as [|kv r Hx Hr IHr]; [eexists; reflexivity|].
    cbn in Hall. apply andb_true_iff in Hall as [Hkv Hall].
    apply andb_true_iff in Hkv as [Hk Hpv].
    destruct (Hx Hpv) as (tx & Etx). destruct (IHr Hall) as (y & Ey).
    rewrite dump_members_eq, Etx.
    destruct (fst kv); try discriminate Hk. cbn [key_str option_map].
    destruct r; [eexists; reflexivity|].
    rewrite Ey. eexists; reflexivity.
Qed.

End json_facts.


(* ------------------------------------------------------------------------- *)
(** ** ORDER BY sorts *)


Module order_facts.
Import duckdb.

Lemma leb_lex (s t : string) : String.leb s t = true <-> lex_le s t.
Proof.
  unfold String.leb. revert t.
  induction s as [|a s IH]; intros [|b t]; cbn.
  - split; [constructor | reflexivity].
  - split; [constructor | reflexivity].
  - split; [discriminate | intros H; inversion H].
  - unfold Ascii.compare. fold (ord a) (ord b).
    destruct (N.compare_spec (ord a) (ord b)) as [E | L | G].
    + apply (f_equal chr) in E. unfold chr, ord in E.
      rewrite !ascii_N_embedding in E. subst b.
      rewrite IH. split; [now constructor|].
      intros H; inversion H; subst; [lia | assumption].
    + split; [now constructor | reflexivity].
    + split; [discriminate|].
      intros H; inversion H; subst; lia.
Qed.

Lemma lex_le_trans (s t u : string) : lex_le s t -> lex_le t u -> lex_le s u.
Proof.
  intros H. revert u. induction H as [t | a b s t L | a s t H IH]; intros u Hu.
  - constructor.
  - inversion Hu; subst; apply lex_less; lia.
  - inversion Hu; subst; [now apply lex_less | apply lex_same; auto].
Qed.

Lemma lex_le_total (s t : string) : lex_le s t \/ lex_le t s.
Proof. rewrite <- !leb_lex. apply String.leb_total. Qed.

Lemma lex_le_antisym (s t : string) : lex_le s t -> lex_le t s -> s = t.
Proof. rewrite <- !leb_lex. apply String.leb_antisym. Qed.

Lemma insert_perm (x : string) (l : list string) : Permutation (insert x l) (x :: l).
Proof.
  induction l as [|y l IH]; cbn; [reflexivity|].
  destruct (String.leb x y); [reflexivity|].
  rewrite IH. apply perm_swap.
Qed.

Lemma sort_perm (l : list string) : Permutation (sort l) l.
Proof.
  induction l as [|x l IH]; cbn; [reflexivity|].
  rewrite insert_perm. now constructor.
Qed.

Lemma insert_sorted (x : string) (l : list string) :
  StronglySorted lex_le l -> StronglySorted lex_le (insert x l).
Proof.
  induction 1 as [|y l Hs IH Hy]; cbn.
  - repeat constructor.
  - destruct (String.leb x y) eqn:E.
    + apply leb_lex in E. constructor; [now constructor|].
      constructor; [exact E|].
      eapply Forall_impl; [|exact Hy]. intros z Hz. now apply lex_le_trans with y.
    + constructor; [exact IH|].
      assert (Hyx : lex_le y x).
      { destruct (lex_le_total x y) as [H|H]; [|exact H].
        apply leb_lex in H. congruence. }
      eapply Permutation_Forall; [symmetry; apply insert_perm|].
      now constructor.
Qed.

Lemma sort_sorted (l : list string) : StronglySorted lex_le (sort l).
Proof.
  induction l as [|x l IH]; cbn; [constructor | now apply insert_sorted].
Qed.

(** A list has one sorted arrangement only. *)
Lemma sorted_unique (l1 l2 : list string) :
  StronglySorted lex_le l1 -> StronglySorted lex_le l2 ->
  Permutation l1 l2 -> l1 = l2.
Proof.
  intros H1. revert l2. induction H1 as [|x l1 Hs1 IH Hx]; intros l2 H2 Hp.
  - apply Permutation_nil in Hp. now subst.
  - destruct H2 as [|y l2 Hs2 Hy].
    + symmetry in Hp. apply Permutation_nil in Hp. discriminate.
    + assert (x = y) as ->.
      { apply lex_le_antisym.
        - assert (In y (x :: l1)) as [->|Hin]
            by (eapply Permutation_in; [symmetry; exact Hp | now left]).
          + destruct (lex_le_total y y); assumption.
          + rewrite Forall_forall in Hx. now apply Hx.
        - assert (In x (y :: l2)) as [->|Hin]
            by (eapply Permutation_in; [exact Hp | now left]).
          + destruct (lex_le_total x x); assumption.
          + rewrite Forall_forall in Hy. now apply Hy. }
      f_equal. apply IH; [exact Hs2|]. now apply Permutation_cons_inv with y.
Qed.

Lemma sort_order_free (l1 l2 : list string) :
  Permutation l1 l2 -> sort l1 = sort l2.
Proof.
  intros Hp. apply sorted_unique; try apply sort_sorted.
  rewrite !sort_perm. exact Hp.
Qed.

End order_facts.


(* ------------------------------------------------------------------------- *)
(** ** The statements of a call, one by one *)


Module engine_facts.
Import duckdb.

Lemma has_key_deleted (k : string) (rows : list row) :
  has_key k (filter (fun r => negb (fst r =? k)) rows) = false.
Proof.
  unfold has_key.
  induction rows as [|[k' v'] rows IH]; cbn; [reflexivity|].
  destruct (String.eqb_spec k' k) as [->|Hne]; cbn; [exact IH|].
  apply String.eqb_neq in Hne. now rewrite Hne, IH.
Qed.

Lemma filter_upsert_same (k p : string) (rows : list row) :
  filter (fun r => fst r =? k) (upsert k p rows) = [(k, p)].
Proof.
  unfold upsert. rewrite filter_app. cbn. rewrite String.eqb_refl.
  replace (filter _ (filter _ rows)) with (@nil row); [reflexivity|].
  induction rows as [|[k' v'] rows IH]; cbn; [reflexivity|].
  destruct (String.eqb_spec k' k) as [->|Hne]; cbn; [exact IH|].
  apply String.eqb_neq in Hne. now rewrite Hne.
Qed.

Lemma filter_upsert_other (k k' p : string) (rows : list row) :
  k' <> k ->
  filter (fun r => fst r =? k') (upsert k p rows) = filter (fun r => fst r =? k') rows.
Proof.
  intros Hne. unfold upsert. rewrite filter_app. cbn.
  replace (k =? k') with false by (symmetry; apply String.eqb_neq; congruence).
  rewrite app_nil_r.
  induction rows as [|[k2 v2] rows IH]; cbn; [reflexivity|].
  destruct (String.eqb_spec k2 k) as [->|Hne2]; cbn.
  - replace (k =? k') with false by (symmetry; apply String.eqb_neq; congruence).
    exact IH.
  - destruct (k2 =? k'); [now rewrite IH | exact IH].
Qed.

End engine_facts.

Module store_facts.
Import duckdb DuckNo engine_facts.

Lemma validate_key_Ok (key : value) (k : string) :
  _validate_key key = Ok k <-> key = PyStr k /\ k <> "".
Proof.
  destruct key; cbn; try (split; [discriminate | intros [[=] _]]).
  destruct (String.eqb_spec s ""); split.
  - discriminate.
  - intros [[= ->] Hn]. contradiction.
  - intros [= ->]. now split.
  - intros [[= ->] _]. reflexivity.
Qed.

(** What one call of [set] does to the instance, case by case. *)
Lemma set_cases (fails : nat -> bool) (s : DuckNo.t) (key v : value)
    (r : result unit) (s' : DuckNo.t) :
  set fails s key v = (r, s') ->
  _table s' = _table s /\ _db_file s' = _db_file s /\
  database (_conn s') = database (_conn s) /\
  match r with
  | Ok _ =>
      idle s /\ idle s' /\
      exists k p, key = PyStr k /\ k <> "" /\ json.dumps v = Some p /\
                  committed (_conn s') = upsert k p (committed (_conn s))
  | Raise e =>
      committed (_conn s') = committed (_conn s) /\ (idle s -> idle s')
  end.
Proof.
  unfold set, idle. destruct (_validate_key key) as [k|e] eqn:Ek.
  2:{ intros [= <- <-]. repeat split; auto. }
  apply validate_key_Ok in Ek as [-> Hk].
  destruct (json.dumps v) as [p|].
  2:{ intros [= <- <-]. repeat split; auto. }
  destruct s as [tb f [db rows pend log]]. cbn [_conn _table _db_file].
  unfold try_except, bind, ret, raise, execute, run, duckdb.log, write, view.
  cbn [pending committed executed database].
  destruct pend as [w|];
    destruct (fails 0), (fails 1), (fails 2), (fails 3);
    cbn [pending committed executed database view];
    rewrite ?has_key_deleted;
    intros [= <- <-]; cbn; repeat split; try discriminate; eauto 10.
Qed.

Lemma get_same_store (fails : nat -> bool) (s : DuckNo.t) (key d : value) :
  same_store s (snd (get fails s key d)).
Proof.
  unfold get, same_store. destruct (_validate_key key); [|cbn; tauto].
  unfold execute. destruct (fails 0); cbn; [tauto|].
  destruct (filter _ _) as [|r rows]; cbn; [tauto|].
  destruct (json.loads _); cbn; tauto.
Qed.

Lemma keys_same_store (fails : nat -> bool) (s : DuckNo.t) :
  same_store s (snd (keys fails s)).
Proof.
  unfold keys, same_store, execute. destruct (fails 0); cbn; tauto.
Qed.

Lemma get_result (fails : nat -> bool) (s : DuckNo.t) (k : string) (d : value) :
  k <> "" -> fails 0 = false ->
  fst (get fails s (PyStr k) d)
  = match records k s with
    | [] => Ok d
    | r :: _ => match json.loads (snd r) with
                | Some x => Ok x
                | None => Raise JSONDecodeError
                end
    end.
Proof.
  intros Hk Hf. unfold get, records. cbn [_validate_key].
  apply String.eqb_neq in Hk. rewrite Hk.
  unfold execute. rewrite Hf. cbn.
  destruct (filter _ _) as [|r rows]; cbn; [reflexivity|].
  destruct (json.loads _); reflexivity.
Qed.

Lemma keys_result (fails : nat -> bool) (s : DuckNo.t) :
  fails 0 = false -> fst (keys fails s) = Ok (sort (map fst (view (_conn s)))).
Proof. intros Hf. unfold keys, execute. rewrite Hf. reflexivity. Qed.

Lemma idle_view (s : DuckNo.t) : idle s -> view (_conn s) = committed (_conn s).
Proof. unfold idle, view. now intros ->. Qed.

Lemma in_keys_upsert (k k' p : string) (rows : list row) :
  In k' (map fst (upsert k p rows)) <-> k' = k \/ In k' (map fst rows).
Proof.
  unfold upsert. rewrite map_app, in_app_iff. cbn.
  rewrite !in_map_iff. split.
  - intros [((a, b) & <- & Hin) | [->|[]]]; [|now left].
    apply filter_In in Hin as [Hin _]. right. now exists (a, b).
  - intros [->| ((a, b) & <- & Hin)]; [now right; left|]. cbn.
    destruct (String.eqb_spec a k) as [->|Hne]; [now right; left|].
    left. exists (a, b). split; [reflexivity|].
    apply filter_In. split; [exact Hin|]. cbn.
    apply String.eqb_neq in Hne. now rewrite Hne.
Qed.

Lemma NoDup_upsert (k p : string) (rows : list row) :
  NoDup (map fst rows) -> NoDup (map fst (upsert k p rows)).
Proof.
  intros Hn. unfold upsert. rewrite map_app. cbn.
  apply NoDup_app.
  - induction rows as [|[a b] rows IH]; cbn in *; [constructor|].
    inversion Hn as [|? ? Ha Hr]; subst.
    destruct (a =? k); cbn; [now apply IH|].
    constructor; [|now apply IH].
    intros Hin. apply Ha. apply in_map_iff in Hin as (r & <- & Hin).
    apply filter_In in Hin as [Hin _]. now apply in_map.
  - repeat constructor. intros [].
  - intros x Hin [<-|[]]. apply in_map_iff in Hin as ((a, b) & <- & Hin).
    apply filter_In in Hin as [_ Hne]. cbn in Hne.
    now rewrite String.eqb_refl in Hne.
Qed.

Lemma step_inv (s : DuckNo.t) (c : call) : inv s -> inv (step s c).
Proof.
  intros [Hi Hn]. destruct c as [f key v | f key d | f]; cbn [step].
  - destruct (set f s key v) as [r s'] eqn:E. cbn [snd].
    apply set_cases in E as (_ & _ & _ & H). destruct r as [[]|e].
    + destruct H as (_ & Hi' & k & p & _ & _ & _ & Hc). split; [exact Hi'|].
      rewrite Hc. now apply NoDup_upsert.
    + destruct H as (Hc & Hi'). split; [now apply Hi' | now rewrite Hc].
  - destruct (get_same_store f s key d) as (_ & _ & _ & Hc & Hp).
    split; [unfold idle; now rewrite Hp | now rewrite Hc].
  - destruct (keys_same_store f s) as (_ & _ & _ & Hc & Hp).
    split; [unfold idle; now rewrite Hp | now rewrite Hc].
Qed.

Lemma run_calls_inv (calls : list call) (s : DuckNo.t) :
  inv s -> inv (run_calls s calls).
Proof.
  revert s. induction calls as [|c cs IH]; intros s Hs; cbn; [exact Hs|].
  apply IH. now apply step_inv.
Qed.

Lemma filter_none {A} (f : A -> bool) (l : list A) :
  (forall x, In x l -> f x = false) -> filter f l = [].
Proof.
  induction l as [|a l IH]; cbn; intros H; [reflexivity|].
  rewrite (H a) by now left. apply IH. intros x Hx. apply H. now right.
Qed.

Lemma records_unique (k p : string) (rows : list row) :
  NoDup (map fst rows) -> In (k, p) rows ->
  filter (fun r => fst r =? k) rows = [(k, p)].
Proof.
  induction rows as [|[a b] rows IH]; cbn; intros Hn Hin; [contradiction|].
  inversion Hn as [|? ? Ha Hr]; subst.
  destruct Hin as [[= -> ->] | Hin].
  - rewrite String.eqb_refl. f_equal.
    apply filter_none. intros [a b] Hab. cbn.
    apply String.eqb_neq. intros ->. apply Ha. now apply (in_map fst) in Hab.
  - destruct (String.eqb_spec a k) as [->|Hne]; [|now apply IH].
    exfalso. apply Ha. now apply (in_map fst) in Hin.
Qed.

Lemma records_absent (k : string) (rows : list row) :
  ~ In k (map fst rows) -> filter (fun r => fst r =? k) rows = [].
Proof.
  intros Hn. apply filter_none. intros [a b] Hab. cbn.
  apply String.eqb_neq. intros ->. apply Hn. now apply (in_map fst) in Hab.
Qed.

End store_facts.


(* ------------------------------------------------------------------------- *)
(** ** Paths and directories *)


Module path_facts.
Import pathlib.

Lemma split_nonempty (s : string) : split s <> [].
Proof. induction s as [|c r IH]; cbn; [discriminate|].
  destruct (c =? "/")%char; [discriminate|]. destruct (split r); discriminate. Qed.

Lemma split_no_slash (s : string) : Forall (fun x => no_slash x = true) (split s).
Proof.
  induction s as [|c r IH]; cbn.
  - repeat constructor.
  - destruct (c =? "/")%char eqn:E; [now constructor|].
    destruct (split r) as [|x xs]; [repeat constructor; cbn; now rewrite E|].
    inversion IH; subst. constructor; [cbn; now rewrite E | assumption].
Qed.

Lemma split_plain (x : string) : no_slash x = true -> split x = [x].
Proof.
  induction x as [|c r IH]; cbn; [reflexivity|].
  intros H. apply andb_true_iff in H as [Hc Hr]. apply negb_true_iff in Hc.
  rewrite Hc, (IH Hr). reflexivity.
Qed.

Lemma split_append (x rest : string) :
  no_slash x = true -> split (x ++ String "/" rest) = x :: split rest.
Proof.
  induction x as [|c r IH]; cbn; [reflexivity|].
  intros H. apply andb_true_iff in H as [Hc Hr]. apply negb_true_iff in Hc.
  rewrite Hc, (IH Hr). reflexivity.
Qed.

Lemma split_join (l : list string) :
  l <> [] -> Forall (fun x => no_slash x = true) l -> split (join l) = l.
Proof.
  induction l as [|x l IH]; [congruence|]. intros _ H.
  inversion H as [|? ? Hx Hl]; subst.
  destruct l as [|y l].
  - cbn. now apply split_plain.
  - change (join (x :: y :: l)) with (x ++ String "/" (join (y :: l))).
    rewrite split_append by assumption. f_equal. apply IH; [discriminate | assumption].
Qed.

Lemma splitroot_root (s : string) :
  fst (splitroot s) = "" \/ fst (splitroot s) = "/" \/ fst (splitroot s) = "//".
Proof.
  destruct s as [|a [|b [|c r]]]; cbn; auto;
    destruct (a =? "/")%char; cbn; auto;
    destruct (b =? "/")%char; cbn; auto;
    destruct (c =? "/")%char; cbn; auto.
Qed.

Lemma parse_well_formed (s : string) : well_formed (parse s).
Proof.
  unfold parse. pose proof (splitroot_root s) as Hr.
  destruct (splitroot s) as [r rel]. cbn [fst] in Hr. split; [exact Hr|].
  cbn [tail]. pose proof (split_no_slash rel) as H.
  induction H as [|x l Hx Hl IH]; cbn; [constructor|].
  destruct (is_part x) eqn:E; [constructor; auto | exact IH].
Qed.

Lemma filter_parts (l : list string) :
  Forall (fun x => is_part x = true /\ no_slash x = true) l -> filter is_part l = l.
Proof.
  induction 1 as [|x l [Hx _] _ IH]; cbn; [reflexivity|]. now rewrite Hx, IH.
Qed.

Lemma part_head (x : string) :
  is_part x = true -> no_slash x = true ->
  exists c r, x = String c r /\ (c =? "/")%char = false.
Proof.
  destruct x as [|c r]; cbn; [discriminate|]. intros _ H.
  apply andb_true_iff in H as [Hc _]. apply negb_true_iff in Hc. eauto.
Qed.

Lemma join_head (l : list string) :
  l <> [] -> Forall (fun x => is_part x = true /\ no_slash x = true) l ->
  exists c r, join l = String c r /\ (c =? "/")%char = false.
Proof.
  destruct l as [|x l]; [congruence|]. intros _ H.
  inversion H as [|? ? [Hp Hs] Hl]; subst.
  destruct (part_head x Hp Hs) as (c & r & -> & Hc).
  destruct l; cbn; eauto.
Qed.

(** Parsing the text of a well-formed path with components gives it back. *)
Lemma parse_root_join (r : string) (l : list string) :
  well_formed (mkPath r l) -> l <> [] -> parse (r ++ join l) = mkPath r l.
Proof.
  intros [Hr Hl] Hne. cbn [root tail] in *.
  destruct (join_head l Hne Hl) as (c & rest & E & Hc).
  assert (Hs : splitroot (r ++ join l) = (r, join l)).
  { rewrite E. destruct Hr as [->|[->| ->]]; cbn; now rewrite Hc. }
  unfold parse. rewrite Hs. f_equal.
  rewrite split_join; [now apply filter_parts | exact Hne |].
  eapply Forall_impl; [|exact Hl]. now intros x [_ H].
Qed.

Lemma str_with_tail (r : string) (l : list string) :
  well_formed (mkPath r l) -> l <> [] -> str (mkPath r l) = r ++ join l.
Proof.
  intros [Hr Hl] Hne. unfold str. cbn [root tail] in *.
  destruct (join_head l Hne Hl) as (c & rest & E & Hc). rewrite E.
  destruct Hr as [->|[->| ->]]; reflexivity.
Qed.

Lemma join_snoc (l : list string) (x : string) :
  l <> [] -> join l ++ x = join (removelast l ++ [last l "" ++ x]).
Proof.
  induction l as [|y l IH]; [congruence|]. intros _.
  destruct l as [|z l]; [reflexivity|].
  change (join (y :: z :: l)) with (y ++ String "/" (join (z :: l))).
  change (removelast (y :: z :: l)) with (y :: removelast (z :: l)).
  change (last (y :: z :: l) "") with (last (z :: l) "").
  rewrite append_assoc. cbn [append]. rewrite IH by discriminate.
  cbn [List.app]. destruct (removelast (z :: l) ++ [(last (z :: l) "" ++ x)%string])%list eqn:E.
  - destruct (removelast (z :: l)); discriminate E.
  - reflexivity.
Qed.

Lemma Forall_removelast {A} (P : A -> Prop) (l : list A) :
  Forall P l -> Forall P (removelast l).
Proof.
  induction 1 as [|x l Hx Hl IH]; cbn; [constructor|].
  destruct l; [constructor | now constructor].
Qed.

Lemma Forall_last {A} (P : A -> Prop) (l : list A) (d : A) :
  l <> [] -> Forall P l -> P (last l d).
Proof.
  induction l as [|x l IH]; [congruence|]. intros _ H.
  inversion H; subst. destruct l; [assumption|]. apply IH; [discriminate | assumption].
Qed.

Lemma no_slash_append (a b : string) :
  no_slash (a ++ b) = no_slash a && no_slash b.
Proof.
  induction a as [|c a IH]; cbn; [reflexivity|]. now rewrite IH, andb_assoc.
Qed.

Lemma part_with_db (y : string) :
  is_part y = true /\ no_slash y = true ->
  is_part (y ++ ".db") = true /\ no_slash (y ++ ".db") = true.
Proof.
  intros [Hp Hs]. split.
  - destruct y as [|c y]; [reflexivity|]. unfold is_part. cbn.
    destruct (c =? ".")%char; [|reflexivity]. destruct y; reflexivity.
  - rewrite no_slash_append, Hs. reflexivity.
Qed.

(** Appending [".db"] to the text of a path changes its last component only,
    and the new path is written as that text. *)
Lemma parse_str_db (p : Path) :
  well_formed p ->
  exists x, parse (str p ++ ".db") = mkPath (root p) (removelast (tail p) ++ [x])
            /\ str (parse (str p ++ ".db")) = str p ++ ".db".
Proof.
  destruct p as [r l]. intros Hw. pose proof Hw as [Hr Hl]. cbn [root tail] in *.
  destruct l as [|y l'].
  - destruct Hr as [->|[->| ->]]; cbn; eexists; split; reflexivity.
  - set (l := y :: l') in *. assert (Hne : l <> []) by discriminate.
    rewrite str_with_tail by assumption.
    rewrite append_assoc, join_snoc by assumption.
    assert (Hw' : well_formed (mkPath r (removelast l ++ [last l "" ++ ".db"]))).
    { split; [exact Hr|]. cbn [tail]. apply Forall_app. split.
      - now apply Forall_removelast.
      - constructor; [|constructor]. apply part_with_db.
        exact (Forall_last (fun x => is_part x = true /\ no_slash x = true) l "" Hne Hl). }
    assert (Hne' : (removelast l ++ [(last l "" ++ ".db")%string])%list <> [])
      by (destruct (removelast l); discriminate).
    rewrite parse_root_join by assumption.
    exists (last l "" ++ ".db"). split; [reflexivity|].
    now apply str_with_tail.
Qed.

Lemma path_eqb_refl (p : Path) : eqb p p = true.
Proof.
  unfold eqb. rewrite String.eqb_refl.
  destruct (list_eq_dec string_dec (tail p) (tail p)); [reflexivity | congruence].
Qed.

Lemma path_eqb_eq (p q : Path) : eqb p q = true -> p = q.
Proof.
  unfold eqb. destruct p as [r l], q as [r' l']. cbn [root tail].
  intros H. apply andb_true_iff in H as [H1 H2]. apply String.eqb_eq in H1.
  destruct (list_eq_dec string_dec l l'); [|discriminate]. now subst.
Qed.

Lemma os_mkdir_inl (fs fs' : filesystem) (p : Path) :
  os_mkdir fs p = inl fs' -> fs' = create fs p Dir /\ fs p = None.
Proof.
  unfold os_mkdir. destruct (fs p); [discriminate|].
  destruct (tail p); [discriminate|].
  destruct (fs (parent p)) as [[]|]; try discriminate. now intros [= <-].
Qed.

Lemma create_keeps (fs : filesystem) (p q : Path) (k : kind) :
  fs p = None -> fs q <> None -> create fs p k q = fs q.
Proof.
  intros Hp Hq. unfold create. destruct (eqb q p) eqn:E; [|reflexivity].
  apply path_eqb_eq in E. subst. contradiction.
Qed.

Lemma is_dir_create (fs : filesystem) (p : Path) : is_dir (create fs p Dir) p = true.
Proof. unfold is_dir, create. now rewrite path_eqb_refl. Qed.

(** [mkdir] leaves a directory at the path and touches nothing that was
    there before. *)
Lemma mkdir_rev_spec (r : string) (rtail : list string) (fs fs' : filesystem) :
  mkdir_rev fs r rtail = Some fs' ->
  is_dir fs' (mkPath r (List.rev rtail)) = true
  /\ forall q, fs q <> None -> fs' q = fs q.
Proof.
  revert fs fs'. induction rtail as [|x up IH]; intros fs fs'; cbn [mkdir_rev].
  - destruct (os_mkdir fs _) as [f|[]] eqn:E.
    + intros [= <-]. apply os_mkdir_inl in E as [-> Hn].
      split; [apply is_dir_create | intros q Hq; now apply create_keeps].
    + discriminate.
    + destruct (is_dir fs _) eqn:D; [|discriminate]. intros [= <-]. now split.
  - destruct (os_mkdir fs _) as [f|[]] eqn:E.
    + intros [= <-]. apply os_mkdir_inl in E as [-> Hn].
      split; [apply is_dir_create | intros q Hq; now apply create_keeps].
    + destruct (mkdir_rev fs r up) as [fs1|] eqn:E1; [|discriminate].
      apply IH in E1 as [_ Hk].
      destruct (os_mkdir fs1 _) as [f2|[]] eqn:E2.
      * intros [= <-]. apply os_mkdir_inl in E2 as [-> Hn].
        split; [apply is_dir_create|]. intros q Hq.
        rewrite create_keeps; [now apply Hk | exact Hn | rewrite Hk; assumption].
      * discriminate.
      * destruct (is_dir fs1 _) eqn:D; [|discriminate]. intros [= <-]. now split.
    + destruct (is_dir fs _) eqn:D; [|discriminate]. intros [= <-]. now split.
Qed.

Lemma mkdir_spec (fs fs' : filesystem) (p : Path) :
  mkdir fs p = Some fs' ->
  is_dir fs' p = true /\ forall q, fs q <> None -> fs' q = fs q.
Proof.
  unfold mkdir. intros H. apply mkdir_rev_spec in H.
  rewrite rev_involutive in H. now destruct p.
Qed.

Lemma no_slash_sep (a b : string) : no_slash (a ++ String "/" b) = false.
Proof. rewrite no_slash_append. cbn. apply andb_false_r. Qed.

(** Only the one-component relative path [":memory:"] is written [":memory:"]. *)
Lemma str_memory (q : Path) :
  well_formed q -> str q = ":memory:" -> root q = "" /\ tail q = [":memory:"].
Proof.
  destruct q as [r l]. intros [Hr Hl] H. cbn [root tail] in *.
  unfold str in H. cbn [root tail] in H.
  destruct l as [|x l].
  - destruct Hr as [->|[->| ->]]; discriminate H.
  - assert (Hj : r ++ join (x :: l) = ":memory:").
    { destruct (r ++ join (x :: l) =? "") eqn:E; [discriminate H | exact H]. }
    destruct Hr as [->|[->| ->]]; try discriminate Hj.
    split; [reflexivity|]. cbn [append] in Hj.
    destruct l as [|y l]; [cbn in Hj; now subst|].
    exfalso. change (join (x :: y :: l)) with (x ++ String "/" (join (y :: l))) in Hj.
    pose proof (no_slash_sep x (join (y :: l))) as Hs. rewrite Hj in Hs. discriminate Hs.
Qed.

Lemma truediv_duckno (p : Path) :
  truediv p "duckno.db" = mkPath (root p) (tail p ++ ["duckno.db"]).
Proof. reflexivity. Qed.

Lemma well_formed_truediv (p : Path) :
  well_formed p -> well_formed (truediv p "duckno.db").
Proof.
  intros [Hr Hl]. rewrite truediv_duckno. split; [exact Hr|]. cbn [tail].
  apply Forall_app. split; [exact Hl|]. repeat constructor.
Qed.

Lemma truediv_not_memory (p : Path) :
  well_formed p -> str (truediv p "duckno.db") <> ":memory:".
Proof.
  intros Hw H. apply str_memory in H as [_ H]; [|now apply well_formed_truediv].
  rewrite truediv_duckno in H. cbn [tail] in H.
  destruct (tail p) as [|x [|y l]]; discriminate H.
Qed.

Lemma db_not_memory (a : string) : a ++ ".db" <> ":memory:".
Proof.
  destruct a as [|c1 [|c2 [|c3 [|c4 [|c5 [|c6 [|c7 [|c8 [|c9 a]]]]]]]]];
    cbn; congruence.
Qed.

Lemma suffix_memory (p : Path) :
  well_formed p -> str p = ":memory:" -> suffix p = "".
Proof.
  intros Hw H. apply str_memory in H as [_ H]; [|exact Hw].
  unfold suffix, name. now rewrite H.
Qed.

End path_facts.

(* ------------------------------------------------------------------------- *)
(** ** Calls and histories *)

Module history_facts.
Import duckdb DuckNo engine_facts store_facts.


(** The keys in the table after some calls: those that were there and those
    that calls of [set] stored. *)
Lemma keys_after_calls (calls : list call) (s : DuckNo.t) (k : string) :
  In k (map fst (committed (_conn (run_calls s calls))))
  <-> In k (map fst (committed (_conn s))) \/ In k (keys_set s calls).
Proof.
  revert s. induction calls as [|c cs IH]; intros s.
  - cbn. tauto.
  - change (run_calls s (c :: cs)) with (run_calls (step s c) cs). rewrite IH.
    destruct c as [f key v | f key d | f].
    + cbn [step keys_set].
      destruct (set f s key v) as [r s'] eqn:E. cbn [fst snd].
      pose proof (set_cases _ _ _ _ _ _ E) as (_ & _ & _ & H).
      destruct r as [[]|e].
      * destruct H as (_ & _ & k0 & p & -> & _ & _ & Hc).
        rewrite E. cbn [fst snd]. rewrite Hc, in_keys_upsert. cbn [In].
        split; intros H; intuition congruence.
      * destruct H as (Hc & _). rewrite Hc.
        destruct key; try tauto. rewrite E. cbn [fst snd]. tauto.
    + destruct (get_same_store f s key d) as (_ & _ & _ & Hc & _).
      cbn [step keys_set]. rewrite Hc. tauto.
    + destruct (keys_same_store f s) as (_ & _ & _ & Hc & _).
      cbn [step keys_set]. rewrite Hc. tauto.
Qed.

End history_facts.

(* ------------------------------------------------------------------------- *)
(** ** The constructor *)

Module init_facts.
Import pathlib duckdb DuckNo path_facts.

Lemma sentinel_iff (db_path : option string) :
  is_sentinel db_path = true <-> db_path = Some ":memory:".
Proof.
  destruct db_path as [s|]; cbn.
  - rewrite String.eqb_eq. split; congruence.
  - split; discriminate.
Qed.

Lemma init_memory fails w db_path memory table_name st w' :
  memory || is_sentinel db_path = true ->
  __init__ fails w db_path memory table_name = (Ok st, w') ->
  st = mk table_name None (mkConn ":memory:" [] None [CREATE_TABLE_IF_NOT_EXISTS])
  /\ w' = w.
Proof.
  unfold __init__, is_sentinel. intros ->.
  unfold connect, _ensure_schema, execute.
  destruct (fails 0); [discriminate|]. destruct (fails 1); [discriminate|].
  cbn. now intros [= <- <-].
Qed.

Lemma init_file fails w db_path memory table_name st w' :
  memory || is_sentinel db_path = false ->
  __init__ fails w db_path memory table_name = (Ok st, w') ->
  exists db_file f,
    resolve w db_path = Some (db_file, f)
    /\ st = mk table_name (Some db_file)
              (mkConn (str db_file) (disk w (str db_file) table_name) None
                      [CREATE_TABLE_IF_NOT_EXISTS])
    /\ fs w' = (if exists_ f db_file then f else create f db_file File).
Proof.
  unfold __init__, is_sentinel. intros ->.
  destruct (resolve w db_path) as [[db_file f]|]; [|discriminate].
  unfold connect, _ensure_schema, execute.
  destruct (fails 0); [discriminate|]. destruct (fails 1); [discriminate|].
  cbn. intros [= <- <-]. exists db_file, f. repeat split.
Qed.

(** No file the constructor resolves is written like the sentinel. *)
Lemma resolve_not_memory (w : world) (db_path : option string) db_file f :
  resolve w db_path = Some (db_file, f) -> str db_file <> ":memory:".
Proof.
  unfold resolve. destruct db_path as [s|].
  - pose proof (parse_well_formed s) as Hw.
    destruct (suffix (parse s) =? "") eqn:Es.
    + apply String.eqb_eq in Es.
      destruct (exists_ (fs w) (parse s) && is_dir (fs w) (parse s)).
      * destruct (mkdir _ _); [|discriminate]. intros [= <- _].
        now apply truediv_not_memory.
      * destruct (make_parent _ _); [|discriminate]. rewrite Es. cbn.
        intros [= <- _]. destruct (parse_str_db _ Hw) as (x & _ & ->).
        apply db_not_memory.
    + destruct (make_parent _ _); [|discriminate]. intros [= <- _] H.
      apply suffix_memory in H; [|exact Hw]. rewrite H in Es. discriminate Es.
  - intros [= <- _]. apply truediv_not_memory. apply parse_well_formed.
Qed.

Lemma init_inv fails w db_path memory table_name s w' :
  disk_ok w ->
  __init__ fails w db_path memory table_name = (Ok s, w') -> inv s.
Proof.
  intros Hd E. destruct (memory || is_sentinel db_path) eqn:B.
  - apply init_memory in E as [-> _]; [|exact B]. split; [reflexivity | constructor].
  - apply init_file in E as (db_file & f & _ & -> & _); [|exact B].
    split; [reflexivity | apply Hd].
Qed.

Lemma reachable_inv (s : DuckNo.t) : reachable s -> inv s.
Proof.
  induction 1 as [? ? ? ? ? ? ? Hd Hi | s c _ IH].
  - eapply init_inv; eassumption.
  - now apply store_facts.step_inv.
Qed.

End init_facts.

(* ------------------------------------------------------------------------- *)
(** ** More on the calls of a store *)

Module more_store_facts.
Import pathlib duckdb DuckNo engine_facts store_facts.

(** The result of [get], for every key and every fault. *)
Lemma get_outcome (f : nat -> bool) (s : DuckNo.t) (key d : value) :
  fst (get f s key d)
  = match _validate_key key with
    | Raise e => Raise e
    | Ok k =>
        if f 0 then Raise DuckDBError
        else match records k s with
             | [] => Ok d
             | r :: _ => match json.loads (snd r) with
                         | Some x => Ok x
                         | None => Raise JSONDecodeError
                         end
             end
    end.
Proof.
  unfold get, records. destruct (_validate_key key) as [k|e]; [|reflexivity].
  unfold execute. destruct (f 0); [reflexivity|]. cbn.
  destruct (filter _ _) as [|r rows]; cbn; [reflexivity|].
  destruct (json.loads _); reflexivity.
Qed.

(** What [get] returns depends on the records of the key only. *)
Lemma get_by_records (f : nat -> bool) (s1 s2 : DuckNo.t) (key d : value) :
  (forall k, records k s1 = records k s2) ->
  fst (get f s1 key d) = fst (get f s2 key d).
Proof.
  intros H. rewrite !get_outcome. destruct (_validate_key key) as [k|e]; [|reflexivity].
  now rewrite H.
Qed.

Lemma keys_by_view (f : nat -> bool) (s1 s2 : DuckNo.t) :
  view (_conn s1) = view (_conn s2) -> fst (keys f s1) = fst (keys f s2).
Proof.
  intros H. unfold keys, execute. destruct (f 0); [reflexivity|].
  cbn [run fst]. 
  change (view (duckdb.log SELECT_k_ORDER_BY_k (_conn s1))) with (view (_conn s1)).
  change (view (duckdb.log SELECT_k_ORDER_BY_k (_conn s2))) with (view (_conn s2)).
  now rewrite H.
Qed.

Lemma upsert_twice (k p q : string) (rows : list row) :
  upsert k p (upsert k q rows) = upsert k p rows.
Proof.
  unfold upsert. rewrite filter_app. cbn. rewrite String.eqb_refl. cbn.
  rewrite app_nil_r. f_equal.
  induction rows as [|[a b] rows IH]; cbn; [reflexivity|].
  destruct (a =? k) eqn:E; cbn; [exact IH|]. now rewrite E, IH.
Qed.

Lemma length_deleted (k : string) (rows : list row) :
  NoDup (map fst rows) ->
  List.length (filter (fun r => negb (fst r =? k)) rows)
  + (if has_key k rows then 1 else 0) = List.length rows.
Proof.
  unfold has_key.
  induction rows as [|[a b] rows IH]; cbn; intros Hn; [reflexivity|].
  inversion Hn as [|? ? Ha Hr]; subst. specialize (IH Hr).
  destruct (String.eqb_spec a k) as [->|Hne]; cbn.
  - assert (E : existsb (fun r => fst r =? k) rows = false).
    { apply not_true_is_false. intros E.
      apply existsb_exists in E as ((a, b') & Hin & Ek). cbn in Ek.
      apply String.eqb_eq in Ek. subst a. exfalso. apply Ha.
      now apply (in_map fst) in Hin. }
    rewrite E in IH. lia.
  - lia.
Qed.

Lemma has_key_In (k : string) (rows : list row) :
  has_key k rows = true <-> In k (map fst rows).
Proof.
  unfold has_key. rewrite existsb_exists, in_map_iff. split.
  - intros (r & Hin & E). apply String.eqb_eq in E. eauto.
  - intros (r & E & Hin). exists r. split; [exact Hin | now apply String.eqb_eq].
Qed.

End more_store_facts.

(* ------------------------------------------------------------------------- *)
(** ** What the encoder accepts and what it writes *)

Module encoder_facts.
Import pathlib duckdb DuckNo.
Import json json_facts.

Lemma key_str_ok (k : value) :
  match key_str k with Some _ => key_ok k = true | None => key_ok k = false end.
Proof. destruct k as [|[]| | | | | | |]; reflexivity. Qed.

Lemma dump_elems_agrees (l : list value) :
  Forall agrees l ->
  match dump_elems dumps l with
  | Some _ => forallb serializable l = true
  | None => forallb serializable l = false
  end.
Proof.
  induction 1 as [|v vs Hv Hvs IH]; [reflexivity|].
  rewrite dump_elems_eq. unfold agrees in Hv. cbn [forallb].
  destruct (dumps v) as [tv|]; rewrite Hv; [|reflexivity].
  destruct vs as [|v' r]; [reflexivity|].
  destruct (dump_elems dumps (v' :: r)); cbn [cat andb]; exact IH.
Qed.

Lemma dump_members_agrees (items : list (value * value)) :
  Forall (fun kv => agrees (snd kv)) items ->
  match dump_members dumps items with
  | Some _ => forallb (fun kv => key_ok (fst kv) && serializable (snd kv)) items = true
  | None => forallb (fun kv => key_ok (fst kv) && serializable (snd kv)) items = false
  end.
Proof.
  induction 1 as [|kv kvs Hv Hvs IH]; [reflexivity|].
  rewrite dump_members_eq. unfold agrees in Hv. cbn [forallb].
  pose proof (key_str_ok (fst kv)) as Hk.
  destruct (key_str (fst kv)) as [ks|]; rewrite Hk; [|reflexivity].
  destruct (dumps (snd kv)) as [tv|]; rewrite Hv; [|reflexivity].
  destruct kvs as [|kv' r]; [reflexivity|].
  destruct (dump_members dumps (kv' :: r)); cbn [cat andb option_map]; exact IH.
Qed.

Lemma dumps_agrees (v : value) : agrees v.
Proof.
  induction v as [| b | n | x | s | l IH | l IH | items IH | b] using value_nested_ind;
    unfold agrees; cbn [dumps serializable]; try reflexivity.
  - destruct b; reflexivity.
  - pose proof (dump_elems_agrees l IH) as H.
    destruct (dump_elems dumps l); exact H.
  - pose proof (dump_elems_agrees l IH) as H.
    destruct (dump_elems dumps l); exact H.
  - pose proof (dump_members_agrees items IH) as H.
    destruct (dump_members dumps items); exact H.
Qed.

(** [dumps] raises exactly on the values that are not serializable. *)
Lemma dumps_None_iff (v : value) : dumps v = None <-> serializable v = false.
Proof.
  pose proof (dumps_agrees v) as H. unfold agrees in H.
  destruct (dumps v); rewrite H; split; congruence.
Qed.

Lemma printable_append (a b : string) :
  printable (a ++ b) = printable a && printable b.
Proof.
  induction a as [|c a IH]; cbn; [reflexivity|]. now rewrite IH, andb_assoc.
Qed.

Lemma escape_printable (c : ascii) : printable (escape c) = true.
Proof. destruct c as [[] [] [] [] [] [] [] []]; reflexivity. Qed.

Lemma escape_all_printable (s : string) : printable (escape_all s) = true.
Proof.
  induction s as [|c s IH]; cbn; [reflexivity|].
  now rewrite printable_append, escape_printable, IH.
Qed.

Lemma encode_basestring_printable (s : string) : printable (encode_basestring s) = true.
Proof.
  unfold encode_basestring. cbn. now rewrite printable_append, escape_all_printable.
Qed.

Lemma string_of_uint_printable (d : uint) : printable (string_of_uint d) = true.
Proof. induction d; cbn; auto. Qed.

Lemma str_int_printable (n : Z) : printable (str_int n) = true.
Proof. destruct n; cbn; auto using string_of_uint_printable. Qed.

Lemma floatstr_printable (x : float.t) : printable (floatstr x) = true.
Proof.
  unfold floatstr, float.repr.
  destruct (float.data x) as [|[]|[]|neg m e]; try reflexivity.
  destruct (float.shortest neg m e) as [c k].
  destruct (float.format c k) as [[n frac] exp]. unfold float.literal_text.
  rewrite !printable_append, string_of_uint_printable.
  destruct neg, frac as [d|], exp as [[[] u]|]; cbn;
    now rewrite ?string_of_uint_printable.
Qed.

Lemma dump_elems_printable (l : list value) :
  Forall (fun v => forall t, dumps v = Some t -> printable t = true) l ->
  forall y, dump_elems dumps l = Some y -> printable y = true.
Proof.
  induction 1 as [|v vs Hv Hvs IH]; intros y Hy.
  - now injection Hy as <-.
  - apply dump_elems_cons in Hy as (tv & z & Hdv & -> & Hz).
    rewrite printable_append, (Hv tv Hdv). cbn.
    destruct vs as [|v' r]; [now subst|].
    destruct Hz as (y' & Hy' & ->). cbn. now apply IH.
Qed.

Lemma dump_members_printable (items : list (value * value)) :
  Forall (fun kv => forall t, dumps (snd kv) = Some t -> printable t = true) items ->
  forall y, dump_members dumps items = Some y -> printable y = true.
Proof.
  induction 1 as [|kv kvs Hv Hvs IH]; intros y Hy.
  - now injection Hy as <-.
  - apply dump_members_cons in Hy as (ks & tv & z & _ & Hdv & -> & Hz).
    rewrite printable_append, encode_basestring_printable. cbn.
    rewrite printable_append, (Hv tv Hdv). cbn.
    destruct kvs as [|kv' r]; [now subst|].
    destruct Hz as (y' & Hy' & ->). cbn. now apply IH.
Qed.

(** The encoder writes no control character. *)
Lemma dumps_printable (v : value) (t : string) : dumps v = Some t -> printable t = true.
Proof.
  revert t.
  induction v as [| b | n | x | s | l IH | l IH | items IH | b] using value_nested_ind;
    intros t Ht; cbn [dumps] in Ht.
  - now injection Ht as <-.
  - destruct b; now injection Ht as <-.
  - injection Ht as <-. apply str_int_printable.
  - injection Ht as <-. apply floatstr_printable.
  - injection Ht as <-. apply encode_basestring_printable.
  - apply cat_Some in Ht as (x & y & [= <-] & Hy & ->). cbn.
    now apply (dump_elems_printable l IH).
  - apply cat_Some in Ht as (x & y & [= <-] & Hy & ->). cbn.
    now apply (dump_elems_printable l IH).
  - apply cat_Some in Ht as (x & y & [= <-] & Hy & ->). cbn.
    now apply (dump_members_printable items IH).
  - discriminate Ht.
Qed.

End encoder_facts.

(* ------------------------------------------------------------------------- *)
(** ** More on paths and on the file the constructor resolves *)

Module more_path_facts.
Import pathlib duckdb DuckNo path_facts init_facts.


Lemma name_truediv (p : Path) : name (truediv p "duckno.db") = "duckno.db".
Proof. rewrite truediv_duckno. unfold name. cbn [tail]. apply last_last. Qed.

Lemma suffix_truediv (p : Path) : suffix (truediv p "duckno.db") = ".db".
Proof. unfold suffix. now rewrite name_truediv. Qed.



(** A well-formed path is what its text parses to. *)
Lemma parse_str (q : Path) : well_formed q -> parse (str q) = q.
Proof.
  destruct q as [r l]. intros Hw. destruct l as [|x l].
  - destruct Hw as [Hr _]. cbn in Hr. destruct Hr as [->|[->| ->]]; reflexivity.
  - rewrite str_with_tail by (assumption || discriminate).
    apply parse_root_join; [assumption | discriminate].
Qed.

Lemma rfind_db (y : string) :
  exists i, rfind "." (y ++ ".db") = Some i /\ String.length y <= i
            /\ i < String.length y + 2
            /\ substring i (String.length (y ++ ".db") - i) (y ++ ".db") <> "".
Proof.
  induction y as [|c y IH].
  - exists 0. cbn. repeat split; try lia. discriminate.
  - destruct IH as (i & Hi & H1 & H2 & H3). exists (S i).
    cbn [append rfind String.length]. rewrite Hi. repeat split; try lia.
    cbn [substring Nat.sub]. exact H3.
Qed.

(** A name with [".db"] appended has a suffix, unless it was empty. *)
Lemma suffix_with_db (r : string) (l : list string) (y : string) :
  y <> "" -> suffix (mkPath r (l ++ [y ++ ".db"])) <> "".
Proof.
  intros Hy. unfold suffix, name. cbn [tail]. rewrite last_last.
  destruct (rfind_db y) as (i & Hi & H1 & H2 & H3). rewrite Hi.
  assert (Hlen : String.length (y ++ ".db") = String.length y + 3)
    by (rewrite length_append; reflexivity).
  assert (0 < String.length y) by (destruct y; [congruence | cbn; lia]).
  replace (Nat.ltb 0 i) with true by (symmetry; apply Nat.ltb_lt; lia).
  replace (Nat.ltb i (String.length (y ++ ".db") - 1)) with true
    by (symmetry; apply Nat.ltb_lt; lia).
  exact H3.
Qed.

Lemma create_other (f : filesystem) (p q : Path) (k : kind) :
  q <> p -> create f p k q = f q.
Proof.
  intros Hne. unfold create. destruct (eqb q p) eqn:E; [|reflexivity].
  apply path_eqb_eq in E. contradiction.
Qed.


Lemma mkdir_below_file (f : filesystem) (q : Path) :
  f q = None -> tail q <> [] -> f (parent q) = Some File -> mkdir f q = None.
Proof.
  intros Hq Hne Hf. unfold mkdir.
  assert (Hp : mkPath (root q) (List.rev (List.rev (tail q))) = q)
    by (rewrite rev_involutive; now destruct q).
  assert (Ho : os_mkdir f q = inr false).
  { unfold os_mkdir. rewrite Hq. destruct (tail q); [congruence|]. now rewrite Hf. }
  assert (Hd : is_dir f q = false) by (unfold is_dir; now rewrite Hq).
  destruct (List.rev (tail q)) as [|x up] eqn:E; cbn [mkdir_rev]; rewrite Hp, Ho, Hd;
    reflexivity.
Qed.

Lemma resolve_well_formed (w : world) (db_path : option string) db_file f :
  resolve w db_path = Some (db_file, f) -> well_formed db_file.
Proof.
  unfold resolve. destruct db_path as [s|].
  - pose proof (parse_well_formed s) as Hw.
    destruct (suffix (parse s) =? "") eqn:Es.
    + apply String.eqb_eq in Es.
      destruct (exists_ (fs w) (parse s) && is_dir (fs w) (parse s)).
      * destruct (mkdir _ _); [|discriminate]. intros [= <- _].
        now apply well_formed_truediv.
      * destruct (make_parent _ _); [|discriminate]. rewrite Es. cbn.
        intros [= <- _]. apply parse_well_formed.
    + destruct (make_parent _ _); [|discriminate]. now intros [= <- _].
  - intros [= <- _]. apply well_formed_truediv, parse_well_formed.
Qed.

(** The name the constructor gives a bare path. *)
Lemma parse_str_db_tail (p : Path) :
  well_formed p -> tail p <> [] ->
  parse (str p ++ ".db") = mkPath (root p) (removelast (tail p) ++ [last (tail p) "" ++ ".db"])
  /\ last (tail p) "" <> "".
Proof.
  destruct p as [r l]. intros Hw Hne. pose proof Hw as [Hr Hl]. cbn [root tail] in *.
  assert (Hlast : is_part (last l "") = true /\ no_slash (last l "") = true)
    by exact (Forall_last (fun x => is_part x = true /\ no_slash x = true) l "" Hne Hl).
  split.
  - rewrite str_with_tail by assumption.
    rewrite append_assoc, join_snoc by assumption.
    apply parse_root_join.
    + split; [exact Hr|]. cbn [tail]. apply Forall_app. split.
      * now apply Forall_removelast.
      * constructor; [|constructor]. now apply part_with_db.
    + destruct (removelast l); discriminate.
  - destruct Hlast as [Hp _]. intros E. rewrite E in Hp. discriminate Hp.
Qed.

(** Every file the constructor resolves has a suffix, the two paths [/.db]
    and [//.db] apart. *)
Lemma resolve_suffix (w : world) (db_path : option string) db_file f :
  resolve w db_path = Some (db_file, f) ->
  str db_file <> "/.db" -> str db_file <> "//.db" ->
  suffix db_file <> "".
Proof.
  unfold resolve. destruct db_path as [s|].
  - pose proof (parse_well_formed s) as Hw.
    destruct (suffix (parse s) =? "") eqn:Es.
    + apply String.eqb_eq in Es.
      destruct (exists_ (fs w) (parse s) && is_dir (fs w) (parse s)).
      * destruct (mkdir _ _); [|discriminate]. intros [= <- _] _ _.
        rewrite suffix_truediv. discriminate.
      * destruct (make_parent _ _); [|discriminate]. rewrite Es. cbn.
        intros [= <- _] H1 H2.
        destruct (tail (parse s)) as [|x l] eqn:Et.
        -- destruct (parse s) as [r t]. cbn in Et. subst t.
           destruct Hw as [[Hr|[Hr|Hr]] _]; cbn in Hr; subst r.
           ++ cbn. discriminate.
           ++ exfalso. apply H1. reflexivity.
           ++ exfalso. apply H2. reflexivity.
        -- assert (Hne : tail (parse s) <> []) by (rewrite Et; discriminate).
           destruct (parse_str_db_tail _ Hw Hne) as [-> Hy].
           now apply suffix_with_db.
    + destruct (make_parent _ _); [|discriminate]. intros [= <- _] _ _.
      now apply String.eqb_neq.
  - intros [= <- _] _ _. rewrite suffix_truediv. discriminate.
Qed.

End more_path_facts.

(* ------------------------------------------------------------------------- *)
(** ** The example program *)

Module example_facts.
Import pathlib duckdb DuckNo.
Import lifetime example.
Import engine_facts store_facts more_store_facts encoder_facts path_facts init_facts
       more_path_facts.

Lemma get_Ok_after_set (f : nat -> bool) (s : DuckNo.t) (k p : string) (d x : value)
    (s' : DuckNo.t) :
  records k s = [(k, p)] -> get f s (PyStr k) d = (Ok x, s') ->
  json.loads p = Some x /\ same_store s s'.
Proof.
  intros Hr E. split.
  - pose proof (get_outcome f s (PyStr k) d) as H. rewrite E in H. cbn [fst] in H.
    destruct (_validate_key (PyStr k)) as [k1|e] eqn:Ek; [|discriminate H].
    apply validate_key_Ok in Ek as [[= <-] _]. rewrite Hr in H. cbn [snd] in H.
    destruct (f 0); [discriminate H|].
    destruct (json.loads p); [congruence | discriminate H].
  - pose proof (get_same_store f s (PyStr k) d) as H. now rewrite E in H.
Qed.

Lemma keys_Ok (f : nat -> bool) (s s' : DuckNo.t) (l : list string) :
  keys f s = (Ok l, s') ->
  l = sort (map fst (view (_conn s))) /\ same_store s s'.
Proof.
  intros E. split.
  - unfold keys, execute in E. destruct (f 0); [discriminate E|].
    cbn in E. now injection E as <- _.
  - pose proof (keys_same_store f s) as H. now rewrite E in H.
Qed.

(** What one block of [main] prints when it gets to its end. *)
Lemma use_Ok (fails : nat -> nat -> bool) (s s' : DuckNo.t) (k : string) (v : value)
    (out : list printed) :
  use fails s k v = (Ok out, s') ->
  exists l,
    out = [Shown k (decoded v); ShownKeys l; ShownPath (database_path s)]
    /\ In k l /\ StronglySorted lex_le l
    /\ (committed (_conn s) = [] -> l = [k]).
Proof.
  unfold use. destruct (set (fails 0) s (PyStr k) v) as [[[]|e] s1] eqn:E1; [|discriminate].
  pose proof (set_cases _ _ _ _ _ _ E1)
    as (_ & Hf1 & _ & _ & Hi1 & k0 & p & [= <-] & _ & Hp & Hc1).
  assert (Hr1 : records k s1 = [(k, p)]).
  { unfold records. rewrite idle_view, Hc1 by assumption. apply filter_upsert_same. }
  destruct (get (fails 1) s1 (PyStr k) PyNone) as [[x|e] s2] eqn:E2; [|discriminate].
  apply (get_Ok_after_set _ _ _ p) in E2 as [Hx (_ & Hf2 & _ & Hc2 & Hp2)];
    [|exact Hr1].
  rewrite (json_facts.loads_dumps v p Hp) in Hx. injection Hx as <-.
  destruct (keys (fails 2) s2) as [[l|e] s3] eqn:E3; [|discriminate].
  apply keys_Ok in E3 as [-> (_ & Hf3 & _ & _ & _)].
  intros [= <- <-]. eexists. split; [|split; [|split]].
  - unfold database_path. now rewrite Hf3, Hf2, Hf1.
  - eapply Permutation_in; [symmetry; apply order_facts.sort_perm|].
    unfold view. rewrite Hp2, Hc2. rewrite Hi1, Hc1. apply in_keys_upsert. now left.
  - apply order_facts.sort_sorted.
  - intros H0. unfold view. rewrite Hp2, Hc2, Hi1, Hc1, H0. reflexivity.
Qed.



Lemma resolve_explicit (w : world) (s : string) db_file f :
  suffix (parse s) <> "" ->
  resolve w (Some s) = Some (db_file, f) ->
  db_file = parse s /\ make_parent (fs w) (parse s) = Some f.
Proof.
  intros Hsuf Hr. unfold resolve in Hr. apply String.eqb_neq in Hsuf. rewrite Hsuf in Hr.
  destruct (make_parent (fs w) (parse s)) as [f0|]; [|discriminate].
  now injection Hr as <- <-.
Qed.


End example_facts.

(* ------------------------------------------------------------------------- *)
(** ** Properties of the store *)

Import pathlib duckdb DuckNo.

(** The constructor on the examples' worlds. *)
Example empty_store_constructed :
  __init__ no_faults bare_world None true "duckno_kv" = (Ok empty_store, bare_world).
Proof. reflexivity. Qed.

Example reopened_store_constructed :
  fst (__init__ no_faults used_world (Some "kv.db") false "duckno_kv") = Ok reopened_store.
Proof. reflexivity. Qed.

(** Floats as [json.dumps] writes them and as [json.loads] reads them. *)
Example floats_written_and_read :
  json.dumps (PyList [PyFloat tenth; PyFloat one_and_a_half;
                      PyFloat (float.make (float.of_decimal false 1 16));
                      PyFloat (float.make (float.of_decimal true 15 (-8)));
                      PyFloat (float.zero true); PyFloat (float.inf true)])
  = Some "[0.1,1.5,1e+16,-1.5e-07,-0.0,-Infinity]"
  /\ json.loads "[0.1, 1.5, 1E16, -15e-8, -0.0, -Infinity, 1e400, 0.10000000000000001]"
     = Some (PyList [PyFloat tenth; PyFloat one_and_a_half;
                     PyFloat (float.make (float.of_decimal false 1 16));
                     PyFloat (float.make (float.of_decimal true 15 (-8)));
                     PyFloat (float.zero true); PyFloat (float.inf true);
                     PyFloat (float.inf false); PyFloat tenth]).
Proof. split; vm_compute; reflexivity. Qed.

(** C1, as amended.  For every non-empty string key [k] and every value [v]
    of JSON's own data model ([None], booleans, ints, floats, strings, lists,
    and dictionaries with distinct string keys): whenever [set(k, v)] has
    returned, [get(k)] returns [v] itself, a NaN as a NaN. *)
Theorem set_then_get_plain_roundtrip (fails fails' : nat -> bool) (s s' : DuckNo.t)
    (k : string) (v d : value) :
  k <> "" -> plain v = true -> fails' 0 = false ->
  set fails s (PyStr k) v = (Ok tt, s') ->
  fst (get fails' s' (PyStr k) d) = Ok v.
Proof.
  intros Hk Hp Hf E.
  apply store_facts.set_cases in E
    as (_ & _ & _ & _ & Hi & k0 & p & [= <-] & _ & Ep & Hc).
  rewrite store_facts.get_result by assumption. fold (records k s'). unfold records.
  rewrite store_facts.idle_view, Hc, engine_facts.filter_upsert_same by assumption.
  cbn [snd]. rewrite (json_facts.loads_dumps v p Ep).
  now rewrite json_facts.decoded_plain.
Qed.

Lemma set_then_get_plain_roundtrip_witness :
  fst (set no_faults empty_store (PyStr "user:1") ada_scores) = Ok tt
  /\ json.dumps ada_scores
     = Some ("{" ++ String dquote "name" ++ String dquote ":" ++ String dquote "Ada"
             ++ String dquote "," ++ String dquote "score" ++ String dquote ":0.1,"
             ++ String dquote "scale" ++ String dquote ":[1.5,NaN]}")
  /\ fst (get no_faults (snd (set no_faults empty_store (PyStr "user:1") ada_scores))
              (PyStr "user:1") PyNone) = Ok ada_scores.
Proof.
  assert (E : set no_faults empty_store (PyStr "user:1") ada_scores
              = (Ok tt, snd (set no_faults empty_store (PyStr "user:1") ada_scores)))
    by (vm_compute; reflexivity).
  split; [now rewrite E|]. split; [vm_compute; reflexivity|].
  apply (set_then_get_plain_roundtrip no_faults no_faults empty_store _ "user:1"
           ada_scores PyNone); [discriminate | reflexivity | reflexivity | exact E].
Defined.

(** C1, as stated, fails: a dictionary with the int key [1] and a tuple are
    both serializable, [set] stores them, and [get] returns a dictionary with
    the string key ["1"] and a list. *)
Lemma set_then_get_changes_int_key_and_tuple :
  json.dumps (PyDict [(PyInt 1, PyStr "a")]) <> None
  /\ fst (set no_faults empty_store (PyStr "k") (PyDict [(PyInt 1, PyStr "a")])) = Ok tt
  /\ fst (get no_faults
            (snd (set no_faults empty_store (PyStr "k") (PyDict [(PyInt 1, PyStr "a")])))
            (PyStr "k") PyNone)
     = Ok (PyDict [(PyStr "1", PyStr "a")])
  /\ PyDict [(PyStr "1", PyStr "a")] <> PyDict [(PyInt 1, PyStr "a")]
  /\ json.dumps (PyTuple [PyInt 1; PyInt 2]) <> None
  /\ fst (get no_faults
            (snd (set no_faults empty_store (PyStr "k") (PyTuple [PyInt 1; PyInt 2])))
            (PyStr "k") PyNone)
     = Ok (PyList [PyInt 1; PyInt 2])
  /\ PyList [PyInt 1; PyInt 2] <> PyTuple [PyInt 1; PyInt 2].
Proof. repeat split; (reflexivity || discriminate). Qed.

(** X1.  For every value, [get] after a [set] that has returned gives the
    decoded image of the value: tuples as lists and dictionary keys as
    strings (an int or a float by its text, [True], [False] and [None] as
    [true], [false] and [null]), whatever the default. *)
Theorem set_then_get_decoded (fails fails' : nat -> bool) (s s' : DuckNo.t)
    (k : string) (v d : value) :
  k <> "" -> fails' 0 = false ->
  set fails s (PyStr k) v = (Ok tt, s') ->
  fst (get fails' s' (PyStr k) d) = Ok (decoded v).
Proof.
  intros Hk Hf E.
  apply store_facts.set_cases in E
    as (_ & _ & _ & _ & Hi & k0 & p & [= <-] & _ & Ep & Hc).
  rewrite store_facts.get_result by assumption. unfold records.
  rewrite store_facts.idle_view, Hc, engine_facts.filter_upsert_same by assumption.
  cbn [snd]. now rewrite (json_facts.loads_dumps v p Ep).
Qed.

(** C2.  In every state of a store there is at most one record per key.
    When [set(k, v1)] has returned, then after any further calls of the
    public methods [keys()] lists [k] exactly once, and when [set(k, v2)]
    returns after them, the one record of [k] holds the text of [v2]. *)
Theorem one_record_per_key (s : DuckNo.t) (k : string) :
  reachable s ->
  List.length (records k s) <= 1
  /\ forall fails1 v1 s1, set fails1 s (PyStr k) v1 = (Ok tt, s1) ->
     forall calls,
       (forall fails, fails 0 = false ->
          exists l, fst (keys fails (run_calls s1 calls)) = Ok l
                    /\ count_occ string_dec l k = 1)
       /\ (forall fails2 v2 s2,
             set fails2 (run_calls s1 calls) (PyStr k) v2 = (Ok tt, s2) ->
             exists p2, json.dumps v2 = Some p2 /\ records k s2 = [(k, p2)]).
Proof.
  intros Hr. pose proof (init_facts.reachable_inv s Hr) as [Hi Hn]. split.
  - unfold records. rewrite store_facts.idle_view by assumption.
    destruct (in_dec string_dec k (map fst (committed (_conn s)))) as [Hin|Hnin].
    + apply in_map_iff in Hin as ((a, p) & Ha & Hin). cbn in Ha. subst a.
      rewrite (store_facts.records_unique k p _ Hn Hin). cbn. lia.
    + rewrite store_facts.records_absent by assumption. cbn. lia.
  - intros fails1 v1 s1 E1 calls.
    assert (Hr1 : reachable s1).
    { change s1 with (snd (Ok tt, s1)). rewrite <- E1.
      exact (reach_step s (CallSet fails1 (PyStr k) v1) Hr). }
    assert (Hinv : inv (run_calls s1 calls))
      by (apply store_facts.run_calls_inv; now apply init_facts.reachable_inv).
    destruct Hinv as [Hi' Hn'].
    split.
    + intros fails Hf. eexists. split; [now apply store_facts.keys_result|].
      rewrite (proj1 (Permutation_count_occ string_dec _ _) (order_facts.sort_perm _)).
      rewrite store_facts.idle_view by assumption.
      apply NoDup_count_occ'; [exact Hn'|].
      apply history_facts.keys_after_calls. left.
      apply store_facts.set_cases in E1
        as (_ & _ & _ & _ & _ & k0 & p & [= <-] & _ & _ & Hc).
      rewrite Hc. apply store_facts.in_keys_upsert. now left.
    + intros fails2 v2 s2 E2.
      apply store_facts.set_cases in E2
        as (_ & _ & _ & _ & Hi2 & k0 & p & [= <-] & _ & Hp & Hc).
      exists p. split; [exact Hp|]. unfold records.
      rewrite store_facts.idle_view by assumption. rewrite Hc.
      apply engine_facts.filter_upsert_same.
Qed.

Lemma one_record_per_key_witness :
  List.length (records "a" empty_store) <= 1
  /\ (exists l, fst (keys no_faults
                       (run_calls store_a [CallKeys no_faults;
                                           CallSet no_faults (PyStr "b") PyNone]))
                = Ok l /\ count_occ string_dec l "a" = 1)
  /\ (exists p2, json.dumps (PyInt 2) = Some p2
                 /\ records "a" (snd (set no_faults store_a (PyStr "a") (PyInt 2)))
                    = [("a", p2)]).
Proof.
  assert (Hr : reachable empty_store).
  { apply (reach_init no_faults bare_world None true "duckno_kv" empty_store bare_world).
    - intros d tb. constructor.
    - reflexivity. }
  destruct (one_record_per_key empty_store "a" Hr) as [H1 H2].
  split; [exact H1|]. split.
  - apply (proj1 (H2 no_faults (PyInt 1) store_a eq_refl
                       [CallKeys no_faults; CallSet no_faults (PyStr "b") PyNone])).
    reflexivity.
  - apply (proj2 (H2 no_faults (PyInt 1) store_a eq_refl []) no_faults (PyInt 2)).
    vm_compute. reflexivity.
Defined.

(** C3.  When [set(k, v)] raises, the rows of the table are what they were
    before the call; on a store without open transaction none is open
    afterwards and the connection sees the same rows, so there is no state
    with the old record deleted and the new one missing.  When the value is
    not serializable the instance is untouched: no statement was executed. *)
Theorem failed_set_changes_nothing (fails : nat -> bool) (s s' : DuckNo.t)
    (key v : value) (e : exn) :
  set fails s key v = (Raise e, s') ->
  committed (_conn s') = committed (_conn s)
  /\ (idle s -> idle s' /\ view (_conn s') = view (_conn s))
  /\ _table s' = _table s /\ _db_file s' = _db_file s
  /\ (json.dumps v = None -> s' = s).
Proof.
  intros E.
  pose proof (store_facts.set_cases _ _ _ _ _ _ E) as (Ht & Hf & _ & Hc & Hi).
  split; [exact Hc|]. split; [|split; [exact Ht|split; [exact Hf|]]].
  - intros Hs. split; [now apply Hi|].
    rewrite !store_facts.idle_view by auto. exact Hc.
  - intros Hd. unfold set in E. destruct (_validate_key key); [|congruence].
    rewrite Hd in E. congruence.
Qed.

Lemma failed_set_changes_nothing_witness :
  fst (set (Nat.eqb 2) store_a (PyStr "a") (PyInt 2)) = Raise DuckDBError
  /\ committed (_conn (snd (set (Nat.eqb 2) store_a (PyStr "a") (PyInt 2))))
     = [("a", "1")]
  /\ view (_conn (snd (set (Nat.eqb 2) store_a (PyStr "a") (PyInt 2))))
     = [("a", "1")]
  /\ fst (set no_faults store_a (PyStr "a") (PyBytes "x"))
     = Raise (TypeError
         "Value must be JSON-serializable. Consider converting to basic types.")
  /\ snd (set no_faults store_a (PyStr "a") (PyBytes "x")) = store_a.
Proof.
  assert (E : set (Nat.eqb 2) store_a (PyStr "a") (PyInt 2)
              = (Raise DuckDBError, snd (set (Nat.eqb 2) store_a (PyStr "a") (PyInt 2))))
    by (vm_compute; reflexivity).
  assert (Hi : idle store_a) by (vm_compute; reflexivity).
  split; [now rewrite E|].
  destruct (failed_set_changes_nothing (Nat.eqb 2) store_a
              (snd (set (Nat.eqb 2) store_a (PyStr "a") (PyInt 2)))
              (PyStr "a") (PyInt 2) DuckDBError E) as (Hc & Hv & _).
  split; [exact Hc|]. split; [exact (proj2 (Hv Hi))|].
  split; [reflexivity|].
  destruct (failed_set_changes_nothing no_faults store_a
              (snd (set no_faults store_a (PyStr "a") (PyBytes "x")))
              (PyStr "a") (PyBytes "x")
              (TypeError
                 "Value must be JSON-serializable. Consider converting to basic types.")
              eq_refl) as (_ & _ & _ & _ & Hs).
  exact (Hs eq_refl).
Defined.

(** C4.  For a key that is the empty string or no string at all, [set] and
    [get] raise the [ValueError] of [_validate_key] and return the instance
    as it was, the log of executed statements included: nothing was sent to
    the engine. *)
Theorem invalid_key_raises_before_io (fails : nat -> bool) (s : DuckNo.t)
    (key v d : value) :
  (forall k, key = PyStr k -> k = "") ->
  set fails s key v = (Raise (ValueError "key must be a non-empty string"), s)
  /\ get fails s key d = (Raise (ValueError "key must be a non-empty string"), s).
Proof.
  intros Hk. unfold set, get.
  destruct key; cbn [_validate_key]; try (split; reflexivity).
  rewrite (Hk s0 eq_refl). split; reflexivity.
Qed.

Lemma invalid_key_raises_before_io_witness :
  (set no_faults store_a (PyStr "") (PyInt 1)
   = (Raise (ValueError "key must be a non-empty string"), store_a)
   /\ get no_faults store_a (PyStr "") PyNone
      = (Raise (ValueError "key must be a non-empty string"), store_a))
  /\ (set no_faults store_a (PyInt 7) (PyInt 1)
      = (Raise (ValueError "key must be a non-empty string"), store_a)
      /\ get no_faults store_a (PyInt 7) PyNone
         = (Raise (ValueError "key must be a non-empty string"), store_a)).
Proof.
  split.
  - apply (invalid_key_raises_before_io no_faults store_a (PyStr "") (PyInt 1) PyNone).
    intros k E. injection E as <-. reflexivity.
  - apply (invalid_key_raises_before_io no_faults store_a (PyInt 7) (PyInt 1) PyNone).
    intros k E. discriminate E.
Defined.

(** C5.  When the engine does not fail, [keys()] returns a list that holds
    exactly the keys stored, in ascending lexicographic order; a store with
    the same rows inserted in another order returns the same list, and an
    empty store returns the empty list. *)
Theorem keys_sorted (fails : nat -> bool) (s : DuckNo.t) :
  fails 0 = false ->
  exists l,
    fst (keys fails s) = Ok l
    /\ Permutation l (map fst (view (_conn s)))
    /\ StronglySorted lex_le l
    /\ (view (_conn s) = [] -> l = [])
    /\ (forall fails2 s2, fails2 0 = false ->
          Permutation (view (_conn s2)) (view (_conn s)) ->
          fst (keys fails2 s2) = Ok l).
Proof.
  intros Hf. exists (sort (map fst (view (_conn s)))).
  split; [now apply store_facts.keys_result|].
  split; [apply order_facts.sort_perm|].
  split; [apply order_facts.sort_sorted|].
  split; [now intros ->|].
  intros fails2 s2 Hf2 Hp. rewrite store_facts.keys_result by assumption.
  f_equal. apply order_facts.sort_order_free. now apply Permutation_map.
Qed.

Lemma keys_sorted_witness :
  fst (keys no_faults
         (run_calls empty_store [CallSet no_faults (PyStr "b") PyNone;
                                 CallSet no_faults (PyStr "c") PyNone;
                                 CallSet no_faults (PyStr "a") PyNone]))
  = Ok ["a"; "b"; "c"]
  /\ fst (keys no_faults empty_store) = Ok [].
Proof.
  split.
  - destruct (keys_sorted no_faults
                (run_calls empty_store [CallSet no_faults (PyStr "b") PyNone;
                                        CallSet no_faults (PyStr "c") PyNone;
                                        CallSet no_faults (PyStr "a") PyNone])
                eq_refl) as (l & Hl & _).
    reflexivity.
  - destruct (keys_sorted no_faults empty_store eq_refl) as (l & Hl & _ & _ & He & _).
    rewrite Hl. f_equal. apply He. reflexivity.
Defined.

(** C6, as stated, fails: after [set("a", 1)] the call [get("a", default=1)]
    returns its default although the key has been set. *)
Lemma get_returns_default_after_set :
  fst (set no_faults empty_store (PyStr "a") (PyInt 1)) = Ok tt
  /\ In "a" (keys_set empty_store [CallSet no_faults (PyStr "a") (PyInt 1)])
  /\ fst (get no_faults (run_calls empty_store [CallSet no_faults (PyStr "a") (PyInt 1)])
            (PyStr "a") (PyInt 1))
     = Ok (PyInt 1).
Proof. split; [reflexivity|]. split; [now left | reflexivity]. Qed.

(** C6, as amended.  On a store between two calls, for a non-empty string
    key [k]: [get(k, default=D)] returns [D] for every [D] exactly when the
    table had no record of [k] at the start and no call of [set] has stored
    [k] since; for a store that started with an empty table, exactly when [k]
    was never set.  When a record of [k] is there, what [get] returns or
    raises does not depend on the default, and when the text of the record
    is what [json.dumps] writes for a value, [get] returns that value as
    [json.loads] reads it, whatever the default. *)
Theorem get_default_iff_never_set (s0 : DuckNo.t) (calls : list call) (k : string) :
  inv s0 -> k <> "" ->
  ((~ In k (map fst (committed (_conn s0))) /\ ~ In k (keys_set s0 calls))
   <-> forall fails d, fails 0 = false ->
         fst (get fails (run_calls s0 calls) (PyStr k) d) = Ok d)
  /\ (fresh s0 ->
      (~ In k (keys_set s0 calls)
       <-> forall fails d, fails 0 = false ->
             fst (get fails (run_calls s0 calls) (PyStr k) d) = Ok d))
  /\ (forall p, In (k, p) (view (_conn (run_calls s0 calls))) ->
        (forall fails d d', fails 0 = false ->
           fst (get fails (run_calls s0 calls) (PyStr k) d)
           = fst (get fails (run_calls s0 calls) (PyStr k) d'))
        /\ (forall v, json.dumps v = Some p ->
            forall fails d, fails 0 = false ->
              fst (get fails (run_calls s0 calls) (PyStr k) d) = Ok (decoded v))).
Proof.
  intros Hinv0 Hk.
  pose proof (store_facts.run_calls_inv calls s0 Hinv0) as [Hi Hn].
  pose proof (history_facts.keys_after_calls calls s0 k) as Hkeys.
  assert (Hpres : forall p, In (k, p) (view (_conn (run_calls s0 calls))) ->
            forall fails d, fails 0 = false ->
            fst (get fails (run_calls s0 calls) (PyStr k) d)
            = match json.loads p with Some x => Ok x | None => Raise JSONDecodeError end).
  { intros p Hin fails d Hf. rewrite store_facts.get_result by assumption.
    unfold records. rewrite store_facts.idle_view in * by assumption.
    now rewrite (store_facts.records_unique k p _ Hn Hin). }
  assert (Hmain : (~ In k (map fst (committed (_conn s0))) /\ ~ In k (keys_set s0 calls))
            <-> forall fails d, fails 0 = false ->
                  fst (get fails (run_calls s0 calls) (PyStr k) d) = Ok d).
  { split.
    - intros Hnot fails d Hf. rewrite store_facts.get_result by assumption.
      unfold records. rewrite store_facts.idle_view by assumption.
      rewrite store_facts.records_absent; [reflexivity|]. tauto.
    - intros Hall.
      assert (Hno : ~ In k (map fst (committed (_conn (run_calls s0 calls))))).
      { intros Hin'. apply in_map_iff in Hin' as ((a, p) & Ha & Hin'). cbn in Ha. subst a.
        rewrite <- store_facts.idle_view in Hin' by assumption.
        pose proof (Hpres p Hin' no_faults PyNone eq_refl) as H1.
        pose proof (Hpres p Hin' no_faults (PyBool true) eq_refl) as H2.
        rewrite (Hall no_faults PyNone eq_refl) in H1.
        rewrite (Hall no_faults (PyBool true) eq_refl) in H2.
        destruct (json.loads p); congruence. }
      tauto. }
  split; [exact Hmain|]. split.
  - intros [Hc0 _]. rewrite <- Hmain, Hc0. cbn. tauto.
  - intros p Hin. split.
    + intros fails d d' Hf. now rewrite !(Hpres p Hin fails) by assumption.
    + intros v Hv fails d Hf. rewrite (Hpres p Hin fails d Hf).
      now rewrite (json_facts.loads_dumps v p Hv).
Qed.

Lemma get_default_iff_never_set_witness :
  fst (get no_faults empty_store (PyStr "a") (PyInt 7)) = Ok (PyInt 7)
  /\ fst (get no_faults (run_calls empty_store [CallSet no_faults (PyStr "a") (PyInt 1)])
            (PyStr "a") (PyInt 7)) = Ok (PyInt 1)
  /\ fst (get no_faults reopened_store (PyStr "a") (PyInt 7)) = Ok (PyInt 1).
Proof.
  assert (Hinv : inv empty_store) by (split; [reflexivity | constructor]).
  assert (Hinv' : inv reopened_store).
  { split; [reflexivity|]. repeat constructor. intros []. }
  split; [|split].
  - destruct (get_default_iff_never_set empty_store [] "a" Hinv) as (H & _);
      [discriminate|].
    apply (proj1 H); [|reflexivity]. split; intros [].
  - destruct (get_default_iff_never_set empty_store
                [CallSet no_faults (PyStr "a") (PyInt 1)] "a" Hinv) as (_ & _ & H);
      [discriminate|].
    apply (proj2 (H "1" ltac:(now left)) (PyInt 1)); reflexivity.
  - destruct (get_default_iff_never_set reopened_store [] "a" Hinv') as (_ & _ & H);
      [discriminate|].
    apply (proj2 (H "1" ltac:(now left)) (PyInt 1)); reflexivity.
Defined.

(** C7, as amended.  For every path string other than the sentinel, with the
    memory flag off, whose path has an empty suffix and names no existing
    directory: the constructor, when it returns, has resolved the database
    file to the text of the path with [".db"] appended, in every case
    (a name such as [".db"] has an empty suffix and gets the extension
    too); a parent directory that did not exist is there afterwards, and
    nothing that existed was changed. *)
Theorem bare_name_gets_db_extension fails w s table_name st w' :
  s <> ":memory:" ->
  suffix (parse s) = "" ->
  exists_ (fs w) (parse s) && is_dir (fs w) (parse s) = false ->
  __init__ fails w (Some s) false table_name = (Ok st, w') ->
  database_path st = Some (str (parse s) ++ ".db")
  /\ database (_conn st) = str (parse s) ++ ".db"
  /\ (exists_ (fs w) (parent (parse s)) = false ->
      is_dir (fs w') (parent (parse s)) = true)
  /\ (forall q, fs w q <> None -> fs w' q = fs w q).
Proof.
  intros Hs Hsuf Hdir E.
  assert (B : false || is_sentinel (Some s) = false).
  { cbn. now apply String.eqb_neq. }
  destruct (init_facts.init_file _ _ _ _ _ _ _ B E) as (db_file & f & Hr & -> & Hfs).
  unfold resolve in Hr. rewrite Hsuf, Hdir in Hr. cbn in Hr.
  destruct (make_parent (fs w) (parse s)) as [f0|] eqn:Em; [|discriminate].
  injection Hr as <- <-.
  destruct (path_facts.parse_str_db _ (path_facts.parse_well_formed s)) as (x & Hx & Hstr).
  unfold database_path. cbn [_db_file _conn database]. rewrite Hstr.
  split; [reflexivity|]. split; [reflexivity|].
  assert (Hkeep : forall q, fs w q <> None -> f0 q = fs w q).
  { unfold make_parent in Em. destruct (negb _).
    - now apply path_facts.mkdir_spec in Em as [_ Hk].
    - now injection Em as <-. }
  assert (Hparent : exists_ (fs w) (parent (parse s)) = false ->
                    is_dir f0 (parent (parse s)) = true).
  { intros Hp. unfold make_parent in Em. rewrite Hp in Em. cbn in Em.
    now apply path_facts.mkdir_spec in Em as [Hd _]. }
  rewrite Hfs. split.
  - intros Hp. specialize (Hparent Hp).
    destruct (exists_ f0 _); [exact Hparent|].
    unfold is_dir, create in *.
    destruct (eqb (parent (parse s)) _) eqn:Eq; [|exact Hparent].
    exfalso. apply path_facts.path_eqb_eq in Eq. rewrite Hx in Eq. unfold parent in Eq.
    destruct (parse s) as [r l]. cbn [tail root] in Eq.
    destruct l as [|y l].
    + injection Eq. discriminate.
    + injection Eq as Eq. apply (f_equal (@List.length string)) in Eq.
      rewrite length_app in Eq. cbn [List.length] in Eq. lia.
  - intros q Hq. destruct (exists_ f0 _) eqn:Ex; [now apply Hkeep|].
    rewrite path_facts.create_keeps; [now apply Hkeep | | rewrite Hkeep; assumption].
    unfold exists_ in Ex. destruct (f0 _); [discriminate | reflexivity].
Qed.

Lemma bare_name_gets_db_extension_witness :
  option_map database_path
    (match fst (__init__ no_faults bare_world (Some "data/sub") false "duckno_kv") with
     | Ok st => Some st
     | Raise _ => None
     end)
  = Some (Some "data/sub.db")
  /\ is_dir (fs (snd (__init__ no_faults bare_world (Some "data/sub") false "duckno_kv")))
            (parse "data") = true.
Proof.
  destruct (__init__ no_faults bare_world (Some "data/sub") false "duckno_kv")
    as [r w'] eqn:E.
  assert (Er : r = fst (__init__ no_faults bare_world (Some "data/sub") false "duckno_kv"))
    by (now rewrite E).
  vm_compute in Er.
  destruct r as [st|e]; [|discriminate Er].
  destruct (bare_name_gets_db_extension no_faults bare_world "data/sub" "duckno_kv" st w')
    as (Hp & _ & Hd & _); [discriminate | reflexivity | reflexivity | exact E |].
  cbn [fst snd option_map]. split.
  - rewrite Hp. reflexivity.
  - apply Hd. reflexivity.
Defined.

(** C7, as stated, fails: the name [".db"] has an empty suffix and its path
    ends in [".db"], no such directory exists, and still the constructor
    appends the extension. *)
Lemma dotfile_db_gets_second_extension :
  suffix (parse "data/.db") = ""
  /\ exists_ (fs bare_world) (parse "data/.db") && is_dir (fs bare_world) (parse "data/.db")
     = false
  /\ endswith (str (parse "data/.db")) ".db" = true
  /\ option_map database_path
       (match fst (__init__ no_faults bare_world (Some "data/.db") false "duckno_kv") with
        | Ok st => Some st
        | Raise _ => None
        end)
     = Some (Some "data/.db.db")
  /\ "data/.db.db" <> str (parse "data/.db").
Proof. repeat split; (reflexivity || discriminate). Qed.

(** C8.  For every construction that returns a store: the connection is
    opened on the in-memory database exactly when the memory flag is set or
    the path is the sentinel [":memory:"]; [database_path] is [None] exactly
    then; otherwise it is the text of the resolved file, on which the
    connection was opened. *)
Theorem in_memory_iff_flag_or_sentinel fails w db_path memory table_name st w' :
  __init__ fails w db_path memory table_name = (Ok st, w') ->
  (database (_conn st) = ":memory:" <-> memory = true \/ db_path = Some ":memory:")
  /\ (database_path st = None <-> database (_conn st) = ":memory:")
  /\ (database (_conn st) <> ":memory:" ->
      exists db_file f, resolve w db_path = Some (db_file, f)
                        /\ database_path st = Some (str db_file)
                        /\ database (_conn st) = str db_file).
Proof.
  intros E. pose proof (init_facts.sentinel_iff db_path) as Hs.
  destruct (memory || is_sentinel db_path) eqn:B.
  - destruct (init_facts.init_memory _ _ _ _ _ _ _ B E) as [-> _]. cbn.
    apply orb_true_iff in B. rewrite Hs in B. repeat split; auto. congruence.
  - destruct (init_facts.init_file _ _ _ _ _ _ _ B E) as (db_file & f & Hr & -> & _).
    pose proof (init_facts.resolve_not_memory _ _ _ _ Hr) as Hn. cbn.
    apply orb_false_iff in B as [-> B].
    assert (db_path <> Some ":memory:") by (rewrite <- Hs; congruence).
    repeat split; try congruence; try (intros [?|?]; congruence).
    intros _. eauto.
Qed.

Lemma in_memory_iff_flag_or_sentinel_witness :
  option_map database_path
    (match fst (__init__ no_faults bare_world (Some "data/mydata.duckdb") false
                  "duckno_kv") with
     | Ok st => Some st
     | Raise _ => None
     end)
  = Some (Some "data/mydata.duckdb")
  /\ option_map database_path
       (match fst (__init__ no_faults bare_world None true "duckno_kv") with
        | Ok st => Some st
        | Raise _ => None
        end)
     = Some None.
Proof.
  split.
  - destruct (__init__ no_faults bare_world (Some "data/mydata.duckdb") false "duckno_kv")
      as [r w'] eqn:E.
    assert (Er : r = fst (__init__ no_faults bare_world (Some "data/mydata.duckdb") false
                            "duckno_kv")) by (now rewrite E).
    vm_compute in Er. destruct r as [st|e]; [|discriminate Er].
    destruct (in_memory_iff_flag_or_sentinel _ _ _ _ _ _ _ E) as (_ & _ & H).
    injection Er as ->. reflexivity.
  - destruct (in_memory_iff_flag_or_sentinel no_faults bare_world None true "duckno_kv"
                empty_store bare_world eq_refl) as (_ & H & _).
    change (Some (database_path empty_store) = Some None).
    apply (f_equal Some). apply (proj2 H). reflexivity.
Defined.

(** C9.  For every store, key and default, [get] and [keys] return an
    instance with the same table name, database file and database, the same
    rows and the same open transaction if there is one: they only add to the
    log of executed statements. *)
Theorem reads_leave_store_unchanged (fails : nat -> bool) (s : DuckNo.t)
    (key d : value) :
  same_store s (snd (get fails s key d)) /\ same_store s (snd (keys fails s)).
Proof.
  split; [apply store_facts.get_same_store | apply store_facts.keys_same_store].
Qed.

(** C10.  For every table name, [DuckNo.in_memory(t)] is the construction
    [DuckNo(":memory:", memory=True, table_name=t)], which is also what any
    other path with the memory flag, or the sentinel without the flag, gives;
    the store it returns has [database_path] [None], the table name [t] and
    an empty table on the in-memory database, and the world is as before.
    It returns a store when the engine does not fail. *)
Theorem in_memory_is_memory_constructor fails w table_name :
  in_memory fails w table_name = __init__ fails w (Some ":memory:") true table_name
  /\ (forall db_path, in_memory fails w table_name
                      = __init__ fails w db_path true table_name)
  /\ in_memory fails w table_name = __init__ fails w (Some ":memory:") false table_name
  /\ (forall st w', in_memory fails w table_name = (Ok st, w') ->
        database_path st = None /\ _table st = table_name
        /\ database (_conn st) = ":memory:" /\ fresh st /\ w' = w)
  /\ ((forall n, fails n = false) -> exists st, in_memory fails w table_name = (Ok st, w)).
Proof.
  split; [reflexivity|]. split; [reflexivity|]. split; [reflexivity|]. split.
  - intros st w' E. apply init_facts.init_memory in E as [-> ->]; [|reflexivity].
    repeat split.
  - intros Hf. unfold in_memory, __init__, connect, _ensure_schema, execute.
    rewrite !Hf. cbn. eauto.
Qed.

(* ------------------------------------------------------------------------- *)
(** ** Further properties of [set], [get] and [keys] *)

Import engine_facts store_facts more_store_facts.

(** X2.  On a store without open transaction, [set(key, value)], whether it
    returns or raises, leaves the records of every other key [k2] as they
    were, and [get(k2, d)] returns afterwards what it returned before. *)
Theorem set_leaves_other_keys (fails f : nat -> bool) (s s' : DuckNo.t)
    (key v d : value) (r : result unit) (k2 : string) :
  idle s -> key <> PyStr k2 ->
  set fails s key v = (r, s') ->
  records k2 s' = records k2 s
  /\ fst (get f s' (PyStr k2) d) = fst (get f s (PyStr k2) d).
Proof.
  intros Hi Hne E.
  assert (Hrec : records k2 s' = records k2 s).
  { pose proof (set_cases _ _ _ _ _ _ E) as (_ & _ & _ & H). unfold records.
    destruct r as [[]|e].
    - destruct H as (_ & Hi' & k & p & -> & _ & _ & Hc).
      rewrite !idle_view, Hc by assumption.
      apply filter_upsert_other. congruence.
    - destruct H as (Hc & Hi'). rewrite !idle_view by auto. now rewrite Hc. }
  split; [exact Hrec|].
  rewrite !get_outcome. destruct (_validate_key (PyStr k2)) as [k|e] eqn:Ek; [|reflexivity].
  apply validate_key_Ok in Ek as [[= <-] _]. now rewrite Hrec.
Qed.

(** X3.  On a store without open transaction, a [set] that raises is not
    seen by the readers: afterwards every [get(key', d)] and [keys()]
    return, or raise, what they did before the call. *)
Theorem failed_set_is_invisible (fails : nat -> bool) (s s' : DuckNo.t)
    (key v : value) (e : exn) :
  idle s -> set fails s key v = (Raise e, s') ->
  (forall f key' d, fst (get f s' key' d) = fst (get f s key' d))
  /\ (forall f, fst (keys f s') = fst (keys f s)).
Proof.
  intros Hi E. pose proof (set_cases _ _ _ _ _ _ E) as (_ & _ & _ & Hc & Hi').
  assert (Hv : view (_conn s') = view (_conn s))
    by (rewrite !idle_view by auto; exact Hc).
  split.
  - intros f key' d. apply get_by_records. intros k. unfold records. now rewrite Hv.
  - intros f. now apply keys_by_view.
Qed.

(** X4.  [set] overwrites: when [set(key, w)] and then [set(key, v)] have
    returned, the table holds the rows it would hold had [set(key, v)] alone
    been called on the first store, in the same order. *)
Theorem set_twice_is_set_once (f1 f2 : nat -> bool) (s s1 s2 : DuckNo.t)
    (key v w : value) :
  set f1 s key w = (Ok tt, s1) ->
  set f2 s1 key v = (Ok tt, s2) ->
  forall f3 s3, set f3 s key v = (Ok tt, s3) ->
    committed (_conn s2) = committed (_conn s3).
Proof.
  intros E1 E2 f3 s3 E3.
  apply set_cases in E1 as (_ & _ & _ & _ & _ & k1 & p1 & -> & _ & Hp1 & Hc1).
  apply set_cases in E2 as (_ & _ & _ & _ & _ & k2 & p2 & [= <-] & _ & Hp2 & Hc2).
  apply set_cases in E3 as (_ & _ & _ & _ & _ & k3 & p3 & [= <-] & _ & Hp3 & Hc3).
  rewrite Hc2, Hc1, Hc3, upsert_twice. congruence.
Qed.

(** X5.  When [set(k, v)] has returned on a table without duplicate keys,
    [keys()] lists [k] and the keys it listed before, and nothing else; it is
    as long as before when [k] was there, and one key longer when it was
    not. *)
Theorem keys_after_set (fails f : nat -> bool) (s s' : DuckNo.t) (k : string) (v : value) :
  NoDup (map fst (committed (_conn s))) -> f 0 = false ->
  set fails s (PyStr k) v = (Ok tt, s') ->
  exists l l',
    fst (keys f s) = Ok l /\ fst (keys f s') = Ok l'
    /\ (forall x, In x l' <-> x = k \/ In x l)
    /\ (In k l -> List.length l' = List.length l)
    /\ (~ In k l -> List.length l' = S (List.length l)).
Proof.
  intros Hn Hf E.
  apply set_cases in E as (_ & _ & _ & Hi & Hi' & k0 & p & [= <-] & _ & _ & Hc).
  exists (sort (map fst (view (_conn s)))), (sort (map fst (view (_conn s')))).
  rewrite !keys_result by assumption. split; [reflexivity|]. split; [reflexivity|].
  rewrite !idle_view by assumption. rewrite Hc.
  assert (Hin : forall x (rows : list row),
             In x (sort (map fst rows)) <-> In x (map fst rows)).
  { intros x rows. split; apply Permutation_in;
      [apply order_facts.sort_perm | symmetry; apply order_facts.sort_perm]. }
  assert (Hlen : forall rows : list row,
             List.length (sort (map fst rows)) = List.length rows).
  { intros rows. rewrite (Permutation_length (order_facts.sort_perm _)).
    apply length_map. }
  split; [|split].
  - intros x. rewrite !Hin. apply in_keys_upsert.
  - rewrite Hin, <- has_key_In. intros Hk. rewrite !Hlen.
    pose proof (length_deleted k _ Hn) as HL. rewrite Hk in HL.
    unfold upsert. rewrite length_app. cbn. lia.
  - rewrite Hin, <- has_key_In. intros Hk. rewrite !Hlen.
    pose proof (length_deleted k _ Hn) as HL.
    destruct (has_key k (committed (_conn s))); [congruence|].
    unfold upsert. rewrite length_app. cbn. lia.
Qed.

(** X6.  The statements [set] sends to the engine.  When it returns, they are
    [BEGIN TRANSACTION], the [DELETE] of the key, the [INSERT] of the key
    with the text of the value, and [COMMIT], in this order and nothing else.
    When it raises, either nothing was sent (the key or the value was
    refused), or a prefix of these four statements was sent, followed by one
    [ROLLBACK]. *)
Theorem set_ends_its_transaction (fails : nat -> bool) (s s' : DuckNo.t)
    (key v : value) (r : result unit) :
  set fails s key v = (r, s') ->
  match r with
  | Ok _ =>
      exists k p, key = PyStr k /\ json.dumps v = Some p
        /\ executed (_conn s')
           = ([COMMIT; INSERT_VALUES k p; DELETE_WHERE_k k; BEGIN_TRANSACTION]
              ++ executed (_conn s))%list
  | Raise _ =>
      s' = s
      \/ exists k p sent, key = PyStr k /\ json.dumps v = Some p
           /\ In sent (transaction_prefixes k p)
           /\ executed (_conn s') = (ROLLBACK :: sent ++ executed (_conn s))%list
  end.
Proof.
  unfold set. destruct (_validate_key key) as [k|e] eqn:Ek.
  2:{ intros [= <- <-]. now left. }
  apply validate_key_Ok in Ek as [-> Hk].
  destruct (json.dumps v) as [p|].
  2:{ intros [= <- <-]. now left. }
  destruct s as [tb f [db rows pend lg]]. cbn [_conn _table _db_file].
  unfold try_except, bind, ret, raise, execute, run, duckdb.log, write, view.
  cbn [pending committed executed database].
  destruct pend as [w|];
    destruct (fails 0), (fails 1), (fails 2), (fails 3);
    cbn [pending committed executed database view];
    rewrite ?has_key_deleted;
    intros [= <- <-]; cbn;
    try (exists k, p; repeat split; reflexivity);
    right; exists k, p;
    first
      [ exists [BEGIN_TRANSACTION]; repeat split; cbn; tauto
      | exists [DELETE_WHERE_k k; BEGIN_TRANSACTION]; repeat split; cbn; tauto
      | exists [INSERT_VALUES k p; DELETE_WHERE_k k; BEGIN_TRANSACTION];
        repeat split; cbn; tauto
      | exists [COMMIT; INSERT_VALUES k p; DELETE_WHERE_k k; BEGIN_TRANSACTION];
        repeat split; cbn; tauto ].
Qed.

(** X7.  [keys] and [get] agree.  In a state between two calls (no open
    transaction, no key twice), [keys()] lists no key twice; a non-empty
    string is listed exactly when the table holds a record for it, and then
    what [get] returns or raises does not depend on the default, and is the
    value as [json.loads] reads it when the text of the record is what
    [json.dumps] writes for a value; a non-empty string is not listed
    exactly when [get] returns the default, whatever it is. *)
Theorem keys_agree_with_get (f : nat -> bool) (s : DuckNo.t) :
  inv s -> f 0 = false ->
  exists l,
    fst (keys f s) = Ok l /\ NoDup l
    /\ forall k, k <> "" ->
         (In k l <-> exists p, In (k, p) (view (_conn s)))
         /\ (In k l -> forall g d d', g 0 = false ->
               fst (get g s (PyStr k) d) = fst (get g s (PyStr k) d'))
         /\ (forall p v, In (k, p) (view (_conn s)) -> json.dumps v = Some p ->
               forall g d, g 0 = false -> fst (get g s (PyStr k) d) = Ok (decoded v))
         /\ (~ In k l <-> forall g d, g 0 = false -> fst (get g s (PyStr k) d) = Ok d).
Proof.
  intros [Hi Hn] Hf. exists (sort (map fst (view (_conn s)))).
  split; [now apply keys_result|].
  rewrite idle_view by assumption.
  assert (Hin : forall x, In x (sort (map fst (committed (_conn s))))
                          <-> In x (map fst (committed (_conn s)))).
  { intros x. split; apply Permutation_in;
      [apply order_facts.sort_perm | symmetry; apply order_facts.sort_perm]. }
  split.
  { eapply Permutation_NoDup; [symmetry; apply order_facts.sort_perm | exact Hn]. }
  intros k Hk.
  assert (Hfound : forall p, In (k, p) (committed (_conn s)) ->
            forall g d, g 0 = false ->
            fst (get g s (PyStr k) d)
            = match json.loads p with Some x => Ok x | None => Raise JSONDecodeError end).
  { intros p Hp g d Hg. rewrite get_result by assumption. unfold records.
    rewrite idle_view by assumption. now rewrite (records_unique k p _ Hn Hp). }
  split; [|split; [|split]].
  - rewrite Hin. split.
    + intros H. apply in_map_iff in H as ((a, p) & Ha & Hp). cbn in Ha. subst a. eauto.
    + intros (p & Hp). now apply (in_map fst) in Hp.
  - rewrite Hin. intros H g d d' Hg.
    apply in_map_iff in H as ((a, p) & Ha & Hp). cbn in Ha. subst a.
    now rewrite !(Hfound p Hp g) by assumption.
  - intros p v Hp Hv g d Hg. rewrite (Hfound p Hp g d Hg).
    now rewrite (json_facts.loads_dumps v p Hv).
  - rewrite Hin. split.
    + intros Hno g d Hg. rewrite get_result by assumption. unfold records.
      rewrite idle_view by assumption. now rewrite records_absent.
    + intros Hall H. apply in_map_iff in H as ((a, p) & Ha & Hp). cbn in Ha. subst a.
      pose proof (Hfound p Hp no_faults PyNone eq_refl) as H1.
      pose proof (Hfound p Hp no_faults (PyBool true) eq_refl) as H2.
      rewrite (Hall no_faults PyNone eq_refl) in H1.
      rewrite (Hall no_faults (PyBool true) eq_refl) in H2.
      destruct (json.loads p); congruence.
Qed.

Import encoder_facts.

(** X8.  Where the exceptions of [set] come from.  When [set(key, value)]
    raises the [ValueError] of the key check, the key is no non-empty string
    and the instance is untouched, and a key that is no non-empty string
    raises nothing else; when it raises the [TypeError] with the message of
    line 114, the key is valid, the value holds something the encoder
    refuses and the instance is untouched; when it raises an error of the
    engine, the key is valid and the value holds nothing the encoder
    refuses. *)
Theorem set_error_tells_its_cause (fails : nat -> bool) (s s' : DuckNo.t)
    (key v : value) (e : exn) :
  set fails s key v = (Raise e, s') ->
  ((forall k, key = PyStr k -> k = "")
   <-> e = ValueError "key must be a non-empty string")
  /\ (e = ValueError "key must be a non-empty string" -> s' = s)
  /\ (e = TypeError "Value must be JSON-serializable. Consider converting to basic types."
      -> (exists k, key = PyStr k /\ k <> "") /\ serializable v = false /\ s' = s)
  /\ (e = DuckDBError
      -> (exists k, key = PyStr k /\ k <> "") /\ serializable v = true).
Proof.
  unfold set. destruct (_validate_key key) as [k|e0] eqn:Ek.
  - apply validate_key_Ok in Ek as [-> Hk].
    assert (Hkey : ~ (forall k0, PyStr k = PyStr k0 -> k0 = ""))
      by (intros H; now apply Hk, H).
    destruct (json.dumps v) as [p|] eqn:Ep.
    + assert (Hs : serializable v = true).
      { destruct (serializable v) eqn:Es; [reflexivity|].
        apply dumps_None_iff in Es. congruence. }
      destruct s as [tb f [db rows pend lg]]. cbn [_conn _table _db_file].
      unfold try_except, bind, ret, raise, execute, run, duckdb.log, write, view.
      cbn [pending committed executed database].
      destruct pend as [w|];
        destruct (fails 0), (fails 1), (fails 2), (fails 3);
        cbn [pending committed executed database view];
        rewrite ?has_key_deleted;
        intros [= <- <-];
        (split; [split; [tauto | discriminate]|]);
        (split; [discriminate|]); (split; [discriminate|]); eauto.
    + intros [= <- <-]. apply dumps_None_iff in Ep.
      split; [split; [tauto | discriminate]|].
      split; [discriminate|]. split; [eauto | discriminate].
  - intros [= <- <-].
    assert (He : e0 = ValueError "key must be a non-empty string"
                 /\ forall k, key = PyStr k -> k = "").
    { destruct key; cbn in Ek; try (injection Ek as <-; split; congruence).
      destruct (String.eqb_spec s0 ""); [|discriminate Ek].
      injection Ek as <-. split; congruence. }
    destruct He as [-> Hkey].
    split; [tauto|]. split; [reflexivity|]. split; discriminate.
Qed.

(** X9.  [set(key, value)] returns only for a key that is a non-empty string
    and a value that holds nothing but [None], booleans, ints, floats,
    strings, lists, tuples and dictionaries whose keys are strings, ints,
    floats, booleans or [None]. *)
Theorem set_returns_only_for_json (fails : nat -> bool) (s : DuckNo.t) (key v : value) :
  fst (set fails s key v) = Ok tt ->
  (exists k, key = PyStr k /\ k <> "") /\ serializable v = true.
Proof.
  intros E. destruct (set fails s key v) as [r s'] eqn:Eset. cbn in E. subst r.
  apply set_cases in Eset as (_ & _ & _ & _ & _ & k & p & -> & Hk & Hp & _).
  split; [eauto|]. destruct (serializable v) eqn:Es; [reflexivity|].
  apply dumps_None_iff in Es. congruence.
Qed.

(** X10.  When [set(k, value)] has returned, the one record of [k] holds the
    text [json.dumps] gives for the value, and no character of that text is
    a control character (code below 32). *)
Theorem stored_text_has_no_control_character (fails : nat -> bool) (s s' : DuckNo.t)
    (k : string) (v : value) :
  set fails s (PyStr k) v = (Ok tt, s') ->
  exists p, json.dumps v = Some p /\ records k s' = [(k, p)] /\ printable p = true.
Proof.
  intros E.
  apply set_cases in E as (_ & _ & _ & _ & Hi & k0 & p & [= <-] & _ & Hp & Hc).
  exists p. split; [exact Hp|]. split.
  - unfold records. rewrite idle_view, Hc by assumption. apply filter_upsert_same.
  - now apply dumps_printable with v.
Qed.

(* ------------------------------------------------------------------------- *)
(** ** Further properties of the constructor *)

Import path_facts init_facts more_path_facts.



(** X13.  A path with a suffix is taken as it is: when the constructor
    returns, [database_path] is the path as [pathlib] writes it, reading that
    text again gives the same path, the parent of the path is a directory
    unless it was a regular file before the call (a missing one has been
    made), and nothing that existed was changed. *)
Theorem explicit_file_is_kept fails w s table_name st w' :
  suffix (parse s) <> "" ->
  __init__ fails w (Some s) false table_name = (Ok st, w') ->
  database_path st = Some (str (parse s))
  /\ database (_conn st) = str (parse s)
  /\ parse (str (parse s)) = parse s
  /\ (fs w (parent (parse s)) <> Some File ->
      is_dir (fs w') (parent (parse s)) = true)
  /\ (forall q, fs w q <> None -> fs w' q = fs w q).
Proof.
  intros Hsuf E.
  assert (Hs : s <> ":memory:") by (intros ->; now apply Hsuf).
  assert (B : false || is_sentinel (Some s) = false) by (cbn; now apply String.eqb_neq).
  apply init_file in E as (db_file & f & Hr & -> & Hfs); [|exact B].
  unfold resolve in Hr. apply String.eqb_neq in Hsuf. rewrite Hsuf in Hr.
  destruct (make_parent (fs w) (parse s)) as [f0|] eqn:Em; [|discriminate].
  injection Hr as <- <-.
  split; [reflexivity|]. split; [reflexivity|].
  split; [apply parse_str, parse_well_formed|].
  assert (Hkeep : forall q, fs w q <> None -> f0 q = fs w q).
  { unfold make_parent in Em. destruct (negb _).
    - now apply mkdir_spec in Em as [_ Hk].
    - now injection Em as <-. }
  assert (Hparent : fs w (parent (parse s)) <> Some File ->
                    is_dir f0 (parent (parse s)) = true).
  { intros Hp. unfold make_parent, exists_ in Em.
    destruct (fs w (parent (parse s))) as [[]|] eqn:Ep; cbn in Em.
    - congruence.
    - injection Em as <-. unfold is_dir. now rewrite Ep.
    - now apply mkdir_spec in Em as [Hd _]. }
  rewrite Hfs. split.
  - intros Hp. specialize (Hparent Hp).
    destruct (exists_ f0 (parse s)) eqn:Ex; [exact Hparent|].
    unfold is_dir in *. rewrite create_other; [exact Hparent|].
    intros Eq. rewrite Eq in Hparent. unfold exists_ in Ex.
    destruct (f0 (parse s)); discriminate.
  - intros q Hq. destruct (exists_ f0 _) eqn:Ex; [now apply Hkeep|].
    rewrite create_keeps; [now apply Hkeep | | rewrite Hkeep; assumption].
    unfold exists_ in Ex. destruct (f0 _); [discriminate | reflexivity].
Qed.

(** X14.  When the parent of the path is missing and the parent of that
    parent is a regular file, the constructor raises the [OSError] of
    [mkdir] before it connects, and leaves the file system as it was. *)
Theorem path_below_a_file_raises fails w s table_name :
  s <> ":memory:" ->
  fs w (parse s) = None ->
  fs w (parent (parse s)) = None ->
  tail (parent (parse s)) <> [] ->
  fs w (parent (parent (parse s))) = Some File ->
  __init__ fails w (Some s) false table_name = (Raise OSError, w).
Proof.
  intros Hs Hp Hq Hne Hf. unfold __init__.
  apply String.eqb_neq in Hs. rewrite Hs. cbn [orb].
  assert (Hm : make_parent (fs w) (parse s) = None).
  { unfold make_parent, exists_. rewrite Hq. cbn. now apply mkdir_below_file. }
  unfold resolve. unfold exists_ at 1. rewrite Hp. cbn [andb]. rewrite Hm.
  destruct (suffix (parse s) =? ""); reflexivity.
Qed.

(** X15.  The path a store reports opens the same file again: when a
    construction has returned a store with [database_path] [d] (other than
    the texts ["/.db"] and ["//.db"], whose name has no suffix), every
    construction on the path [d] that returns gives a store on the same
    database file, with the same [database_path]. *)
Theorem reported_path_reopens_the_file fails w db_path memory table_name st w' d :
  __init__ fails w db_path memory table_name = (Ok st, w') ->
  database_path st = Some d ->
  d <> "/.db" -> d <> "//.db" ->
  forall fails2 w2 table2 st2 w3,
    __init__ fails2 w2 (Some d) false table2 = (Ok st2, w3) ->
    database_path st2 = Some d /\ _db_file st2 = _db_file st.
Proof.
  intros E Hd H1 H2 fails2 w2 table2 st2 w3 E2.
  destruct (memory || is_sentinel db_path) eqn:B.
  { apply init_memory in E as [-> _]; [|exact B]. discriminate Hd. }
  apply init_file in E as (db_file & f & Hr & -> & _); [|exact B].
  cbn in Hd. injection Hd as <-.
  pose proof (resolve_well_formed _ _ _ _ Hr) as Hw.
  pose proof (resolve_not_memory _ _ _ _ Hr) as Hn.
  pose proof (resolve_suffix _ _ _ _ Hr H1 H2) as Hsuf.
  assert (B2 : false || is_sentinel (Some (str db_file)) = false)
    by (cbn; now apply String.eqb_neq).
  apply init_file in E2 as (db_file2 & f2 & Hr2 & -> & _); [|exact B2].
  unfold resolve in Hr2. rewrite (parse_str _ Hw) in Hr2.
  apply String.eqb_neq in Hsuf. rewrite Hsuf in Hr2.
  destruct (make_parent (fs w2) db_file); [|discriminate].
  injection Hr2 as <- _. split; reflexivity.
Qed.

(* ------------------------------------------------------------------------- *)
(** ** The example program *)

Import lifetime example.

(** X16.  Whatever the engine does and whatever the file system holds, when
    [main] of example.py gets to its end it has printed, in this order: the
    value it stored under ["user:1"], the sorted keys of the default store,
    among them ["user:1"], and the path of [duckno.db] in the current
    directory; then [123], the single key ["tmp"] and no path for the
    in-memory store; then [[1, 2, 3]], the sorted keys of the third store,
    among them ["a"], and the path [data/mydata.duckdb]. *)
Theorem main_prints_what_it_stored (fails : nat -> nat -> nat -> bool) (w w' : world)
    (out : list printed) :
  main fails w = (Ok out, w') ->
  exists l1 l3,
    out = [ Shown "user:1" ada; ShownKeys l1;
            ShownPath (Some (str (truediv (parse (cwd w)) "duckno.db")));
            Shown "tmp" (PyInt 123); ShownKeys ["tmp"]; ShownPath None;
            Shown "a" (PyList [PyInt 1; PyInt 2; PyInt 3]); ShownKeys l3;
            ShownPath (Some "data/mydata.duckdb") ]
    /\ In "user:1" l1 /\ StronglySorted lex_le l1
    /\ In "a" l3 /\ StronglySorted lex_le l3.
Proof.
  unfold main.
  destruct (__init__ (fails 0 0) w None false "duckno_kv") as [[kv|e] w1] eqn:E0;
    [|discriminate].
  destruct (use _ kv "user:1" ada) as [[out1|e] kv'] eqn:U1; [|discriminate].
  cbv zeta.
  destruct (__init__ (fails 1 0) w1 None true "duckno_kv") as [[mem|e] w2] eqn:E1;
    [|discriminate].
  unfold with_, __enter__.
  destruct (use _ mem "tmp" (PyInt 123)) as [[out2|e] mem'] eqn:U2; [|discriminate].
  destruct (__init__ (fails 2 0) w2 (Some "data/mydata.duckdb") false "duckno_kv")
    as [[kv2|e] w3] eqn:E2; [|discriminate].
  destruct (use _ kv2 "a" _) as [[out3|e] kv2'] eqn:U3; [|discriminate].
  intros [= <- <-].
  apply example_facts.use_Ok in U1 as (l1 & -> & Hin1 & Hs1 & _).
  apply example_facts.use_Ok in U2 as (l2 & -> & _ & _ & Hl2).
  apply example_facts.use_Ok in U3 as (l3 & -> & Hin3 & Hs3 & _).
  apply init_facts.init_file in E0 as (f0 & fs0 & Hr0 & -> & _); [|reflexivity].
  change (Some (truediv (parse (cwd w)) "duckno.db", fs w) = Some (f0, fs0)) in Hr0.
  injection Hr0 as <- <-.
  apply init_facts.init_memory in E1 as [-> _]; [|reflexivity].
  rewrite (Hl2 eq_refl).
  apply init_facts.init_file in E2 as (f2 & fs2 & Hr2 & -> & _); [|reflexivity].
  apply example_facts.resolve_explicit in Hr2 as [-> _]; [|discriminate].
  exists l1, l3. repeat split; assumption.
Qed.


(* ------------------------------------------------------------------------- *)
(** ** The further properties on concrete stores *)

Lemma set_then_get_decoded_witness :
  fst (get no_faults (snd (set no_faults empty_store (PyStr "k")
                             (PyTuple [PyInt 1; PyInt 2])))
         (PyStr "k") PyNone)
  = Ok (PyList [PyInt 1; PyInt 2]).
Proof.
  apply (set_then_get_decoded no_faults no_faults empty_store _ "k"
           (PyTuple [PyInt 1; PyInt 2]) PyNone);
    [discriminate | reflexivity | reflexivity].
Defined.

Lemma set_leaves_other_keys_witness :
  records "a" (snd (set no_faults store_a (PyStr "b") (PyInt 2))) = records "a" store_a
  /\ fst (get no_faults (snd (set no_faults store_a (PyStr "b") (PyInt 2)))
            (PyStr "a") PyNone)
     = fst (get no_faults store_a (PyStr "a") PyNone).
Proof.
  apply (set_leaves_other_keys no_faults no_faults store_a
           (snd (set no_faults store_a (PyStr "b") (PyInt 2))) (PyStr "b") (PyInt 2)
           PyNone (Ok tt) "a");
    [vm_compute; reflexivity | discriminate | vm_compute; reflexivity].
Defined.

Lemma failed_set_is_invisible_witness :
  fst (set insert_fails store_a (PyStr "a") (PyInt 2)) = Raise DuckDBError
  /\ fst (get no_faults (snd (set insert_fails store_a (PyStr "a") (PyInt 2)))
            (PyStr "a") PyNone)
     = fst (get no_faults store_a (PyStr "a") PyNone)
  /\ fst (keys no_faults (snd (set insert_fails store_a (PyStr "a") (PyInt 2))))
     = fst (keys no_faults store_a).
Proof.
  assert (Hi : idle store_a) by (vm_compute; reflexivity).
  assert (E : set insert_fails store_a (PyStr "a") (PyInt 2)
              = (Raise DuckDBError, snd (set insert_fails store_a (PyStr "a") (PyInt 2))))
    by (vm_compute; reflexivity).
  destruct (failed_set_is_invisible insert_fails store_a _ (PyStr "a") (PyInt 2)
              DuckDBError Hi E) as [Hg Hk].
  split; [vm_compute; reflexivity|]. split; [apply Hg | apply Hk].
Defined.

Lemma set_twice_is_set_once_witness :
  committed (_conn (snd (set no_faults (snd (set no_faults empty_store (PyStr "a") (PyInt 1)))
                           (PyStr "a") (PyInt 2))))
  = committed (_conn (snd (set no_faults empty_store (PyStr "a") (PyInt 2)))).
Proof.
  apply (set_twice_is_set_once no_faults no_faults empty_store
           (snd (set no_faults empty_store (PyStr "a") (PyInt 1)))
           (snd (set no_faults (snd (set no_faults empty_store (PyStr "a") (PyInt 1)))
                   (PyStr "a") (PyInt 2)))
           (PyStr "a") (PyInt 2) (PyInt 1)
           ltac:(vm_compute; reflexivity) ltac:(vm_compute; reflexivity) no_faults
           (snd (set no_faults empty_store (PyStr "a") (PyInt 2)))
           ltac:(vm_compute; reflexivity)).
Defined.

Lemma keys_after_set_witness :
  exists l l',
    fst (keys no_faults store_a) = Ok l
    /\ fst (keys no_faults (snd (set no_faults store_a (PyStr "b") (PyInt 2)))) = Ok l'
    /\ (forall x, In x l' <-> x = "b" \/ In x l)
    /\ (In "b" l -> List.length l' = List.length l)
    /\ (~ In "b" l -> List.length l' = S (List.length l)).
Proof.
  apply (keys_after_set no_faults no_faults store_a
           (snd (set no_faults store_a (PyStr "b") (PyInt 2))) "b" (PyInt 2));
    [ | reflexivity | vm_compute; reflexivity].
  change (NoDup ["a"]). constructor; [intros [] | constructor].
Defined.

Lemma set_ends_its_transaction_witness :
  (exists k p, PyStr "a" = PyStr k /\ json.dumps (PyInt 1) = Some p
     /\ executed (_conn store_a)
        = ([COMMIT; INSERT_VALUES k p; DELETE_WHERE_k k; BEGIN_TRANSACTION]
           ++ executed (_conn empty_store))%list).
Proof.
  exact (set_ends_its_transaction no_faults empty_store store_a (PyStr "a") (PyInt 1)
           (Ok tt) eq_refl).
Defined.

Lemma keys_agree_with_get_witness :
  exists l,
    fst (keys no_faults store_a) = Ok l /\ NoDup l
    /\ forall k, k <> "" ->
         (In k l <-> exists p, In (k, p) (view (_conn store_a)))
         /\ (In k l -> forall g d d', g 0 = false ->
               fst (get g store_a (PyStr k) d) = fst (get g store_a (PyStr k) d'))
         /\ (forall p v, In (k, p) (view (_conn store_a)) -> json.dumps v = Some p ->
               forall g d, g 0 = false ->
                 fst (get g store_a (PyStr k) d) = Ok (decoded v))
         /\ (~ In k l <-> forall g d, g 0 = false ->
                            fst (get g store_a (PyStr k) d) = Ok d).
Proof.
  apply (keys_agree_with_get no_faults store_a); [|reflexivity].
  split; [reflexivity|].
  change (NoDup ["a"]). constructor; [intros [] | constructor].
Defined.

Lemma set_error_tells_its_cause_witness :
  fst (set no_faults empty_store (PyStr "k") (PyBytes "x"))
  = Raise (TypeError "Value must be JSON-serializable. Consider converting to basic types.")
  /\ serializable (PyBytes "x") = false
  /\ snd (set no_faults empty_store (PyStr "k") (PyBytes "x")) = empty_store.
Proof.
  split; [reflexivity|].
  destruct (set_error_tells_its_cause no_faults empty_store
              (snd (set no_faults empty_store (PyStr "k") (PyBytes "x")))
              (PyStr "k") (PyBytes "x")
              (TypeError
                 "Value must be JSON-serializable. Consider converting to basic types.")
              eq_refl)
    as (_ & _ & H & _).
  destruct (H eq_refl) as (_ & Hs & He). split; [exact Hs | exact He].
Defined.

Lemma set_returns_only_for_json_witness :
  fst (set no_faults empty_store (PyStr "k") ada_scores) = Ok tt
  /\ (exists k, PyStr "k" = PyStr k /\ k <> "")
  /\ serializable ada_scores = true.
Proof.
  assert (E : fst (set no_faults empty_store (PyStr "k") ada_scores) = Ok tt)
    by (vm_compute; reflexivity).
  split; [exact E|].
  exact (set_returns_only_for_json no_faults empty_store (PyStr "k") ada_scores E).
Defined.

Lemma stored_text_has_no_control_character_witness :
  exists p, json.dumps (PyInt 1) = Some p /\ records "a" store_a = [("a", p)]
            /\ printable p = true.
Proof.
  exact (stored_text_has_no_control_character no_faults empty_store store_a "a" (PyInt 1)
           eq_refl).
Defined.



Lemma explicit_file_is_kept_witness :
  option_map database_path
    (match fst (__init__ no_faults bare_world (Some "data/mydata.duckdb") false
                  "duckno_kv") with
     | Ok st => Some st
     | Raise _ => None
     end)
  = Some (Some "data/mydata.duckdb")
  /\ is_dir (fs (snd (__init__ no_faults bare_world (Some "data/mydata.duckdb") false
                        "duckno_kv")))
            (parse "data") = true.
Proof.
  destruct (__init__ no_faults bare_world (Some "data/mydata.duckdb") false "duckno_kv")
    as [r w'] eqn:E.
  assert (Er : r = fst (__init__ no_faults bare_world (Some "data/mydata.duckdb") false
                          "duckno_kv")) by (now rewrite E).
  vm_compute in Er. destruct r as [st|e]; [|discriminate Er].
  destruct (explicit_file_is_kept no_faults bare_world "data/mydata.duckdb" "duckno_kv"
              st w') as (Hp & _ & _ & Hd & _); [discriminate | exact E |].
  cbn [fst snd option_map]. split.
  - rewrite Hp. reflexivity.
  - apply Hd. vm_compute. discriminate.
Defined.

Lemma path_below_a_file_raises_witness :
  __init__ no_faults used_world (Some "kv.db/sub/x.db") false "duckno_kv"
  = (Raise OSError, used_world).
Proof.
  apply (path_below_a_file_raises no_faults used_world "kv.db/sub/x.db" "duckno_kv");
    [discriminate | reflexivity | reflexivity | vm_compute; discriminate | reflexivity].
Defined.

Lemma reported_path_reopens_the_file_witness :
  option_map database_path
    (match fst (__init__ no_faults used_world (Some "data/sub.db") false "duckno_kv") with
     | Ok st => Some st
     | Raise _ => None
     end)
  = Some (Some "data/sub.db").
Proof.
  destruct (__init__ no_faults bare_world (Some "data/sub") false "duckno_kv")
    as [r1 w1] eqn:E1.
  assert (Er1 : r1 = fst (__init__ no_faults bare_world (Some "data/sub") false
                            "duckno_kv")) by (now rewrite E1).
  vm_compute in Er1. destruct r1 as [st1|e]; [|discriminate Er1].
  destruct (__init__ no_faults used_world (Some "data/sub.db") false "duckno_kv")
    as [r2 w2] eqn:E2.
  assert (Er2 : r2 = fst (__init__ no_faults used_world (Some "data/sub.db") false
                            "duckno_kv")) by (now rewrite E2).
  vm_compute in Er2. destruct r2 as [st2|e]; [|discriminate Er2].
  assert (Hd : database_path st1 = Some "data/sub.db")
    by (injection Er1 as ->; reflexivity).
  destruct (reported_path_reopens_the_file no_faults bare_world (Some "data/sub") false
              "duckno_kv" st1 w1 "data/sub.db" E1 Hd ltac:(discriminate)
              ltac:(discriminate) no_faults used_world "duckno_kv" st2 w2 E2) as [Hp _].
  cbn [fst option_map]. now rewrite Hp.
Defined.

Lemma main_prints_what_it_stored_witness :
  exists l1 l3,
    fst (main main_no_faults bare_world)
    = Ok [ Shown "user:1" ada; ShownKeys l1;
           ShownPath (Some "/home/user/duckno.db");
           Shown "tmp" (PyInt 123); ShownKeys ["tmp"]; ShownPath None;
           Shown "a" (PyList [PyInt 1; PyInt 2; PyInt 3]); ShownKeys l3;
           ShownPath (Some "data/mydata.duckdb") ]
    /\ In "user:1" l1 /\ In "a" l3.
Proof.
  destruct (main main_no_faults bare_world) as [r w'] eqn:E.
  assert (Er : r = fst (main main_no_faults bare_world)) by (now rewrite E).
  vm_compute in Er. destruct r as [out|e]; [|discriminate Er].
  destruct (main_prints_what_it_stored _ _ _ _ E) as (l1 & l3 & Ho & H1 & _ & H3 & _).
  exists l1, l3. cbn [fst]. rewrite Ho. repeat split; assumption.
Defined.

